(** * ConstruX: the GPS-verified check-in / check-out routes

    A shallow embedding of [src/backend/routes/checkins.js] together with
    the [checkins], [projects] and [workers] tables of the database
    schema, and the properties of the check-in subsystem proved about it.
    The routes that read and write beside it follow: the photo router on
    the [photos] table, and the dashboard's count of active workers and
    its time-theft report.

    Conventions of the embedding.
    - A JavaScript number is an IEEE 754 binary64 value: the primitive
      [float] type, whose [+ - * /], [sqrt] and comparisons are the ones
      the engine uses.  [Math.sin], [Math.cos] and [Math.atan2] are
      implementation-approximated in ECMAScript, so they are a parameter
      ([MathLib]); what the proofs need from them is collected in
      [EcmaMath].
    - A request body is typed.  A coordinate is what [express.json] and
      [express.urlencoded] deliver for it: a Number (a JSON number) or
      a text (a JSON string, and every field of a urlencoded body), or
      it is absent ([null] and [false] count as absent: the routes only
      test [!v] on them).  Identifiers are JSON numbers or absent,
      [scheduledTime] is a date text or absent, [photoUrl] and [notes]
      are strings or absent.  A parameter of the query string of
      [GET /] is a text, kept by what PostgreSQL reads in it.
    - A table is the list of its rows in insertion order; a query returns
      the rows it selects.  Values come back from the driver as
      node-postgres hands them over by default: an [INTEGER] as a number,
      a [DECIMAL] as its text, a [TIMESTAMP] as a [Date].
    - Times.  A [Date] is an instant, an integer in milliseconds.  A
      [TIMESTAMP] column has no time zone: it holds the wall clock of
      the session's zone, an integer too, and the driver hands it to
      the route as the [Date] that wall clock denotes in the zone of the
      process ([as_date]); the two agree only when the zones do.
    - What PostgreSQL does with a parameter is not code of the
      repository.  The value a [DECIMAL(p, 8)] column takes from a
      coordinate (the text the driver sends, read, rounded to 8 decimals
      and refused when it is no number or has too many digits) is a
      reading the handler is given ([decimal_column]); a statement whose
      coordinate is refused fails, and so does one whose hours do not
      fit [hours_worked DECIMAL(5,2)]; the handler then answers 500.
    - A route handler is a function from what its run is given (the
      clocks and these readings), the database and the request to the
      response and the database it leaves; the handlers run one at a
      time: each runs its queries with no other request in between. *)

From Stdlib Require Import ZArith List Bool Ascii String Lia Floats Sorted.
Import ListNotations.

(* A decimal literal denotes the nearest binary64 value, as it does in
   JavaScript. *)
Set Warnings "-inexact-float".

(** ** JavaScript numbers *)

Module JS.

Local Open Scope float_scope.

(** The Number value of a mathematical integer (exact up to [2^53]). *)
Definition of_Z (z : Z) : float :=
  SF2Prim (binary_normalize prec emax z 0 false).

(** [Math.PI]. *)
Definition PI : float := 0x1.921fb54442d18p+1.

(** A field of a request body as the body parsers deliver it: a Number,
    or a text, kept as its UTF-8 bytes. *)
Inductive value : Type :=
| Number (x : float)
| Text (s : string).

(** ToBoolean on a Number: [+0], [-0] and [NaN] are falsy. *)
Definition number_truthy (x : float) : bool :=
  negb (x =? 0) && negb (is_nan x).

(** ToBoolean: of the texts, only the empty one is falsy. *)
Definition truthy (v : value) : bool :=
  match v with
  | Number x => number_truthy x
  | Text s => negb (String.eqb s EmptyString)
  end.

(** [Object.is(x, -0)] *)
Definition is_neg_zero (x : float) : bool := is_zero x && get_sign x.

(** [parseFloat] applied to a Number: the number is printed and read
    back, which only loses the sign of zero. *)
Definition parseFloat_number (x : float) : float :=
  if x =? 0 then 0 else x.

(** A decimal digit and its value. *)
Definition is_digit (c : ascii) : bool :=
  ((48 <=? N_of_ascii c) && (N_of_ascii c <=? 57))%N.

Definition digit (c : ascii) : Z := (Z.of_N (N_of_ascii c) - 48)%Z.

(** [DecimalDigits], as far as they go: the integer they denote after
    [acc], how many there are, and the rest of the text. *)
Fixpoint digits (s : string) (acc count : Z) : Z * Z * string :=
  match s with
  | String c r =>
      if is_digit c then digits r (10 * acc + digit c)%Z (count + 1)%Z
      else (acc, count, s)
  | EmptyString => (acc, count, s)
  end.

(** The white space and line terminators [parseFloat] skips at the start
    of a text, in UTF-8: TAB, LF, VT, FF, CR, SP, U+00A0, U+1680,
    U+2000 to U+200A, U+2028, U+2029, U+202F, U+205F, U+3000, U+FEFF.
    The rest of the text after one of them, if it starts with one. *)
Definition white_space (s : string) : option string :=
  match s with
  | String c r =>
      match N_of_ascii c with
      | 9 | 10 | 11 | 12 | 13 | 32 => Some r
      | 194 =>
          match r with
          | String d r' => if (N_of_ascii d =? 160)%N then Some r' else None
          | _ => None
          end
      | 225 | 226 | 227 | 239 =>
          match r with
          | String d (String e r') =>
              match N_of_ascii c, N_of_ascii d, N_of_ascii e with
              | 225, 154, 128 => Some r'
              | 226, 128, 128 | 226, 128, 129 | 226, 128, 130 | 226, 128, 131
              | 226, 128, 132 | 226, 128, 133 | 226, 128, 134 | 226, 128, 135
              | 226, 128, 136 | 226, 128, 137 | 226, 128, 138
              | 226, 128, 168 | 226, 128, 169 | 226, 128, 175
              | 226, 129, 159 => Some r'
              | 227, 128, 128 => Some r'
              | 239, 187, 191 => Some r'
              | _, _, _ => None
              end
          | _ => None
          end
      | _ => None
      end%N
  | EmptyString => None
  end.

(** The text without its leading white space ([fuel]: its length). *)
Fixpoint trim_start (fuel : nat) (s : string) : string :=
  match fuel with
  | O => s
  | S fuel' =>
      match white_space s with
      | Some r => trim_start fuel' r
      | None => s
      end
  end.

(** The Number value of the decimal [m * 10^k], for [0 <= m < 10^len]:
    the double nearest to it, the one of even mantissa of two equally
    near.  Beyond [10^310] it is an infinity and below [10^-330] a zero,
    which spares the power of ten. *)
Definition of_decimal (neg : bool) (m len k : Z) : float :=
  if (m =? 0)%Z then (if neg then neg_zero else zero)
  else if (0 <=? k)%Z then
    if (310 <? k)%Z then (if neg then neg_infinity else infinity)
    else
      SF2Prim (binary_normalize prec emax (cond_Zopp neg (m * 10 ^ k)) 0 false)
  else
    if (len + k <? -330)%Z then (if neg then neg_zero else zero)
    else
      let '(q, e, l) := SFdiv_core_binary prec emax m 0 (10 ^ (- k)) 0 in
      SF2Prim (binary_round_aux prec emax neg q e l).

(** An optional sign. *)
Definition sign (s : string) : bool * string :=
  match s with
  | String "-" r => (true, r)
  | String "+" r => (false, r)
  | _ => (false, s)
  end.

(** [ExponentPart], when the text starts with one: [e] or [E], an
    optional sign and at least one digit; otherwise no exponent. *)
Definition exponent (s : string) : Z :=
  match s with
  | String c r =>
      if Ascii.eqb c "e" || Ascii.eqb c "E" then
        let '(neg, r') := sign r in
        let '(e, count, _) := digits r' 0 0 in
        if (count =? 0)%Z then 0%Z else cond_Zopp neg e
      else 0%Z
  | EmptyString => 0%Z
  end.

(** [parseFloat] applied to a text: the leading white space is skipped,
    and the longest prefix of the rest that is a [StrDecimalLiteral] (a
    sign, then [Infinity], or digits with a fraction, or a fraction
    alone, and an exponent) is read; [NaN] when there is none. *)
Definition parseFloat_text (s : string) : float :=
  let '(neg, t) := sign (trim_start (String.length s) s) in
  if String.prefix "Infinity" t then (if neg then neg_infinity else infinity)
  else
    let '(i, ni, r1) := digits t 0 0 in
    let '(m, nf, r2) :=
      match r1 with
      | String "." r => digits r i 0
      | _ => (i, 0%Z, r1)
      end in
    if (ni + nf =? 0)%Z then nan
    else of_decimal neg m (ni + nf) (exponent r2 - nf).

(** [parseFloat(v)] *)
Definition parseFloat (v : value) : float :=
  match v with
  | Number x => parseFloat_number x
  | Text s => parseFloat_text s
  end.

(** [Math.round]: the integral Number closest to [x], ties towards
    [+Infinity]; [-0] for [-0.5 <= x < 0]. *)
Definition round (x : float) : float :=
  match Prim2SF x with
  | S754_finite s m e =>
      if (0 <=? e)%Z then x
      else
        let n := ((cond_Zopp s (2 * Zpos m) + 2 ^ (- e)) / 2 ^ (1 - e))%Z in
        if (n =? 0)%Z then (if s then neg_zero else zero) else of_Z n
  | _ => x
  end.

(** The result of [x.toFixed(2)]: a decimal string with two fraction
    digits, kept as its sign and its digits read as an integer (so
    ["2.50"] is [Fixed2 false 250] and ["-0.00"] is [Fixed2 true 0]), or
    the plain rendering of [x] when [x] is not finite or reaches
    [10^21]. *)
Inductive fixed2 : Type :=
| Fixed2 (neg : bool) (digits : Z)
| NotFixed (x : float).

(** [Number.prototype.toFixed] with two fraction digits: [n] is the
    integer for which [n / 100] is closest to the exact value of [|x|],
    the larger one of two equally close. *)
Definition toFixed2 (x : float) : fixed2 :=
  match Prim2SF x with
  | S754_zero _ => Fixed2 false 0
  | S754_finite s m e =>
      if (0 <=? e)%Z then
        if (10 ^ 21 <=? Zpos m * 2 ^ e)%Z then NotFixed x
        else Fixed2 s (100 * (Zpos m * 2 ^ e))
      else
        if (10 ^ 21 * 2 ^ (- e) <=? Zpos m)%Z then NotFixed x
        else Fixed2 s ((200 * Zpos m + 2 ^ (- e)) / 2 ^ (1 - e))
  | _ => NotFixed x
  end.

End JS.

(** ** The engine's Math functions *)

Record MathLib : Type := {
  Math_sin : float -> float;
  Math_cos : float -> float;
  Math_atan2 : float -> float -> float
}.

(** ** Great-circle distance *)

Section Distance.

Variable M : MathLib.

Local Open Scope float_scope.

(** [calculateDistance(lat1, lon1, lat2, lon2)]: the haversine formula. *)
Definition calculateDistance (lat1 lon1 lat2 lon2 : float) : float :=
  let R := 6371e3 in
  let phi1 := (lat1 * JS.PI) / 180 in
  let phi2 := (lat2 * JS.PI) / 180 in
  let dphi := ((lat2 - lat1) * JS.PI) / 180 in
  let dlambda := ((lon2 - lon1) * JS.PI) / 180 in
  let a :=
    Math_sin M (dphi / 2) * Math_sin M (dphi / 2) +
    Math_cos M phi1 * Math_cos M phi2
      * Math_sin M (dlambda / 2) * Math_sin M (dlambda / 2) in
  let c := 2 * Math_atan2 M (sqrt a) (sqrt (1 - a)) in
  R * c.

End Distance.

(** ** The tables *)

(** A row of [workers]: the columns the routes read. *)
Record worker : Type := {
  worker_id : Z;
  worker_user_id : option Z
}.

(** A row of [projects].  The driver hands a [DECIMAL] column to the
    route as its text, which is a truthy value whenever the column is
    not [NULL]; the row carries the number [parseFloat] reads in it. *)
Record project : Type := {
  project_id : Z;
  gps_latitude : option float;
  gps_longitude : option float;
  geofence_radius_meters : option Z
}.

(** The value of a [DECIMAL(p, 8)] column: a multiple of [10^-8], kept
    as that multiple, or [NaN], which the type admits. *)
Inductive decimal : Type :=
| Decimal (units : Z)
| DecimalNaN.

(** A row of [checkins].  [hours_worked] is a [DECIMAL(5,2)], kept in
    hundredths of an hour; the [TIMESTAMP] columns hold wall-clock
    times. *)
Record checkin : Type := {
  id : Z;
  checkin_worker_id : Z;
  checkin_project_id : Z;
  checkin_time : Z;
  checkout_time : option Z;
  checkin_gps_lat : decimal;
  checkin_gps_lng : decimal;
  checkout_gps_lat : option decimal;
  checkout_gps_lng : option decimal;
  checkin_photo_url : option string;
  checkout_photo_url : option string;
  is_late : bool;
  hours_worked : option Z;
  notes : option string;
  created_at : Z;
  updated_at : Z
}.

(** The database: the three tables and the sequence behind
    [checkins.id]. *)
Record database : Type := {
  workers : list worker;
  projects : list project;
  checkins : list checkin;
  checkins_id_seq : Z
}.

(** A shift is open while its [checkout_time] is [NULL]. *)
Definition is_open (c : checkin) : bool :=
  match checkout_time c with
  | None => true
  | Some _ => false
  end.

(** ** The queries of the routes *)

Definition eqb_opt (o : option Z) (z : Z) : bool :=
  match o with
  | Some y => (y =? z)%Z
  | None => false
  end.

(** [SELECT id FROM workers WHERE user_id = $1] *)
Definition select_worker_ids (db : database) (user_id : Z) : list Z :=
  map worker_id
    (filter (fun w => eqb_opt (worker_user_id w) user_id) (workers db)).

(** [SELECT gps_latitude, gps_longitude, geofence_radius_meters
     FROM projects WHERE id = $1] *)
Definition select_project (db : database) (pid : Z) : list project :=
  filter (fun p => (project_id p =? pid)%Z) (projects db).

(** [... FROM checkins WHERE worker_id = $1 AND checkout_time IS NULL] *)
Definition select_open (db : database) (workerId : Z) : list checkin :=
  filter (fun c => (checkin_worker_id c =? workerId)%Z && is_open c)
    (checkins db).

(** [ORDER BY checkin_time DESC], rows with equal times in table order. *)
Fixpoint insert_desc (c : checkin) (l : list checkin) : list checkin :=
  match l with
  | [] => [c]
  | d :: l' =>
      if (checkin_time d <=? checkin_time c)%Z then c :: l
      else d :: insert_desc c l'
  end.

Definition order_by_checkin_time_desc (l : list checkin) : list checkin :=
  fold_right insert_desc [] l.

(** [SELECT * FROM checkins WHERE worker_id = $1 AND checkout_time IS NULL
     ORDER BY checkin_time DESC LIMIT 1] *)
Definition select_open_latest (db : database) (workerId : Z) : list checkin :=
  firstn 1 (order_by_checkin_time_desc (select_open db workerId)).

(** [INSERT INTO checkins (...) VALUES ($1, $2, NOW(), $3, $4, $5, $6)
     RETURNING *], with the coordinates as the columns take them: the
    new row takes the next value of the sequence, and [created_at] and
    [updated_at] their default, [CURRENT_TIMESTAMP], which is [NOW()]. *)
Definition insert_checkin (db : database) (now : Z) (workerId projectId : Z)
    (gpsLat gpsLng : decimal) (photoUrl : option string) (isLate : bool)
  : checkin * database :=
  let row := {|
    id := checkins_id_seq db;
    checkin_worker_id := workerId;
    checkin_project_id := projectId;
    checkin_time := now;
    checkout_time := None;
    checkin_gps_lat := gpsLat;
    checkin_gps_lng := gpsLng;
    checkout_gps_lat := None;
    checkout_gps_lng := None;
    checkin_photo_url := photoUrl;
    checkout_photo_url := None;
    is_late := isLate;
    hours_worked := None;
    notes := None;
    created_at := now;
    updated_at := now |} in
  (row, {| workers := workers db;
           projects := projects db;
           checkins := checkins db ++ [row];
           checkins_id_seq := (checkins_id_seq db + 1)%Z |}).

(** The [SET] clause of the check-out statement, on one row, with the
    coordinates as the columns take them; the trigger
    [update_checkins_updated_at] of the schema sets [updated_at] to
    [CURRENT_TIMESTAMP] before every update of a row. *)
Definition set_checkout (now : Z) (gpsLat gpsLng : option decimal)
    (photoUrl : option string) (hours : Z) (note : option string)
    (c : checkin) : checkin :=
  {| id := id c;
     checkin_worker_id := checkin_worker_id c;
     checkin_project_id := checkin_project_id c;
     checkin_time := checkin_time c;
     checkout_time := Some now;
     checkin_gps_lat := checkin_gps_lat c;
     checkin_gps_lng := checkin_gps_lng c;
     checkout_gps_lat := gpsLat;
     checkout_gps_lng := gpsLng;
     checkin_photo_url := checkin_photo_url c;
     checkout_photo_url := photoUrl;
     is_late := is_late c;
     hours_worked := Some hours;
     notes := note;
     created_at := created_at c;
     updated_at := now |}.

(** [UPDATE checkins SET ... WHERE id = $6 RETURNING *] *)
Definition update_checkout (db : database) (now : Z)
    (gpsLat gpsLng : option decimal) (photoUrl : option string) (hours : Z)
    (note : option string) (target : Z) : list checkin * database :=
  let upd c :=
    if (id c =? target)%Z
    then set_checkout now gpsLat gpsLng photoUrl hours note c else c in
  let rows := map upd (checkins db) in
  (filter (fun c => (id c =? target)%Z) rows,
   {| workers := workers db;
      projects := projects db;
      checkins := rows;
      checkins_id_seq := checkins_id_seq db |}).

(** The value a [DECIMAL(5,2)] column takes from the text of
    [toFixed(2)], in hundredths; the statement fails when the text is not
    a decimal below one thousand. *)
Definition decimal_5_2 (t : JS.fixed2) : option Z :=
  match t with
  | JS.Fixed2 s n => if (n <? 100000)%Z then Some (cond_Zopp s n) else None
  | JS.NotFixed _ => None
  end.

(** ** Requests and responses *)

(** A coordinate field of a body: a Number or a text, or absent. *)
Definition number_field : Type := option JS.value.

(** [!v] holds of an absent field, of a falsy Number and of the empty
    text. *)
Definition missing (v : number_field) : bool :=
  match v with
  | Some x => negb (JS.truthy x)
  | None => true
  end.

(** [!v] on an identifier sent as a JSON number: [0] is falsy. *)
Definition missing_id (v : option Z) : bool :=
  match v with
  | Some z => (z =? 0)%Z
  | None => true
  end.

(** [v || null] on a string field: the empty string becomes [null]. *)
Definition or_null (v : option string) : option string :=
  match v with
  | Some s => if String.eqb s EmptyString then None else Some s
  | None => None
  end.

(** What [new Date(text)] makes of a date text. *)
Inductive js_date : Type :=
| InvalidDate
| Instant (ms : Z).

(** The body of [POST /checkin] and the authenticated user.
    [scheduledTime] is a non-empty date text, read by [new Date], or
    absent. *)
Record checkin_request : Type := {
  ci_user_id : Z;
  ci_projectId : option Z;
  ci_gpsLat : number_field;
  ci_gpsLng : number_field;
  ci_photoUrl : option string;
  ci_scheduledTime : option js_date
}.

(** The body of [POST /checkout] and the authenticated user. *)
Record checkout_request : Type := {
  co_user_id : Z;
  co_gpsLat : number_field;
  co_gpsLng : number_field;
  co_photoUrl : option string;
  co_notes : option string
}.

(** A parameter a query string supplies, by what PostgreSQL reads in it
    for the column it is compared with: a value of the column's type
    (an integer, a timestamp), or nothing, and the statement then
    fails. *)
Inductive reading (A : Type) : Type :=
| Unreadable
| Reads (a : A).

Arguments Unreadable {A}.
Arguments Reads {A} a.

(** The query string of [GET /]; an empty parameter is as good as
    absent. *)
Record list_request : Type := {
  ls_projectId : option (reading Z);
  ls_workerId : option (reading Z);
  ls_startDate : option (reading Z);
  ls_endDate : option (reading Z)
}.

(** What the run of a handler is given.  The two clocks it reads:
    [new Date()] in the route, an instant, and [NOW()] in the
    statements, as a [TIMESTAMP] column takes it.  The [Date] the driver
    makes of a [TIMESTAMP] column when it hands a row to the route.  The
    value a [DECIMAL(precision, 8)] column takes from a coordinate
    parameter, or nothing when PostgreSQL refuses the parameter. *)
Record environment : Type := {
  js_now : Z;
  db_now : Z;
  as_date : Z -> Z;
  decimal_column : Z -> JS.value -> option decimal
}.

(** The answers of the routes, by status code. *)
Inductive response : Type :=
| BadRequest (error : string)                        (* 400 *)
| Forbidden (distance : float) (maxDistance : Z)     (* 403 *)
| NotFound (error : string)                          (* 404 *)
| Conflict (checkinId : Z)                           (* 409 *)
| Created (row : checkin)                            (* 201 *)
| CheckedOut (row : option checkin) (hoursWorked : JS.fixed2)  (* 200 *)
| Listing (rows : list checkin) (count : nat)        (* 200 *)
| Active (active : bool) (row : option checkin)      (* 200 *)
| ServerError (error : string).                      (* 500 *)

(** ** The route handlers *)

Section Routes.

Variable M : MathLib.

Local Open Scope string_scope.

(** [project.geofence_radius_meters || 100] *)
Definition maxDistance_of (p : project) : Z :=
  match geofence_radius_meters p with
  | Some r => if (r =? 0)%Z then 100%Z else r
  | None => 100%Z
  end.

(** The geofence block of [POST /checkin]: the distance and the radius of
    a violation, or [None] when the request goes on. *)
Definition geofence_violation (p : project) (gpsLat gpsLng : JS.value)
  : option (float * Z) :=
  match gps_latitude p, gps_longitude p with
  | Some plat, Some plng =>
      let distance :=
        calculateDistance M (JS.parseFloat gpsLat) (JS.parseFloat gpsLng)
          plat plng in
      let maxDistance := maxDistance_of p in
      if (JS.of_Z maxDistance <? distance)%float
      then Some (distance, maxDistance) else None
  | _, _ => None
  end.

(** [isLate], from [scheduledTime] and [new Date()]. *)
Definition compute_isLate (scheduledTime : option js_date) (now : Z) : bool :=
  match scheduledTime with
  | Some (Instant scheduled) => (scheduled <? now)%Z
  | Some InvalidDate => false
  | None => false
  end.

(** [router.post('/checkin', ...)] *)
Definition checkin_handler (env : environment) (db : database)
    (req : checkin_request) : response * database :=
  match ci_projectId req, ci_gpsLat req, ci_gpsLng req with
  | Some projectId, Some gpsLat, Some gpsLng =>
      if missing_id (ci_projectId req) || missing (ci_gpsLat req)
         || missing (ci_gpsLng req)
      then
        (BadRequest "Project ID, GPS latitude, and GPS longitude are required",
         db)
      else
        match select_worker_ids db (ci_user_id req) with
        | [] => (NotFound "Worker profile not found", db)
        | workerId :: _ =>
            match select_project db projectId with
            | [] => (NotFound "Project not found", db)
            | p :: _ =>
                match geofence_violation p gpsLat gpsLng with
                | Some (distance, maxDistance) =>
                    (Forbidden (JS.round distance) maxDistance, db)
                | None =>
                    match select_open db workerId with
                    | active :: _ => (Conflict (id active), db)
                    | [] =>
                        let isLate :=
                          compute_isLate (ci_scheduledTime req) (js_now env) in
                        match
                          decimal_column env 10 gpsLat,
                          decimal_column env 11 gpsLng
                        with
                        | Some lat, Some lng =>
                            let (row, db') :=
                              insert_checkin db (db_now env) workerId projectId
                                lat lng (or_null (ci_photoUrl req)) isLate in
                            (Created row, db')
                        | _, _ => (ServerError "Check-in failed", db)
                        end
                    end
                end
            end
        end
  | _, _, _ =>
      (BadRequest "Project ID, GPS latitude, and GPS longitude are required",
       db)
  end.

(** The value a [DECIMAL(precision, 8)] column takes from a field. *)
Definition column (env : environment) (precision : Z) (v : number_field)
  : option decimal :=
  match v with
  | Some x => decimal_column env precision x
  | None => None
  end.

(** [router.post('/checkout', ...)] *)
Definition checkout_handler (env : environment) (db : database)
    (req : checkout_request) : response * database :=
  if missing (co_gpsLat req) || missing (co_gpsLng req)
  then (BadRequest "GPS latitude and longitude are required", db)
  else
    match select_worker_ids db (co_user_id req) with
    | [] => (NotFound "Worker profile not found", db)
    | workerId :: _ =>
        match select_open_latest db workerId with
        | [] => (NotFound "No active check-in found", db)
        | c :: _ =>
            let checkinTime := JS.of_Z (as_date env (checkin_time c)) in
            let checkoutTime := JS.of_Z (js_now env) in
            let hoursWorked :=
              ((checkoutTime - checkinTime) / (1000 * 60 * 60))%float in
            match decimal_5_2 (JS.toFixed2 hoursWorked) with
            | None => (ServerError "Check-out failed", db)
            | Some hours =>
                match
                  column env 10 (co_gpsLat req), column env 11 (co_gpsLng req)
                with
                | Some lat, Some lng =>
                    let (rows, db') :=
                      update_checkout db (db_now env) (Some lat) (Some lng)
                        (or_null (co_photoUrl req)) hours
                        (or_null (co_notes req)) (id c) in
                    (CheckedOut (hd_error rows) (JS.toFixed2 hoursWorked), db')
                | _, _ => (ServerError "Check-out failed", db)
                end
            end
        end
    end.

(** The [JOIN]s of the read queries keep a shift whose worker and
    project rows exist. *)
Definition has_worker (db : database) (c : checkin) : bool :=
  existsb (fun w => (worker_id w =? checkin_worker_id c)%Z) (workers db).

Definition has_project (db : database) (c : checkin) : bool :=
  existsb (fun p => (project_id p =? checkin_project_id c)%Z) (projects db).

Definition filter_by {A : Type} (param : option A) (test : A -> bool) : bool :=
  match param with
  | Some a => test a
  | None => true
  end.

(** A parameter the statement can take: absent, or read. *)
Definition readable {A : Type} (param : option (reading A)) : bool :=
  match param with
  | Some Unreadable => false
  | _ => true
  end.

(** A query string whose parameters PostgreSQL can read. *)
Definition well_read (req : list_request) : bool :=
  readable (ls_projectId req) && readable (ls_workerId req)
  && readable (ls_startDate req) && readable (ls_endDate req).

(** The condition a parameter adds to the [WHERE] clause. *)
Definition where_read {A : Type} (param : option (reading A))
    (test : A -> bool) : bool :=
  match param with
  | Some (Reads a) => test a
  | _ => true
  end.

(** [router.get('/', ...)]: the filtered shifts, most recent check-in
    first, at most one hundred; the query fails on a parameter
    PostgreSQL cannot read. *)
Definition list_handler (db : database) (req : list_request)
  : response * database :=
  if well_read req then
    let selected c :=
      has_worker db c && has_project db c
      && where_read (ls_projectId req) (fun p => (checkin_project_id c =? p)%Z)
      && where_read (ls_workerId req) (fun w => (checkin_worker_id c =? w)%Z)
      && where_read (ls_startDate req) (fun t => (t <=? checkin_time c)%Z)
      && where_read (ls_endDate req) (fun t => (checkin_time c <=? t)%Z) in
    let rows :=
      firstn 100 (order_by_checkin_time_desc (filter selected (checkins db))) in
    (Listing rows (List.length rows), db)
  else (ServerError "Failed to get check-ins", db).

(** [router.get('/active', ...)] *)
Definition active_handler (db : database) (user_id : Z)
  : response * database :=
  match select_worker_ids db user_id with
  | [] => (NotFound "Worker profile not found", db)
  | workerId :: _ =>
      match
        firstn 1 (order_by_checkin_time_desc
                    (filter (has_project db) (select_open db workerId)))
      with
      | [] => (Active false None, db)
      | c :: _ => (Active true (Some c), db)
      end
  end.

End Routes.

(** ** A reference Math library

    One implementation of the three functions, by their power series, on
    which the statements below can be run.  Its error is of the order of
    [1e-15] on the arguments [calculateDistance] forms from coordinates
    in range (angles within [-PI, PI]). *)

Module RefMath.

Local Open Scope float_scope.

(** [1 - x2/d1 * (1 - x2/d2 * (...))] *)
Definition alternating (ds : list float) (x2 : float) : float :=
  fold_right (fun d s => 1 - x2 / d * s) 1 ds.

Definition sin (x : float) : float :=
  if is_nan x || is_infinity x then nan
  else if x =? 0 then x
  else
    x * alternating
          [6; 20; 42; 72; 110; 156; 210; 272; 342; 420; 506; 600; 702; 812]
          (x * x).

Definition cos (x : float) : float :=
  if is_nan x || is_infinity x then nan
  else
    let r :=
      alternating
        [2; 12; 30; 56; 90; 132; 182; 240; 306; 380; 462; 552; 650; 756; 870]
        (x * x) in
    if (-1 <=? r) && (r <=? 1) then r else if r <? 0 then -1 else 1.

(** [atan t] for [0 <= t <= 1]: two halvings of the angle, then the
    series. *)
Definition atan_unit (t : float) : float :=
  let u := t / (1 + sqrt (1 + t * t)) in
  let v := u / (1 + sqrt (1 + u * u)) in
  let s :=
    fold_right (fun c s => 1 / c - v * v * s) 0
      [1; 3; 5; 7; 9; 11; 13; 15; 17; 19; 21; 23; 25] in
  4 * (v * s).

(** [atan t] for [0 <= t], never negative. *)
Definition atan_pos (t : float) : float :=
  let r := if 1 <? t then JS.PI / 2 - atan_unit (1 / t) else atan_unit t in
  if r <? 0 then 0 else r.

Definition atan2 (y x : float) : float :=
  if is_nan y || is_nan x then nan
  else if is_zero y then
    if get_sign x then (if get_sign y then - JS.PI else JS.PI) else y
  else if is_zero x then
    if y <? 0 then - (JS.PI / 2) else JS.PI / 2
  else
    let r := atan_pos (abs y / abs x) in
    let r' := if x <? 0 then JS.PI - r else r in
    if y <? 0 then - r' else r'.

Definition lib : MathLib :=
  {| Math_sin := sin; Math_cos := cos; Math_atan2 := atan2 |}.

End RefMath.

(** ** A reference reading of the coordinate columns

    One reading on which the statements below can be run: the number
    [parseFloat] reads in the parameter, rounded to 8 decimals on its
    exact value, half away from zero, and refused when it is not finite
    or does not fit [precision] digits.  PostgreSQL reads the text the
    driver sends; on the coordinates of the samples the two agree. *)

Definition reference_decimal (precision : Z) (v : JS.value) : option decimal :=
  match Prim2SF (JS.parseFloat v) with
  | S754_zero _ => Some (Decimal 0)
  | S754_finite s m e =>
      let n :=
        if (0 <=? e)%Z then (Zpos m * 2 ^ e * 10 ^ 8)%Z
        else ((2 * Zpos m * 10 ^ 8 + 2 ^ (- e)) / 2 ^ (1 - e))%Z in
      if (n <? 10 ^ precision)%Z then Some (Decimal (cond_Zopp s n)) else None
  | _ => None
  end.

(** ** What the proofs assume of the engine's Math functions

    ECMAScript fixes [Math.sin(+0)] to [+0], [Math.sin(-0)] to [-0] and
    [Math.atan2(+0, x)] to [+0] for [x > 0]; it makes [Math.atan2] take the quadrant of its
    result from the signs of its arguments, so that only [(-0, -0)] among
    the pairs without a negative number has a negative result; and a
    cosine lies between [-1] and [1]. *)

Record EcmaMath (M : MathLib) : Prop := {
  sin_zero : Math_sin M 0 = 0%float;
  sin_neg_zero : Math_sin M (-0) = (-0)%float;
  cos_range :
    forall x, is_finite x = true ->
      ((-1 <=? Math_cos M x) = true /\ (Math_cos M x <=? 1) = true)%float;
  atan2_zero_one : Math_atan2 M 0 1 = 0%float;
  atan2_notneg :
    forall y x,
      (y <? 0)%float = false -> (x <? 0)%float = false ->
      JS.is_neg_zero y && JS.is_neg_zero x = false ->
      (Math_atan2 M y x <? 0)%float = false
}.

(** ** Vocabulary of the statements *)

(** A coordinate in range: latitude within [-90, 90], longitude within
    [-180, 180]. *)
Definition valid_coordinate (lat lon : float) : bool :=
  ((-90 <=? lat) && (lat <=? 90) && (-180 <=? lon) && (lon <=? 180))%float.

(** The open shifts of a worker, and the invariant of the ledger. *)
Definition open_shifts (db : database) (w : Z) : nat :=
  List.length (select_open db w).

Definition one_open_shift_per_worker (db : database) : Prop :=
  forall w, (open_shifts db w <= 1)%nat.

(** One operation of the subsystem, run to completion. *)
Inductive step (M : MathLib) : database -> database -> Prop :=
| step_checkin env db req :
    step M db (snd (checkin_handler M env db req))
| step_checkout env db req :
    step M db (snd (checkout_handler env db req))
| step_list db req :
    step M db (snd (list_handler db req))
| step_active db user_id :
    step M db (snd (active_handler db user_id)).

(** Any number of operations, one after the other. *)
Inductive steps (M : MathLib) (db : database) : database -> Prop :=
| steps_refl : steps M db db
| steps_more db' db'' :
    steps M db db' -> step M db' db'' -> steps M db db''.

(** The states of the ledger: those the operations reach from a
    database without shifts. *)
Definition reachable (M : MathLib) (db : database) : Prop :=
  exists db0, checkins db0 = [] /\ steps M db0 db.

(** The columns of a shift that are written at check-in. *)
Definition same_checkin_columns (c c' : checkin) : Prop :=
  id c' = id c /\
  checkin_worker_id c' = checkin_worker_id c /\
  checkin_project_id c' = checkin_project_id c /\
  checkin_time c' = checkin_time c /\
  checkin_gps_lat c' = checkin_gps_lat c /\
  checkin_gps_lng c' = checkin_gps_lng c /\
  checkin_photo_url c' = checkin_photo_url c /\
  is_late c' = is_late c /\
  created_at c' = created_at c.

(** A shift [c] closed into [c'] by a check-out: the check-in columns
    are kept, the check-out columns take the values of the request, the
    coordinates as their columns read them, and [updated_at] the time
    of the statement. *)
Definition closes (env : environment) (req : checkout_request) (hours : Z)
    (c c' : checkin) : Prop :=
  same_checkin_columns c c' /\
  checkout_time c' = Some (db_now env) /\
  checkout_gps_lat c' = column env 10 (co_gpsLat req) /\
  checkout_gps_lat c' <> None /\
  checkout_gps_lng c' = column env 11 (co_gpsLng req) /\
  checkout_gps_lng c' <> None /\
  checkout_photo_url c' = or_null (co_photoUrl req) /\
  notes c' = or_null (co_notes req) /\
  hours_worked c' = Some hours /\
  updated_at c' = db_now env.

(** [checkins.id] is a primary key. *)
Definition primary_key (db : database) : Prop :=
  NoDup (map id (checkins db)).

(** The elapsed time [ms], in hundredths of an hour, rounded half up on
    its exact value: the reading of the specification. *)
Definition exact_hours_half_up (ms : Z) : Z := ((ms + 18000) / 36000)%Z.

(** [(now - checkInTime) / (1000 * 60 * 60)] as the route computes it. *)
Definition hours_between (checkInTime now : Z) : float :=
  ((JS.of_Z now - JS.of_Z checkInTime) / (1000 * 60 * 60))%float.

(** A field that carries the Number zero ([0] or [-0]). *)
Definition reports_zero (v : number_field) : Prop :=
  exists x, v = Some (JS.Number x) /\ (x =? 0)%float = true.

(** The project row a check-in request names, if any. *)
Definition site_of (db : database) (req : checkin_request) : option project :=
  match ci_projectId req with
  | Some pid => hd_error (select_project db pid)
  | None => None
  end.

(** The worker row of the authenticated user, if any. *)
Definition worker_of (db : database) (user_id : Z) : option Z :=
  hd_error (select_worker_ids db user_id).

(** A site has a registered coordinate when both columns are set. *)
Definition registered (p : project) : bool :=
  match gps_latitude p, gps_longitude p with
  | Some _, Some _ => true
  | _, _ => false
  end.

(** A check-in request gets as far as the ledger when it passes the
    required-fields check, names an existing project and is not outside
    its geofence. *)
Definition reaches_ledger (M : MathLib) (db : database)
    (req : checkin_request) : Prop :=
  exists gpsLat gpsLng p,
    missing_id (ci_projectId req) = false /\
    ci_gpsLat req = Some gpsLat /\ JS.truthy gpsLat = true /\
    ci_gpsLng req = Some gpsLng /\ JS.truthy gpsLng = true /\
    site_of db req = Some p /\
    geofence_violation M p gpsLat gpsLng = None.

(** The parts of a successful check-out response. *)
Definition checkout_handler_parts (env : environment) (db : database)
    (req : checkout_request) : option checkin * JS.fixed2 * database :=
  match checkout_handler env db req with
  | (CheckedOut row shown, db') => (row, shown, db')
  | (_, db') => (None, JS.NotFixed nan, db')
  end.

(** A float that is not negative: [NaN], a zero, or a positive float;
    and a float that is a number: a zero or a finite float. *)
Definition SFnotneg (X : spec_float) : Prop :=
  match X with
  | S754_infinity true | S754_finite true _ _ => False
  | _ => True
  end.

(** The two zeros. *)
Definition is_a_zero (z : float) : Prop := z = 0%float \/ z = (-0)%float.

Definition SFnumber (X : spec_float) : Prop :=
  match X with
  | S754_zero _ | S754_finite _ _ _ => True
  | _ => False
  end.

(** ** Sample data *)

Module Sample.

Local Open Scope float_scope.

(** The first project of the schema's sample data, radius 100 m. *)
Definition riverside : project :=
  {| project_id := 1;
     gps_latitude := Some 30.2672;
     gps_longitude := Some (-97.7431);
     geofence_radius_meters := Some 100%Z |}.

(** A project without a registered location. *)
Definition unlocated : project :=
  {| project_id := 2;
     gps_latitude := None;
     gps_longitude := None;
     geofence_radius_meters := Some 100%Z |}.

Definition alice : worker := {| worker_id := 7; worker_user_id := Some 70%Z |}.
Definition bob : worker := {| worker_id := 8; worker_user_id := Some 80%Z |}.

(** No shift yet. *)
Definition empty : database :=
  {| workers := [alice; bob];
     projects := [riverside; unlocated];
     checkins := [];
     checkins_id_seq := 1 |}.

(** 2024-03-01T08:00:00Z, in milliseconds. *)
Definition T : Z := 1709280000000.

(** A run at the instant [t], with the session and the process both in
    UTC, so that a [TIMESTAMP] is handed back as the instant it was
    stored for, and with the reference reading of the columns. *)
Definition at_time (t : Z) : environment :=
  {| js_now := t; db_now := t; as_date := fun wall_clock => wall_clock;
     decimal_column := reference_decimal |}.

(** Alice, on site. *)
Definition on_site : checkin_request :=
  {| ci_user_id := 70;
     ci_projectId := Some 1%Z;
     ci_gpsLat := Some (JS.Number 30.2672);
     ci_gpsLng := Some (JS.Number (-97.7431));
     ci_photoUrl := None;
     ci_scheduledTime := None |}.

(** Alice, about 500 m north of the site. *)
Definition off_site : checkin_request :=
  {| ci_user_id := 70;
     ci_projectId := Some 1%Z;
     ci_gpsLat := Some (JS.Number 30.2717);
     ci_gpsLng := Some (JS.Number (-97.7431));
     ci_photoUrl := None;
     ci_scheduledTime := None |}.

(** Alice, naming a project that does not exist. *)
Definition unknown_site : checkin_request :=
  {| ci_user_id := 70;
     ci_projectId := Some 99%Z;
     ci_gpsLat := Some (JS.Number 30.2672);
     ci_gpsLng := Some (JS.Number (-97.7431));
     ci_photoUrl := None;
     ci_scheduledTime := None |}.

(** Alice, on the equator. *)
Definition on_equator : checkin_request :=
  {| ci_user_id := 70;
     ci_projectId := Some 2%Z;
     ci_gpsLat := Some (JS.Number 0);
     ci_gpsLng := Some (JS.Number 32.5);
     ci_photoUrl := None;
     ci_scheduledTime := None |}.

(** Alice at the project without location, expected at [scheduled]. *)
Definition expected_at (scheduled : Z) : checkin_request :=
  {| ci_user_id := 70;
     ci_projectId := Some 2%Z;
     ci_gpsLat := Some (JS.Number 30.2672);
     ci_gpsLng := Some (JS.Number (-97.7431));
     ci_photoUrl := None;
     ci_scheduledTime := Some (Instant scheduled) |}.

(** Alice, leaving the site. *)
Definition leaving : checkout_request :=
  {| co_user_id := 70;
     co_gpsLat := Some (JS.Number 30.2672);
     co_gpsLng := Some (JS.Number (-97.7431));
     co_photoUrl := None;
     co_notes := None |}.

(** A check-out request without a latitude. *)
Definition leaving_without_latitude : checkout_request :=
  {| co_user_id := 70;
     co_gpsLat := None;
     co_gpsLng := Some (JS.Number (-97.7431));
     co_photoUrl := None;
     co_notes := None |}.

(** A check-out request from the prime meridian. *)
Definition leaving_from_meridian : checkout_request :=
  {| co_user_id := 70;
     co_gpsLat := Some (JS.Number 51.4779);
     co_gpsLng := Some (JS.Number 0);
     co_photoUrl := None;
     co_notes := None |}.

(** Alice at the first project, her latitude the text [0]. *)
Definition on_site_latitude_text_zero : checkin_request :=
  {| ci_user_id := 70;
     ci_projectId := Some 1%Z;
     ci_gpsLat := Some (JS.Text "0");
     ci_gpsLng := Some (JS.Number (-97.7431));
     ci_photoUrl := None;
     ci_scheduledTime := None |}.

(** Alice, leaving, her longitude the text [0]. *)
Definition leaving_longitude_text_zero : checkout_request :=
  {| co_user_id := 70;
     co_gpsLat := Some (JS.Number 51.4779);
     co_gpsLng := Some (JS.Text "0");
     co_photoUrl := None;
     co_notes := None |}.

(** The ledger after Alice checked in on site at [T]. *)
Definition alice_in : database :=
  snd (checkin_handler RefMath.lib (at_time T) empty on_site).

End Sample.

(** ** Vocabulary of the further properties *)

(** The shifts [GET /] has to list for a query: the rows of the ledger
    whose worker and project rows exist and that pass each filter the
    query supplies. *)
Definition listed (db : database) (req : list_request) (c : checkin) : Prop :=
  In c (checkins db) /\
  (exists w, In w (workers db) /\ worker_id w = checkin_worker_id c) /\
  (exists p, In p (projects db) /\ project_id p = checkin_project_id c) /\
  (forall p, ls_projectId req = Some (Reads p) -> checkin_project_id c = p) /\
  (forall w, ls_workerId req = Some (Reads w) -> checkin_worker_id c = w) /\
  (forall t, ls_startDate req = Some (Reads t) -> (t <= checkin_time c)%Z) /\
  (forall t, ls_endDate req = Some (Reads t) -> (checkin_time c <= t)%Z).

(** Rows in the order of [ORDER BY checkin_time DESC]. *)
Definition most_recent_first : list checkin -> Prop :=
  StronglySorted (fun a b => (checkin_time b <= checkin_time a)%Z).

(** The two foreign keys of [checkins]. *)
Definition references_hold (db : database) : Prop :=
  forall c, In c (checkins db) ->
    has_worker db c = true /\ has_project db c = true.


(** The identifiers grow along the table and stay below the sequence. *)
Definition ids_in_order (db : database) : Prop :=
  StronglySorted (fun a b => (id a < id b)%Z) (checkins db) /\
  Forall (fun c => (id c < checkins_id_seq db)%Z) (checkins db).

(** A remainder [num / den] of [[0, 1)] and where it lies with respect
    to one half, as a [location] tells it. *)
Definition located (l : location) (num den : Z) : Prop :=
  (0 <= num < den)%Z /\
  match l with
  | loc_Exact => num = 0%Z
  | loc_Inexact Lt => (0 < num /\ 2 * num < den)%Z
  | loc_Inexact Eq => (2 * num = den)%Z
  | loc_Inexact Gt => (den < 2 * num)%Z
  end.

(** A double that is [+0], positive, or [+Infinity]. *)
Definition SFpositive (X : spec_float) : Prop :=
  match X with
  | S754_zero false | S754_infinity false | S754_finite false _ _ => True
  | _ => False
  end.

(** ** Photo documentation

    The routes of the photo router on the [photos] table.  The files
    themselves (written by the upload middleware, removed by
    [fs.unlink]) are not represented, and the AI analysis, the answer
    of an external service, is a parameter. *)

(** A row of [photos]: the columns the routes write. *)
Record photo : Type := {
  photo_id : Z;
  photo_task_id : Z;
  photo_worker_id : Z;
  photo_type : string;
  photo_url : string;
  photo_notes : option string;
  ai_analysis_result : option string;
  ai_safety_flags : option (list string);
  uploaded_at : Z
}.

(** The database as the photo routes see it: the tables of the check-in
    routes, the identifiers of [tasks], [photos] and its sequence. *)
Record archive : Type := {
  ledger : database;
  tasks : list Z;
  photos : list photo;
  photos_id_seq : Z
}.

(** The file the upload middleware hands to the route. *)
Record uploaded_file : Type := {
  filename : string;
  path : string
}.

(** The multipart form of [POST /upload] and the authenticated user.
    The fields of a form are texts: [taskId] is a non-empty numeric
    text, [analyzeWithAI] tells whether the field is the text [true]. *)
Record upload_request : Type := {
  up_user_id : Z;
  up_file : option uploaded_file;
  up_taskId : option Z;
  up_photoType : option string;
  up_notes : option string;
  up_analyzeWithAI : bool
}.

(** What [GET /task/:taskId] groups its rows into. *)
Record grouped_photos : Type := {
  before : list photo;
  during : list photo;
  after : list photo
}.

(** The answers of the photo routes. *)
Inductive photo_response : Type :=
| PhotoBadRequest (error : string)                              (* 400 *)
| PhotoNotFound (error : string)                                (* 404 *)
| PhotoCreated (row : photo)                                    (* 201 *)
| TaskPhotos (rows : list photo) (grouped : grouped_photos) (count : nat)
| OnePhoto (row : photo)                                        (* 200 *)
| Analyzed (analysis : string) (safetyFlags : list string)      (* 200 *)
| PhotoDeleted                                                  (* 200 *)
| PhotoServerError (error : string).                            (* 500 *)

Section Photos.

(** [analyzePhotoWithAI(imagePath, photoType)]: the analysis and the
    safety flags it resolves to. *)
Variable analyzePhotoWithAI : string -> string -> string * list string.

(** [path.join(process.cwd(), photo.photo_url.replace(/^\//, ''))] *)
Variable stored_path : string -> string.

Local Open Scope string_scope.

(** [!v] on a text field: absent or empty. *)
Definition blank (v : option string) : bool :=
  match v with
  | Some s => String.eqb s ""
  | None => true
  end.

(** [['before', 'during', 'after'].includes(photoType)] *)
Definition is_photo_type (t : string) : bool :=
  existsb (String.eqb t) ["before"; "during"; "after"].

(** [safetyFlags.length > 0 ? safetyFlags : null] *)
Definition flags_or_null (flags : list string) : option (list string) :=
  match flags with
  | [] => None
  | _ :: _ => Some flags
  end.

(** [INSERT INTO photos (...) VALUES (...) RETURNING *]: the new row
    takes the next value of the sequence; the statement fails when
    [task_id] references no task, and the value it took from the
    sequence is then lost. *)
Definition insert_photo (a : archive) (now : Z) (taskId workerId : Z)
    (photoType photoUrl : string) (note analysis : option string)
    (flags : option (list string)) : option photo * archive :=
  let row := {|
    photo_id := photos_id_seq a;
    photo_task_id := taskId;
    photo_worker_id := workerId;
    photo_type := photoType;
    photo_url := photoUrl;
    photo_notes := note;
    ai_analysis_result := analysis;
    ai_safety_flags := flags;
    uploaded_at := now |} in
  if existsb (Z.eqb taskId) (tasks a) then
    (Some row, {| ledger := ledger a;
                  tasks := tasks a;
                  photos := photos a ++ [row];
                  photos_id_seq := (photos_id_seq a + 1)%Z |})
  else
    (None, {| ledger := ledger a;
              tasks := tasks a;
              photos := photos a;
              photos_id_seq := (photos_id_seq a + 1)%Z |}).

(** [router.post('/upload', ...)] *)
Definition upload_handler (env : environment) (a : archive) (req : upload_request)
  : photo_response * archive :=
  match up_file req with
  | None => (PhotoBadRequest "No file uploaded", a)
  | Some file =>
      match up_taskId req, up_photoType req with
      | Some taskId, Some photoType =>
          if blank (up_photoType req) then
            (PhotoBadRequest "Task ID and photo type are required", a)
          else if negb (is_photo_type photoType) then
            (PhotoBadRequest "Photo type must be before, during, or after", a)
          else
            match select_worker_ids (ledger a) (up_user_id req) with
            | [] => (PhotoNotFound "Worker profile not found", a)
            | workerId :: _ =>
                let photoUrl := "/uploads/" ++ filename file in
                let (aiAnalysis, safetyFlags) :=
                  if up_analyzeWithAI req then
                    let (analysis, flags) :=
                      analyzePhotoWithAI (path file) photoType in
                    (Some analysis, flags)
                  else (None, []) in
                match
                  insert_photo a (db_now env) taskId workerId photoType
                    photoUrl (or_null (up_notes req)) aiAnalysis
                    (flags_or_null safetyFlags)
                with
                | (Some row, a') => (PhotoCreated row, a')
                | (None, a') => (PhotoServerError "Photo upload failed", a')
                end
            end
      | _, _ => (PhotoBadRequest "Task ID and photo type are required", a)
      end
  end.

(** The [JOIN]s of the photo queries keep a photo whose worker row, and
    whose task row, exists. *)
Definition photo_has_worker (a : archive) (p : photo) : bool :=
  existsb (fun w => (worker_id w =? photo_worker_id p)%Z) (workers (ledger a)).

Definition photo_has_task (a : archive) (p : photo) : bool :=
  existsb (Z.eqb (photo_task_id p)) (tasks a).

(** [ORDER BY p.photo_type, p.uploaded_at]: texts in the order of their
    characters, rows with equal keys in table order. *)
Definition photo_before (p q : photo) : bool :=
  match String.compare (photo_type p) (photo_type q) with
  | Lt => true
  | Eq => (uploaded_at p <=? uploaded_at q)%Z
  | Gt => false
  end.

Fixpoint insert_photo_sorted (p : photo) (l : list photo) : list photo :=
  match l with
  | [] => [p]
  | q :: l' =>
      if photo_before p q then p :: l else q :: insert_photo_sorted p l'
  end.

Definition order_by_type_and_upload (l : list photo) : list photo :=
  fold_right insert_photo_sorted [] l.

(** [router.get('/task/:taskId', ...)] *)
Definition task_photos_handler (a : archive) (taskId : Z)
  : photo_response * archive :=
  let rows :=
    order_by_type_and_upload
      (filter (fun p => (photo_task_id p =? taskId)%Z && photo_has_worker a p)
         (photos a)) in
  let grouped := {|
    before := filter (fun p => String.eqb (photo_type p) "before") rows;
    during := filter (fun p => String.eqb (photo_type p) "during") rows;
    after := filter (fun p => String.eqb (photo_type p) "after") rows |} in
  (TaskPhotos rows grouped (List.length rows), a).

(** [router.get('/:id', ...)] *)
Definition photo_handler (a : archive) (pid : Z) : photo_response * archive :=
  match
    filter (fun p => (photo_id p =? pid)%Z && photo_has_worker a p
                     && photo_has_task a p) (photos a)
  with
  | [] => (PhotoNotFound "Photo not found", a)
  | p :: _ => (OnePhoto p, a)
  end.

(** [UPDATE photos SET ai_analysis_result = $1, ai_safety_flags = $2
     WHERE id = $3] *)
Definition update_analysis (a : archive) (analysis : string)
    (flags : option (list string)) (pid : Z) : archive :=
  let upd p :=
    if (photo_id p =? pid)%Z then
      {| photo_id := photo_id p;
         photo_task_id := photo_task_id p;
         photo_worker_id := photo_worker_id p;
         photo_type := photo_type p;
         photo_url := photo_url p;
         photo_notes := photo_notes p;
         ai_analysis_result := Some analysis;
         ai_safety_flags := flags;
         uploaded_at := uploaded_at p |}
    else p in
  {| ledger := ledger a;
     tasks := tasks a;
     photos := map upd (photos a);
     photos_id_seq := photos_id_seq a |}.

(** [router.post('/:id/analyze', ...)] *)
Definition analyze_handler (a : archive) (pid : Z) : photo_response * archive :=
  match filter (fun p => (photo_id p =? pid)%Z) (photos a) with
  | [] => (PhotoNotFound "Photo not found", a)
  | p :: _ =>
      let (analysis, flags) :=
        analyzePhotoWithAI (stored_path (photo_url p)) (photo_type p) in
      (Analyzed analysis flags,
       update_analysis a analysis (flags_or_null flags) pid)
  end.

(** [router.delete('/:id', ...)] *)
Definition delete_handler (a : archive) (pid : Z) : photo_response * archive :=
  match filter (fun p => (photo_id p =? pid)%Z) (photos a) with
  | [] => (PhotoNotFound "Photo not found", a)
  | _ :: _ =>
      (PhotoDeleted,
       {| ledger := ledger a;
          tasks := tasks a;
          photos := filter (fun p => negb (photo_id p =? pid)%Z) (photos a);
          photos_id_seq := photos_id_seq a |})
  end.

(** One operation of the photo routes, run to completion. *)
Inductive photo_step : archive -> archive -> Prop :=
| step_upload env a req :
    photo_step a (snd (upload_handler env a req))
| step_task_photos a taskId :
    photo_step a (snd (task_photos_handler a taskId))
| step_photo a pid :
    photo_step a (snd (photo_handler a pid))
| step_analyze a pid :
    photo_step a (snd (analyze_handler a pid))
| step_delete a pid :
    photo_step a (snd (delete_handler a pid)).

(** Any number of them, and the archives they reach from one without
    photos. *)
Inductive photo_steps (a : archive) : archive -> Prop :=
| photo_steps_refl : photo_steps a a
| photo_steps_more a' a'' :
    photo_steps a a' -> photo_step a' a'' -> photo_steps a a''.

Definition photo_reachable (a : archive) : Prop :=
  exists a0, photos a0 = [] /\ photo_steps a0 a.

(** What the routes keep true of a stored photo. *)
Definition well_formed_photo (a : archive) (p : photo) : Prop :=
  is_photo_type (photo_type p) = true /\
  ai_safety_flags p <> Some [] /\
  photo_has_worker a p = true /\
  photo_has_task a p = true /\
  (photo_id p < photos_id_seq a)%Z.

Definition well_formed_photos (a : archive) : Prop :=
  Forall (well_formed_photo a) (photos a) /\
  NoDup (map photo_id (photos a)).



End Photos.

(** ** The dashboard's readings of the ledger *)

(** [SELECT COUNT(DISTINCT worker_id) as active_workers FROM checkins
     WHERE checkout_time IS NULL], with [project_id = $1 AND] when the
    query names a project. *)
Definition active_workers (db : database) (projectId : option Z) : nat :=
  List.length
    (nodup Z.eq_dec
       (map checkin_worker_id
          (filter
             (fun c =>
                filter_by projectId (fun p => (checkin_project_id c =? p)%Z)
                && is_open c)
             (checkins db)))).

(** The query string of [GET /time-theft]. *)
Record theft_request : Type := {
  tt_projectId : option Z;
  tt_startDate : option Z;
  tt_endDate : option Z
}.

(** A row of the time-theft query: the columns the summary reads. *)
Record theft_row : Type := {
  tt_worker_id : Z;
  total_checkins : Z;
  late_checkins : Z
}.

(** The shifts of a worker the query's [WHERE] keeps. *)
Definition theft_shifts (db : database) (req : theft_request) (w : worker)
  : list checkin :=
  filter
    (fun c =>
       (worker_id w =? checkin_worker_id c)%Z
       && filter_by (tt_projectId req) (fun p => (checkin_project_id c =? p)%Z)
       && filter_by (tt_startDate req) (fun t => (t <=? checkin_time c)%Z)
       && filter_by (tt_endDate req) (fun t => (checkin_time c <=? t)%Z))
    (checkins db).

(** [ORDER BY late_checkins DESC], rows with equal counts in the order
    of the workers. *)
Fixpoint insert_by_late (r : theft_row) (l : list theft_row) : list theft_row :=
  match l with
  | [] => [r]
  | q :: l' =>
      if (late_checkins q <=? late_checkins r)%Z then r :: l
      else q :: insert_by_late r l'
  end.

(** [SELECT w.id, COUNT( * ), COUNT(CASE WHEN c.is_late THEN 1 END), ...
     FROM workers w JOIN checkins c ON w.id = c.worker_id WHERE ...
     GROUP BY w.id, ... ORDER BY late_checkins DESC]: [workers.id] being
    a primary key, each worker with a shift the [WHERE] keeps is one
    group. *)
Definition theft_rows (db : database) (req : theft_request) : list theft_row :=
  fold_right insert_by_late []
    (flat_map
       (fun w =>
          match theft_shifts db req w with
          | [] => []
          | shifts =>
              [{| tt_worker_id := worker_id w;
                  total_checkins := Z.of_nat (List.length shifts);
                  late_checkins :=
                    Z.of_nat (List.length (filter is_late shifts)) |}]
          end)
       (workers db)).

(** The [summary] of [GET /time-theft]. *)
Record theft_summary : Type := {
  totalWorkers : nat;
  workersWithLateCheckins : nat;
  averageLateRate : float
}.

(** [w.late_checkins / w.total_checkins] *)
Definition late_rate (w : theft_row) : float :=
  (JS.of_Z (late_checkins w) / JS.of_Z (total_checkins w))%float.

Definition summarize (rows : list theft_row) : theft_summary :=
  {| totalWorkers := List.length rows;
     workersWithLateCheckins :=
       List.length (filter (fun w => (0 <? late_checkins w)%Z) rows);
     averageLateRate :=
       (fold_left (fun sum w => sum + late_rate w) rows 0
        / JS.of_Z (Z.of_nat (List.length rows)))%float |}.

(** [router.get('/time-theft', ...)]: the rows and their summary. *)
Definition time_theft_handler (db : database) (req : theft_request)
  : list theft_row * theft_summary :=
  (theft_rows db req, summarize (theft_rows db req)).

(** ** Further sample data *)

Module Scenario.

Local Open Scope float_scope.
Local Open Scope string_scope.

(** Bob, on site. *)
Definition bob_on_site : checkin_request :=
  {| ci_user_id := 80;
     ci_projectId := Some 1%Z;
     ci_gpsLat := Some (JS.Number 30.2672);
     ci_gpsLng := Some (JS.Number (-97.7431));
     ci_photoUrl := None;
     ci_scheduledTime := Some (Instant (Sample.T + 9000000)) |}.

(** The shift of Alice's check-in at [Sample.T]. *)
Definition alice_shift : checkin :=
  fst (insert_checkin Sample.empty Sample.T 7 1 (Decimal 3026720000)
         (Decimal (-9774310000)) None false).

(** Alice checks out 2 h 30 min after her check-in; Bob, expected then,
    checks in 1000 s later. *)
Definition alice_out : database :=
  snd (checkout_handler (Sample.at_time (Sample.T + 9000000)) Sample.alice_in
         Sample.leaving).

Definition bob_in : database :=
  snd (checkin_handler RefMath.lib (Sample.at_time (Sample.T + 10000000))
         alice_out bob_on_site).

(** A project at the place of the first whose radius is negative, the
    database that holds it beside the two others, and Alice on that
    site. *)
Definition inverted : project :=
  {| project_id := 3;
     gps_latitude := Some 30.2672;
     gps_longitude := Some (-97.7431);
     geofence_radius_meters := Some (-5)%Z |}.

Definition inverted_site : database :=
  {| workers := workers Sample.empty;
     projects := projects Sample.empty ++ [inverted];
     checkins := [];
     checkins_id_seq := 1 |}.

Definition on_inverted_site : checkin_request :=
  {| ci_user_id := 70;
     ci_projectId := Some 3%Z;
     ci_gpsLat := Some (JS.Number 30.2672);
     ci_gpsLng := Some (JS.Number (-97.7431));
     ci_photoUrl := None;
     ci_scheduledTime := None |}.

(** Every shift. *)
Definition everything : list_request :=
  {| ls_projectId := None; ls_workerId := None;
     ls_startDate := None; ls_endDate := None |}.

(** The shifts of the project [abc]: no integer. *)
Definition of_project_abc : list_request :=
  {| ls_projectId := Some Unreadable; ls_workerId := None;
     ls_startDate := None; ls_endDate := None |}.

Definition every_shift : theft_request :=
  {| tt_projectId := None; tt_startDate := None; tt_endDate := None |}.

(** The analysis when no API key is configured. *)
Definition not_configured (imagePath photoType : string)
  : string * list string :=
  ("AI analysis not configured", []).

Definition under_root (url : string) : string := "/srv/fope" ++ url.

(** Two tasks and no photo yet. *)
Definition no_photo : archive :=
  {| ledger := Sample.empty; tasks := [11; 12]%Z; photos := [];
     photos_id_seq := 1 |}.

(** Alice uploads a photo of task 11. *)
Definition a_photo (photoType : string) : upload_request :=
  {| up_user_id := 70;
     up_file := Some {| filename := "a1.jpg"; path := "uploads/a1.jpg" |};
     up_taskId := Some 11%Z;
     up_photoType := Some photoType;
     up_notes := None;
     up_analyzeWithAI := true |}.

Definition one_photo : archive :=
  snd (upload_handler not_configured (Sample.at_time Sample.T) no_photo
         (a_photo "before")).

Definition two_photos : archive :=
  snd (upload_handler not_configured (Sample.at_time (Sample.T + 60000))
         one_photo (a_photo "after")).

End Scenario.

(** * Properties *)

(** ** Lists and queries *)

Lemma insert_desc_In (c x : checkin) (l : list checkin) :
  In x (insert_desc c l) <-> x = c \/ In x l.
Proof.
  induction l as [|d l IH]; simpl.
  - intuition.
  - destruct (checkin_time d <=? checkin_time c)%Z; simpl.
    + intuition.
    + rewrite IH. intuition.
Qed.

Lemma order_by_In (x : checkin) (l : list checkin) :
  In x (order_by_checkin_time_desc l) <-> In x l.
Proof.
  unfold order_by_checkin_time_desc.
  induction l as [|c l IH]; simpl.
  - tauto.
  - rewrite insert_desc_In, IH. intuition.
Qed.

Lemma insert_desc_length (c : checkin) (l : list checkin) :
  List.length (insert_desc c l) = S (List.length l).
Proof.
  induction l as [|d l IH]; simpl; trivial.
  destruct (checkin_time d <=? checkin_time c)%Z; simpl; congruence.
Qed.

Lemma order_by_length (l : list checkin) :
  List.length (order_by_checkin_time_desc l) = List.length l.
Proof.
  unfold order_by_checkin_time_desc.
  induction l as [|c l IH]; simpl; trivial.
  now rewrite insert_desc_length, IH.
Qed.

Lemma select_open_In (db : database) (w : Z) (c : checkin) :
  In c (select_open db w) <->
  In c (checkins db) /\ checkin_worker_id c = w /\ checkout_time c = None.
Proof.
  unfold select_open. rewrite filter_In, andb_true_iff, Z.eqb_eq.
  unfold is_open. destruct (checkout_time c); intuition congruence.
Qed.

Lemma select_open_latest_nil (db : database) (w : Z) :
  select_open_latest db w = [] <-> select_open db w = [].
Proof.
  unfold select_open_latest.
  pose proof (order_by_length (select_open db w)) as L.
  destruct (select_open db w) as [|c l] eqn:E.
  - simpl. tauto.
  - destruct (order_by_checkin_time_desc (c :: l)) as [|d l'] eqn:E';
      simpl in *; split; intro H; discriminate.
Qed.

Lemma select_open_latest_In (db : database) (w : Z) (c : checkin)
    (rest : list checkin) :
  select_open_latest db w = c :: rest -> In c (select_open db w).
Proof.
  unfold select_open_latest. intro H.
  apply order_by_In.
  destruct (order_by_checkin_time_desc (select_open db w)) as [|d l];
    simpl in H; inversion H; subst. now left.
Qed.

(** With a single open shift, the two ways of looking it up agree. *)
Lemma select_open_latest_single (db : database) (w : Z) (c : checkin) :
  select_open db w = [c] -> select_open_latest db w = [c].
Proof.
  unfold select_open_latest. now intros ->.
Qed.

(** [GET /] writes nothing. *)
Lemma list_keeps (db : database) (req : list_request) :
  snd (list_handler db req) = db.
Proof. unfold list_handler. now destruct (well_read req). Qed.

(** ** Required fields *)

Lemma missing_of_zero (v : number_field) : reports_zero v -> missing v = true.
Proof.
  intros (x & -> & Hx). unfold missing, JS.truthy, JS.number_truthy.
  now rewrite Hx.
Qed.

(** C10, as amended.  A check-in or check-out request whose latitude or
    longitude is the Number zero is answered with the missing-fields
    error, whatever the database, the Math library and the rest of the
    request are, and the database is left as it was: the check comes
    before every query and before the geofence.  The check is [!v]: of
    the texts it refuses the empty one only. *)
Theorem zero_coordinate_is_rejected :
  (forall M env db req,
      reports_zero (ci_gpsLat req) \/ reports_zero (ci_gpsLng req) ->
      checkin_handler M env db req =
      (BadRequest "Project ID, GPS latitude, and GPS longitude are required",
       db)) /\
  (forall env db req,
      reports_zero (co_gpsLat req) \/ reports_zero (co_gpsLng req) ->
      checkout_handler env db req =
      (BadRequest "GPS latitude and longitude are required", db)) /\
  (forall s, missing (Some (JS.Text s)) = true <-> s = EmptyString).
Proof.
  split; [|split].
  3:{ intro s. unfold missing, JS.truthy. rewrite negb_involutive.
      apply String.eqb_eq. }
  - intros M env db req H. unfold checkin_handler.
    assert (Hm : missing (ci_gpsLat req) || missing (ci_gpsLng req) = true).
    { destruct H as [H|H]; apply missing_of_zero in H; rewrite H;
        auto using orb_true_r. }
    destruct (ci_projectId req), (ci_gpsLat req), (ci_gpsLng req); trivial.
    rewrite <- orb_assoc, Hm, orb_true_r. reflexivity.
  - intros env db req H. unfold checkout_handler.
    destruct H as [H|H]; apply missing_of_zero in H; rewrite H;
      now rewrite ?orb_true_r.
Qed.

Lemma zero_coordinate_is_rejected_witness :
  checkin_handler RefMath.lib (Sample.at_time Sample.T) Sample.empty
    Sample.on_equator =
  (BadRequest "Project ID, GPS latitude, and GPS longitude are required",
   Sample.empty) /\
  checkout_handler (Sample.at_time Sample.T) Sample.alice_in
    Sample.leaving_from_meridian =
  (BadRequest "GPS latitude and longitude are required", Sample.alice_in).
Proof.
  split.
  - apply (proj1 zero_coordinate_is_rejected). left.
    exists 0%float. split; reflexivity.
  - apply (proj1 (proj2 zero_coordinate_is_rejected)). right.
    exists 0%float. split; reflexivity.
Defined.

(** C10, as stated, fails: a latitude or longitude of zero sent as the
    text [0] is not missing.  A check-in that reports the latitude ["0"]
    at the first project goes through the geofence, which finds it more
    than three thousand kilometres from the site; a check-out that
    reports the longitude ["0"] reaches the ledger and closes the open
    shift. *)
Lemma zero_sent_as_text_is_not_rejected :
  JS.parseFloat (JS.Text "0") = 0%float /\
  (exists distance,
      checkin_handler RefMath.lib (Sample.at_time Sample.T) Sample.empty
        Sample.on_site_latitude_text_zero
      = (Forbidden distance 100, Sample.empty) /\
      (3000000 <? distance)%float = true) /\
  (exists row,
      fst (checkout_handler (Sample.at_time (Sample.T + 9000000))
             Sample.alice_in Sample.leaving_longitude_text_zero)
      = CheckedOut (Some row) (JS.Fixed2 false 250) /\
      checkout_time row = Some (Sample.T + 9000000)%Z /\
      checkout_gps_lng row = Some (Decimal 0)).
Proof.
  split; [reflexivity|]. split.
  - eexists. split; vm_compute; reflexivity.
  - eexists. split; [vm_compute; reflexivity|]. split; reflexivity.
Qed.

(** ** Sites without a registered location *)

Lemma hd_error_cons {A : Type} (l : list A) (a : A) :
  hd_error l = Some a -> exists l', l = a :: l'.
Proof.
  destruct l as [|b l]; simpl; intro H; inversion H; subst. now exists l.
Qed.

(** C7, as amended.  At a site without a registered coordinate the
    geofence block lets every reported coordinate through, and a
    check-in naming that site is never answered with a geofence
    violation.  It is admitted, whatever coordinate it reports, when it
    passes the required-fields check, its user has a worker profile, the
    worker has no open shift and the coordinate columns take the
    coordinate: the answer is 201 with the new shift, open, of that
    worker at that site, with the coordinate as the columns read it,
    and the ledger holds it after the shifts it held. *)
Theorem unregistered_site_skips_geofence (M : MathLib) (p : project) :
  registered p = false ->
  (forall gpsLat gpsLng, geofence_violation M p gpsLat gpsLng = None) /\
  (forall env db req distance maxDistance,
      site_of db req = Some p ->
      fst (checkin_handler M env db req) <> Forbidden distance maxDistance) /\
  (forall env db req gpsLat gpsLng w lat lng,
      missing_id (ci_projectId req) = false ->
      ci_gpsLat req = Some gpsLat -> JS.truthy gpsLat = true ->
      ci_gpsLng req = Some gpsLng -> JS.truthy gpsLng = true ->
      site_of db req = Some p ->
      worker_of db (ci_user_id req) = Some w ->
      select_open db w = [] ->
      decimal_column env 10 gpsLat = Some lat ->
      decimal_column env 11 gpsLng = Some lng ->
      exists row db',
        checkin_handler M env db req = (Created row, db') /\
        checkins db' = checkins db ++ [row] /\
        checkin_worker_id row = w /\
        ci_projectId req = Some (checkin_project_id row) /\
        checkout_time row = None /\
        checkin_gps_lat row = lat /\ checkin_gps_lng row = lng /\
        select_open db' w = [row]).
Proof.
  intro Hp.
  assert (G : forall gpsLat gpsLng, geofence_violation M p gpsLat gpsLng = None).
  { intros gpsLat gpsLng. unfold geofence_violation.
    unfold registered in Hp.
    destruct (gps_latitude p), (gps_longitude p); trivial; discriminate. }
  split; [exact G|]. split.
  - intros env db req distance maxDistance Hsite.
    unfold checkin_handler. unfold site_of in Hsite.
    destruct (ci_projectId req) as [pid|]; [|discriminate].
    apply hd_error_cons in Hsite as [l Hl].
    destruct (ci_gpsLat req) as [gpsLat|]; [|discriminate].
    destruct (ci_gpsLng req) as [gpsLng|]; [|discriminate].
    destruct (_ || _ || _); [discriminate|].
    destruct (select_worker_ids db (ci_user_id req)) as [|w ws]; [discriminate|].
    rewrite Hl, G.
    destruct (select_open db w); [|discriminate].
    destruct (decimal_column env 10 gpsLat), (decimal_column env 11 gpsLng);
      discriminate.
  - intros env db req gpsLat gpsLng w lat lng
      Hid Hlat Tlat Hlng Tlng Hsite Hw Hopen Dlat Dlng.
    unfold checkin_handler. unfold site_of in Hsite. unfold worker_of in Hw.
    destruct (ci_projectId req) as [pid|]; [|discriminate].
    apply hd_error_cons in Hsite as [l Hl].
    apply hd_error_cons in Hw as [ws Hws].
    rewrite Hlat, Hlng. unfold missing. rewrite Hid, Tlat, Tlng. simpl.
    rewrite Hws, Hl, G, Hopen, Dlat, Dlng. simpl.
    eexists. eexists. split; [reflexivity|]. simpl.
    repeat (split; [reflexivity|]).
    unfold select_open in *. simpl. rewrite filter_app, Hopen. simpl.
    now rewrite Z.eqb_refl.
Qed.

Lemma unregistered_site_skips_geofence_witness :
  (forall gpsLat gpsLng,
      geofence_violation RefMath.lib Sample.unlocated gpsLat gpsLng = None) /\
  (forall env db req distance maxDistance,
      site_of db req = Some Sample.unlocated ->
      fst (checkin_handler RefMath.lib env db req) <>
      Forbidden distance maxDistance) /\
  exists row db',
    checkin_handler RefMath.lib (Sample.at_time Sample.T) Sample.empty
      (Sample.expected_at (Sample.T + 3600000)) = (Created row, db') /\
    checkins db' = [row] /\ checkout_time row = None /\
    checkin_gps_lat row = Decimal 3026720000.
Proof.
  destruct (unregistered_site_skips_geofence RefMath.lib Sample.unlocated
              eq_refl) as (G & Never & Takes).
  split; [exact G|]. split; [exact Never|].
  destruct (Takes (Sample.at_time Sample.T) Sample.empty
              (Sample.expected_at (Sample.T + 3600000))
              (JS.Number 30.2672) (JS.Number (-97.7431)) 7%Z
              (Decimal 3026720000) (Decimal (-9774310000))
              eq_refl eq_refl eq_refl eq_refl eq_refl eq_refl eq_refl eq_refl
              eq_refl eq_refl)
    as (row & db' & H & Rows & _ & _ & Open & Lat & _).
  exists row, db'. auto.
Defined.

(** C7, as stated, fails: a point of the equator is a coordinate in
    range, and a check-in that reports it at the project without a
    registered location, by a worker without an open shift, is not
    admitted: it is answered with the missing-fields error and no shift
    is created. *)
Lemma coordinate_on_the_equator_is_refused :
  registered Sample.unlocated = false /\
  site_of Sample.empty Sample.on_equator = Some Sample.unlocated /\
  valid_coordinate 0 32.5 = true /\
  worker_of Sample.empty 70 = Some 7%Z /\
  select_open Sample.empty 7 = [] /\
  checkin_handler RefMath.lib (Sample.at_time Sample.T) Sample.empty
    Sample.on_equator =
  (BadRequest "Project ID, GPS latitude, and GPS longitude are required",
   Sample.empty) /\
  forall row,
    fst (checkin_handler RefMath.lib (Sample.at_time Sample.T) Sample.empty
           Sample.on_equator) <> Created row.
Proof.
  repeat split; try reflexivity. discriminate.
Qed.

(** ** Check-out without an open shift *)

(** C8, as amended.  For a worker without an open shift, no check-out
    changes the database, and a check-out that passes the required-fields
    check is answered with "No active check-in found". *)
Theorem checkout_without_open_shift env db req w :
  worker_of db (co_user_id req) = Some w ->
  select_open db w = [] ->
  snd (checkout_handler env db req) = db /\
  (missing (co_gpsLat req) = false -> missing (co_gpsLng req) = false ->
   checkout_handler env db req = (NotFound "No active check-in found", db)).
Proof.
  intros Hw Hopen. unfold worker_of in Hw.
  apply hd_error_cons in Hw as [l Hl].
  apply select_open_latest_nil in Hopen.
  unfold checkout_handler. rewrite Hl, Hopen.
  split.
  - now destruct (_ || _).
  - now intros -> ->.
Qed.

Lemma checkout_without_open_shift_witness :
  snd (checkout_handler (Sample.at_time Sample.T) Sample.empty Sample.leaving)
  = Sample.empty /\
  checkout_handler (Sample.at_time Sample.T) Sample.empty Sample.leaving =
  (NotFound "No active check-in found", Sample.empty).
Proof.
  destruct (checkout_without_open_shift (Sample.at_time Sample.T)
              Sample.empty Sample.leaving 7%Z) as [H1 H2];
    [reflexivity | reflexivity |].
  split; [exact H1 | apply H2; reflexivity].
Defined.

(** C8, as stated, fails: a worker without an open shift whose request
    lacks the latitude, or reports a longitude of zero, is answered with
    the missing-fields error. *)
Lemma checkout_without_latitude_is_bad_request :
  worker_of Sample.empty 70 = Some 7%Z /\
  select_open Sample.empty 7 = [] /\
  fst (checkout_handler (Sample.at_time Sample.T) Sample.empty
         Sample.leaving_without_latitude) =
  BadRequest "GPS latitude and longitude are required" /\
  fst (checkout_handler (Sample.at_time Sample.T) Sample.empty
         Sample.leaving_from_meridian) =
  BadRequest "GPS latitude and longitude are required" /\
  fst (checkout_handler (Sample.at_time Sample.T) Sample.empty
         Sample.leaving_without_latitude) <>
  NotFound "No active check-in found".
Proof.
  repeat split; try reflexivity. discriminate.
Qed.

(** ** Check-in with an open shift *)

(** C3, as amended.  For a worker with an open shift, no check-in changes
    the database, and a check-in that gets as far as the ledger is
    answered with "Already checked in" and the identifier of an open
    shift of that worker, the first the query returns, which is the only
    one when the ledger has at most one open shift per worker. *)
Theorem checkin_with_open_shift M env db req w c rest :
  worker_of db (ci_user_id req) = Some w ->
  select_open db w = c :: rest ->
  snd (checkin_handler M env db req) = db /\
  (reaches_ledger M db req ->
   checkin_handler M env db req = (Conflict (id c), db) /\
   In c (checkins db) /\ checkin_worker_id c = w /\ checkout_time c = None) /\
  (one_open_shift_per_worker db -> rest = []).
Proof.
  intros Hw Hopen. unfold worker_of in Hw.
  apply hd_error_cons in Hw as [l Hl].
  split; [|split].
  3:{ intro Inv. specialize (Inv w). unfold open_shifts in Inv.
      rewrite Hopen in Inv. destruct rest; [reflexivity|simpl in Inv; lia]. }
  - unfold checkin_handler.
    destruct (ci_projectId req) as [pid|]; trivial.
    destruct (ci_gpsLat req) as [gpsLat|]; trivial.
    destruct (ci_gpsLng req) as [gpsLng|]; trivial.
    destruct (_ || _ || _); trivial.
    rewrite Hl.
    destruct (select_project db pid) as [|p ps]; trivial.
    destruct (geofence_violation M p gpsLat gpsLng) as [[d r]|]; trivial.
    now rewrite Hopen.
  - intros (gpsLat & gpsLng & p & Hid & Hlat & Tlat & Hlng & Tlng & Hsite & Hgeo).
    split.
    + unfold checkin_handler. unfold site_of in Hsite.
      destruct (ci_projectId req) as [pid|]; [|discriminate].
      apply hd_error_cons in Hsite as [ps Hps].
      rewrite Hlat, Hlng. unfold missing. rewrite Hid, Tlat, Tlng. simpl.
      now rewrite Hl, Hps, Hgeo, Hopen.
    + apply select_open_In. rewrite Hopen. now left.
Qed.

Lemma checkin_with_open_shift_witness :
  snd (checkin_handler RefMath.lib (Sample.at_time (Sample.T + 60000))
         Sample.alice_in Sample.on_site) = Sample.alice_in /\
  fst (checkin_handler RefMath.lib (Sample.at_time (Sample.T + 60000))
         Sample.alice_in Sample.on_site) = Conflict 1.
Proof.
  destruct (checkin_with_open_shift RefMath.lib
              (Sample.at_time (Sample.T + 60000)) Sample.alice_in
              Sample.on_site 7%Z
              (fst (insert_checkin Sample.empty Sample.T 7 1
                      (Decimal 3026720000) (Decimal (-9774310000)) None
                      false)) [])
    as (H1 & H2 & _); [reflexivity | reflexivity |].
  split; [exact H1|].
  destruct H2 as [H2 _].
  - exists (JS.Number 30.2672), (JS.Number (-97.7431)), Sample.riverside.
    repeat split; vm_compute; reflexivity.
  - now rewrite H2.
Defined.

(** C3, as stated, fails: a worker with an open shift who checks in from
    outside the geofence, or at a project that does not exist, is
    answered with that failure and not with "Already checked in". *)
Lemma second_checkin_off_site_is_forbidden :
  worker_of Sample.alice_in 70 = Some 7%Z /\
  List.length (select_open Sample.alice_in 7) = 1%nat /\
  fst (checkin_handler RefMath.lib (Sample.at_time (Sample.T + 60000))
         Sample.alice_in Sample.off_site) = Forbidden 500 100 /\
  fst (checkin_handler RefMath.lib (Sample.at_time (Sample.T + 60000))
         Sample.alice_in Sample.unknown_site) = NotFound "Project not found".
Proof.
  repeat split; vm_compute; reflexivity.
Qed.

(** ** What the two writing handlers do to the database *)

(** A check-in either leaves the database as it was, or appends one open
    shift for the worker of the request, who had none, with the
    coordinates as the columns read them. *)
Lemma checkin_effect M env db req :
  (snd (checkin_handler M env db req) = db /\
   forall row, fst (checkin_handler M env db req) <> Created row) \/
  exists w pid lat lng,
    worker_of db (ci_user_id req) = Some w /\
    ci_projectId req = Some pid /\
    column env 10 (ci_gpsLat req) = Some lat /\
    column env 11 (ci_gpsLng req) = Some lng /\
    select_open db w = [] /\
    checkin_handler M env db req =
    (Created (fst (insert_checkin db (db_now env) w pid lat lng
                     (or_null (ci_photoUrl req))
                     (compute_isLate (ci_scheduledTime req) (js_now env)))),
     snd (insert_checkin db (db_now env) w pid lat lng
            (or_null (ci_photoUrl req))
            (compute_isLate (ci_scheduledTime req) (js_now env)))).
Proof.
  unfold checkin_handler, worker_of, column.
  destruct (ci_projectId req) as [pid|]; [|left; easy].
  destruct (ci_gpsLat req) as [gpsLat|]; [|left; easy].
  destruct (ci_gpsLng req) as [gpsLng|]; [|left; easy].
  destruct (_ || _ || _); [left; easy|].
  destruct (select_worker_ids db (ci_user_id req)) as [|w ws]; [left; easy|].
  destruct (select_project db pid) as [|p ps]; [left; easy|].
  destruct (geofence_violation M p gpsLat gpsLng) as [[d r]|]; [left; easy|].
  destruct (select_open db w) as [|c cs] eqn:Hopen; [|left; easy].
  destruct (decimal_column env 10 gpsLat) as [lat|]; [|left; easy].
  destruct (decimal_column env 11 gpsLng) as [lng|]; [|left; easy].
  right. exists w, pid, lat, lng. simpl. auto 10.
Qed.

(** A check-out either leaves the database as it was, or runs the update
    on the identifier of an open shift of the worker of the request,
    with the hours computed from the check-in time as the driver hands
    it over and the coordinates as the columns read them. *)
Lemma checkout_effect env db req :
  (snd (checkout_handler env db req) = db /\
   forall row shown, fst (checkout_handler env db req) <> CheckedOut row shown)
  \/
  exists w c rest hours,
    worker_of db (co_user_id req) = Some w /\
    select_open_latest db w = c :: rest /\
    decimal_5_2
      (JS.toFixed2 (hours_between (as_date env (checkin_time c)) (js_now env)))
    = Some hours /\
    checkout_handler env db req =
    (CheckedOut
       (hd_error (fst (update_checkout db (db_now env)
                         (column env 10 (co_gpsLat req))
                         (column env 11 (co_gpsLng req))
                         (or_null (co_photoUrl req)) hours
                         (or_null (co_notes req)) (id c))))
       (JS.toFixed2 (hours_between (as_date env (checkin_time c)) (js_now env))),
     snd (update_checkout db (db_now env) (column env 10 (co_gpsLat req))
            (column env 11 (co_gpsLng req))
            (or_null (co_photoUrl req)) hours (or_null (co_notes req))
            (id c))).
Proof.
  unfold checkout_handler, worker_of, hours_between.
  destruct (_ || _); [left; easy|].
  destruct (select_worker_ids db (co_user_id req)) as [|w ws]; [left; easy|].
  destruct (select_open_latest db w) as [|c cs] eqn:Hc; [left; easy|].
  destruct (decimal_5_2 _) as [hours|] eqn:Hh; [|left; easy].
  destruct (column env 10 (co_gpsLat req)) as [lat|]; [|left; easy].
  destruct (column env 11 (co_gpsLng req)) as [lng|];
    [|left; split; [reflexivity|discriminate]].
  right. exists w, c, cs, hours. simpl. auto.
Qed.

(** The coordinate columns have taken the coordinates of a check-out
    that answers 200. *)
Lemma checkout_columns env db req row shown db' :
  checkout_handler env db req = (CheckedOut row shown, db') ->
  column env 10 (co_gpsLat req) <> None /\
  column env 11 (co_gpsLng req) <> None.
Proof.
  unfold checkout_handler.
  destruct (_ || _); [discriminate|].
  destruct (select_worker_ids db (co_user_id req)) as [|w ws]; [discriminate|].
  destruct (select_open_latest db w) as [|c cs]; [discriminate|].
  destruct (decimal_5_2 _); [|discriminate].
  destruct (column env 10 (co_gpsLat req)); [|discriminate].
  destruct (column env 11 (co_gpsLng req)); [|discriminate].
  intros _. split; discriminate.
Qed.

(** ** C1: one open shift per worker *)

Lemma filter_map_shrinks {A : Type} (p : A -> bool) (f : A -> A)
    (l : list A) :
  (forall x, f x = x \/ p (f x) = false) ->
  (List.length (filter p (map f l)) <= List.length (filter p l))%nat.
Proof.
  intro Hf. induction l as [|a l IH]; simpl; [lia|].
  destruct (Hf a) as [E|E]; rewrite E.
  - destruct (p a); simpl; lia.
  - destruct (p a); simpl; lia.
Qed.

Lemma checkin_preserves_invariant M env db req :
  one_open_shift_per_worker db ->
  one_open_shift_per_worker (snd (checkin_handler M env db req)).
Proof.
  intros Inv.
  destruct (checkin_effect M env db req)
    as [[-> _]|(w & pid & lat & lng & _ & _ & _ & _ & Hopen & ->)]; trivial.
  intro w'. specialize (Inv w'). unfold open_shifts, select_open in *.
  simpl. rewrite filter_app, length_app. simpl.
  destruct (Z.eqb_spec w w') as [->|_]; simpl.
  - unfold select_open in Hopen. rewrite Hopen. simpl. lia.
  - lia.
Qed.

Lemma checkout_preserves_invariant env db req :
  one_open_shift_per_worker db ->
  one_open_shift_per_worker (snd (checkout_handler env db req)).
Proof.
  intros Inv.
  destruct (checkout_effect env db req)
    as [[-> _]|(w & c & rest & hours & _ & _ & _ & ->)]; trivial.
  intro w'. specialize (Inv w'). unfold open_shifts, select_open in *.
  simpl. etransitivity; [|exact Inv].
  apply filter_map_shrinks. intro x.
  destruct (id x =? id c)%Z; [right|now left].
  simpl. apply andb_false_r.
Qed.

Lemma step_preserves_invariant M db db' :
  one_open_shift_per_worker db -> step M db db' ->
  one_open_shift_per_worker db'.
Proof.
  intros Inv Hstep. destruct Hstep as [env db req|env db req|db req|db uid].
  - now apply checkin_preserves_invariant.
  - now apply checkout_preserves_invariant.
  - now rewrite list_keeps.
  - unfold active_handler.
    destruct (select_worker_ids db uid) as [|w ws]; trivial.
    now destruct (firstn 1 _).
Qed.

(** C1.  In every state the operations reach from a ledger without
    shifts, each worker has at most one open shift, and each of the four
    operations, run from a state with that property, ends in a state with
    it. *)
Theorem one_open_shift_invariant (M : MathLib) :
  (forall db, reachable M db -> one_open_shift_per_worker db) /\
  (forall db db',
      one_open_shift_per_worker db -> step M db db' ->
      one_open_shift_per_worker db').
Proof.
  split.
  - intros db (db0 & Hempty & Hsteps).
    induction Hsteps as [|db1 db2 _ IH Hstep].
    + intro w. unfold open_shifts, select_open. rewrite Hempty. simpl. lia.
    + eapply step_preserves_invariant; eauto.
  - intros db db'. apply step_preserves_invariant.
Qed.

Lemma one_open_shift_invariant_witness :
  one_open_shift_per_worker Sample.alice_in /\
  one_open_shift_per_worker
    (snd (checkin_handler RefMath.lib (Sample.at_time (Sample.T + 60000))
            Sample.alice_in Sample.on_site)).
Proof.
  assert (H : one_open_shift_per_worker Sample.alice_in).
  { apply (proj1 (one_open_shift_invariant RefMath.lib)).
    exists Sample.empty. split; [reflexivity|].
    eapply steps_more; [apply steps_refl|].
    apply (step_checkin RefMath.lib (Sample.at_time Sample.T) Sample.empty
             Sample.on_site). }
  split; [exact H|].
  apply (proj2 (one_open_shift_invariant RefMath.lib) Sample.alice_in);
    [exact H|apply step_checkin].
Defined.

(** ** The check-in columns are never rewritten *)



Lemma set_checkout_keeps now lat lng photo hours note (c : checkin) :
  same_checkin_columns c (set_checkout now lat lng photo hours note c).
Proof. unfold same_checkin_columns. simpl. tauto. Qed.



(** ** C6: lateness *)



(** ** C9: what a check-out writes *)

Lemma NoDup_map_eq {A B : Type} (f : A -> B) (l : list A) (x y : A) :
  NoDup (map f l) -> In x l -> In y l -> f x = f y -> x = y.
Proof.
  induction l as [|a l IH]; simpl; [tauto|].
  intros ND Hx Hy E. inversion ND as [|? ? Hnot ND']; subst.
  destruct Hx as [->|Hx], Hy as [->|Hy]; trivial.
  - elim Hnot. rewrite E. now apply in_map.
  - elim Hnot. rewrite <- E. now apply in_map.
  - now apply IH.
Qed.

Lemma Forall2_map_along {A : Type} (R : A -> A -> Prop) (f : A -> A)
    (l : list A) :
  (forall x, In x l -> R x (f x)) -> Forall2 R l (map f l).
Proof.
  induction l as [|a l IH]; simpl; intro H; constructor; auto.
Qed.

Lemma filter_absent (f : checkin -> checkin) (t : Z) (l : list checkin) :
  (forall x, id (f x) = id x) -> ~ In t (map id l) ->
  filter (fun x => (id x =? t)%Z) (map f l) = [].
Proof.
  intros Hf. induction l as [|a l IH]; simpl; trivial. intro Hnot.
  rewrite Hf. destruct (Z.eqb_spec (id a) t) as [E|_]; [tauto|].
  apply IH. tauto.
Qed.

Lemma filter_updated (f : checkin -> checkin) (c : checkin)
    (l : list checkin) :
  (forall x, id (f x) = id x) -> NoDup (map id l) -> In c l ->
  filter (fun x => (id x =? id c)%Z) (map f l) = [f c].
Proof.
  intros Hf. induction l as [|a l IH]; simpl; [tauto|].
  intros ND Hc. inversion ND as [|? ? Hnot ND']; subst. rewrite Hf.
  destruct (Z.eqb_spec (id a) (id c)) as [E|NE].
  - assert (a = c) as ->.
    { destruct Hc as [|Hc]; trivial.
      elim Hnot. rewrite E. now apply in_map. }
    f_equal. now apply filter_absent.
  - destruct Hc as [->|Hc]; [tauto|]. now apply IH.
Qed.

(** C9, as amended.  A successful check-out closes one shift, which was
    open: the row it returns keeps the check-in columns of that shift
    (time, coordinate, lateness, and the others, [created_at] among
    them); its check-out columns carry the time of the statement, the
    coordinates of the request as their columns read them, the photo,
    the notes and the hours; and its [updated_at] is the time of the
    statement, which the trigger of the schema writes.  Every other
    shift, and the two other tables, are as before. *)
Theorem checkout_frame env db req row shown db' :
  primary_key db ->
  checkout_handler env db req = (CheckedOut row shown, db') ->
  exists c c' hours,
    In c (checkins db) /\ checkout_time c = None /\
    row = Some c' /\ closes env req hours c c' /\
    workers db' = workers db /\ projects db' = projects db /\
    Forall2 (fun x x' => (x = c -> x' = c') /\ (x <> c -> x' = x))
      (checkins db) (checkins db').
Proof.
  intros PK H.
  destruct (checkout_columns env db req row shown db' H) as [Clat Clng].
  destruct (checkout_effect env db req)
    as [[_ No]|(w & c & rest & hours & _ & Hc & _ & E)].
  { rewrite H in No. now elim (No row shown). }
  rewrite H in E. unfold update_checkout in E. cbn [fst snd] in E.
  injection E as Hrow _ Hdb.
  apply select_open_latest_In, select_open_In in Hc.
  destruct Hc as (Hin & _ & Hopen).
  set (upd := fun x : checkin =>
                if (id x =? id c)%Z
                then set_checkout (db_now env) (column env 10 (co_gpsLat req))
                       (column env 11 (co_gpsLng req))
                       (or_null (co_photoUrl req)) hours
                       (or_null (co_notes req)) x
                else x) in *.
  assert (Hid : forall x, id (upd x) = id x).
  { intro x. unfold upd. now destruct (id x =? id c)%Z. }
  exists c, (upd c), hours.
  assert (Hc' : upd c =
                set_checkout (db_now env) (column env 10 (co_gpsLat req))
                  (column env 11 (co_gpsLng req))
                  (or_null (co_photoUrl req)) hours (or_null (co_notes req)) c).
  { unfold upd. now rewrite Z.eqb_refl. }
  split; [exact Hin|]. split; [exact Hopen|]. split.
  { rewrite Hrow, (filter_updated upd c _ Hid PK Hin). reflexivity. }
  split.
  { rewrite Hc'. unfold closes. split; [apply set_checkout_keeps|].
    simpl. tauto. }
  rewrite Hdb. cbn [workers projects checkins].
  split; [reflexivity|]. split; [reflexivity|].
  apply Forall2_map_along. intros x Hx. split.
  - now intros ->.
  - intro Hne. unfold upd.
    destruct (Z.eqb_spec (id x) (id c)) as [E|_]; trivial.
    elim Hne. exact (NoDup_map_eq id _ x c PK Hx Hin E).
Qed.

Lemma checkout_frame_witness :
  exists c c' hours,
    In c (checkins Sample.alice_in) /\ checkout_time c = None /\
    closes (Sample.at_time (Sample.T + 9000000)) Sample.leaving hours c c' /\
    Forall2 (fun x x' => (x = c -> x' = c') /\ (x <> c -> x' = x))
      (checkins Sample.alice_in)
      (checkins (snd (checkout_handler (Sample.at_time (Sample.T + 9000000))
                        Sample.alice_in Sample.leaving))).
Proof.
  destruct (checkout_frame (Sample.at_time (Sample.T + 9000000))
              Sample.alice_in Sample.leaving
              (fst (fst (checkout_handler_parts
                           (Sample.at_time (Sample.T + 9000000))
                           Sample.alice_in Sample.leaving)))
              (snd (fst (checkout_handler_parts
                           (Sample.at_time (Sample.T + 9000000))
                           Sample.alice_in Sample.leaving)))
              (snd (checkout_handler (Sample.at_time (Sample.T + 9000000))
                      Sample.alice_in Sample.leaving)))
    as (c & c' & hours & H1 & H2 & _ & H4 & _ & _ & H7).
  - repeat constructor. simpl. tauto.
  - vm_compute. reflexivity.
  - exists c, c', hours. auto.
Defined.

(** C9, as stated, fails: the check-out also writes [updated_at], which
    is none of the check-out fields.  The shift of Alice, inserted at
    [T] with [updated_at] at [T], comes back from her check-out 2 h 30
    min later with [updated_at] at that time. *)
Lemma checkout_rewrites_updated_at :
  exists c c',
    checkins Sample.alice_in = [c] /\
    fst (checkout_handler (Sample.at_time (Sample.T + 9000000))
           Sample.alice_in Sample.leaving)
    = CheckedOut (Some c') (JS.Fixed2 false 250) /\
    id c' = id c /\
    created_at c' = created_at c /\
    updated_at c = Sample.T /\
    updated_at c' = (Sample.T + 9000000)%Z /\
    updated_at c' <> updated_at c.
Proof.
  eexists. eexists. split; [vm_compute; reflexivity|].
  split; [vm_compute; reflexivity|].
  repeat split. vm_compute. discriminate.
Qed.

Lemma NoDup_snoc {A : Type} (l : list A) (x : A) :
  NoDup l -> ~ In x l -> NoDup (l ++ [x]).
Proof.
  induction l as [|a l IH]; simpl; intros ND Hx.
  - repeat constructor. tauto.
  - inversion ND as [|? ? Ha ND']; subst. constructor.
    + rewrite in_app_iff. simpl. intuition.
    + apply IH; tauto.
Qed.


(** ** IEEE 754 facts

    Consequences of the specification of the binary64 operations
    ([FloatAxioms]) used below: comparisons, signs, and the absence of
    overflow for small operands. *)

Section IEEE.

Local Open Scope float_scope.

Lemma SFcompare_antisym (x y : spec_float) :
  SFcompare y x = option_map CompOpp (SFcompare x y).
Proof.
  destruct x as [sx|sx| |sx mx ex], y as [sy|sy| |sy my ey]; simpl; trivial;
    try (destruct sx; trivial; fail); try (destruct sy; trivial; fail);
    try (destruct sx, sy; trivial; fail).
  destruct sx, sy; simpl; trivial;
    rewrite (Z.compare_antisym ex ey); destruct (ex ?= ey)%Z; simpl; trivial;
    rewrite !Pos.compare_cont_spec; simpl;
    rewrite (Pos.compare_antisym mx my); destruct (mx ?= my)%positive; trivial.
Qed.

Lemma leb_not_gt (x y : float) : (x <=? y) = true -> (y <? x) = false.
Proof.
  rewrite leb_spec, ltb_spec. unfold SFleb, SFltb.
  rewrite (SFcompare_antisym (Prim2SF x) (Prim2SF y)).
  destruct (SFcompare (Prim2SF x) (Prim2SF y)) as [[| |]|]; simpl; congruence.
Qed.

Lemma not_gt_leb (x y : float) :
  is_nan x = false -> is_nan y = false -> (y <? x) = false -> (x <=? y) = true.
Proof.
  unfold is_nan. rewrite !eqb_spec, leb_spec, ltb_spec. unfold SFleb, SFltb, SFeqb.
  rewrite (SFcompare_antisym (Prim2SF x) (Prim2SF y)).
  destruct (Prim2SF x), (Prim2SF y); simpl; try discriminate; trivial.
  all: try (destruct s; simpl; congruence).
  all: try (destruct s, s0; simpl; congruence).
  intros _ _. destruct s, s0; simpl; trivial;
  destruct (e ?= e0)%Z; simpl; trivial; destruct (Pos.compare_cont Eq m m0); simpl; congruence.
Qed.

Lemma Prim2SF_zero : Prim2SF 0 = S754_zero false.
Proof. reflexivity. Qed.

Lemma ltb_zero_notneg (x : float) :
  (x <? 0) = false <-> SFnotneg (Prim2SF x).
Proof.
  rewrite ltb_spec, Prim2SF_zero. unfold SFltb.
  destruct (Prim2SF x) as [s|s| |s m e]; simpl; try tauto;
    destruct s; simpl; intuition congruence.
Qed.

Lemma round_aux_sign (s : bool) (m e : Z) (l : location) :
  match binary_round_aux prec emax s m e l with
  | S754_zero s' | S754_infinity s' | S754_finite s' _ _ => s' = s
  | S754_nan => True
  end.
Proof.
  unfold binary_round_aux.
  destruct (shr_fexp prec emax m e l) as [mrs' e'].
  destruct (shr_fexp prec emax _ e' loc_Exact) as [mrs'' e''].
  destruct (shr_m mrs''); trivial. now destruct (e'' <=? emax - prec)%Z.
Qed.

Lemma SFmul_notneg (m : positive) (e : Z) (Y : spec_float) :
  SFnotneg Y -> SFnotneg (SFmul prec emax (S754_finite false m e) Y).
Proof.
  destruct Y as [s|s| |s my ey]; simpl; trivial.
  intro H. pose proof (round_aux_sign (xorb false s) (Zpos (m * my)) (e + ey) loc_Exact) as S.
  destruct (binary_round_aux _ _ _ _ _ _); simpl; trivial;
    destruct s; simpl in *; subst; tauto.
Qed.

Lemma mul_notneg (c x : float) (m : positive) (e : Z) :
  Prim2SF c = S754_finite false m e ->
  (x <? 0) = false -> (c * x <? 0) = false.
Proof.
  intros Hc. rewrite !ltb_zero_notneg, mul_spec, Hc. apply SFmul_notneg.
Qed.

Lemma SFsqrt_notneg (X : spec_float) : SFnotneg (SFsqrt prec emax X).
Proof.
  destruct X as [s|s| |s m e]; simpl; trivial.
  - now destruct s.
  - destruct s; simpl; trivial.
    destruct (SFsqrt_core_binary prec emax (Z.pos m) e) as [[mz ez] lz].
    pose proof (round_aux_sign false mz ez lz) as S.
    destruct (binary_round_aux _ _ _ _ _ _); simpl; trivial; now subst.
Qed.

Lemma SFsqrt_neg_zero (X : spec_float) :
  SFsqrt prec emax X = S754_zero true -> X = S754_zero true.
Proof.
  destruct X as [s|s| |s m e]; simpl; trivial.
  - now destruct s.
  - destruct s; [discriminate|].
    destruct (SFsqrt_core_binary prec emax (Z.pos m) e) as [[mz ez] lz].
    pose proof (round_aux_sign false mz ez lz) as S. intro E.
    rewrite E in S. discriminate.
Qed.

Lemma sqrt_notneg (x : float) : (sqrt x <? 0) = false.
Proof. rewrite ltb_zero_notneg, sqrt_spec. apply SFsqrt_notneg. Qed.

Lemma is_neg_zero_spec (x : float) :
  JS.is_neg_zero x = true -> x = neg_zero.
Proof.
  unfold JS.is_neg_zero, get_sign, is_zero. intro H.
  apply andb_true_iff in H as [Hz Hs]. rewrite Hz in Hs.
  rewrite eqb_spec in Hz. rewrite ltb_spec, div_spec in Hs.
  apply Prim2SF_inj.
  change (Prim2SF zero) with (S754_zero false) in *.
  change (Prim2SF neg_zero) with (S754_zero true).
  change (Prim2SF one) with (S754_finite false 4503599627370496 (-52)) in Hs.
  destruct (Prim2SF x) as [s|s| |s m e]; simpl in *; try discriminate;
    destruct s; trivial; discriminate.
Qed.

Lemma sqrt_neg_zero (a : float) : sqrt a = neg_zero -> a = neg_zero.
Proof.
  intro H. apply Prim2SF_inj.
  apply (f_equal Prim2SF) in H. rewrite sqrt_spec in H.
  now apply SFsqrt_neg_zero in H.
Qed.

Lemma sqrt_pair_not_both_neg_zero (a : float) :
  JS.is_neg_zero (sqrt a) && JS.is_neg_zero (sqrt (1 - a)) = false.
Proof.
  destruct (JS.is_neg_zero (sqrt a)) eqn:E; trivial.
  apply is_neg_zero_spec, sqrt_neg_zero in E. subst a. reflexivity.
Qed.


Lemma digits2_pos_bounds (p : positive) :
  (2 ^ (Zpos (digits2_pos p) - 1) <= Zpos p < 2 ^ Zpos (digits2_pos p))%Z.
Proof.
  induction p as [p IH|p IH|]; cbn [digits2_pos].
  - rewrite Pos2Z.inj_succ, (Pos2Z.inj_xI p).
    replace (Z.succ (Zpos (digits2_pos p)) - 1)%Z
      with (Z.succ (Zpos (digits2_pos p) - 1)) by lia.
    rewrite !Z.pow_succ_r by lia.
    revert IH. generalize (2 ^ (Zpos (digits2_pos p) - 1))%Z.
    generalize (2 ^ Zpos (digits2_pos p))%Z. intros; lia.
  - rewrite Pos2Z.inj_succ, (Pos2Z.inj_xO p).
    replace (Z.succ (Zpos (digits2_pos p)) - 1)%Z
      with (Z.succ (Zpos (digits2_pos p) - 1)) by lia.
    rewrite !Z.pow_succ_r by lia.
    revert IH. generalize (2 ^ (Zpos (digits2_pos p) - 1))%Z.
    generalize (2 ^ Zpos (digits2_pos p))%Z. intros; lia.
  - simpl. lia.
Qed.

Lemma Zdigits2_lt_pow (m : Z) : (0 <= m -> m < 2 ^ Zdigits2 m)%Z.
Proof.
  destruct m as [|p|p]; simpl; try lia.
  intros _. apply digits2_pos_bounds.
Qed.

Lemma Zdigits2_le (m k : Z) :
  (0 <= m -> 0 <= k -> m < 2 ^ k -> Zdigits2 m <= k)%Z.
Proof.
  destruct m as [|p|p]; simpl; try lia.
  intros _ Hk Hlt.
  destruct (digits2_pos_bounds p) as [Hlow _].
  destruct (Z_le_gt_dec (Zpos (digits2_pos p)) k) as [|Hgt]; trivial.
  assert (2 ^ k <= 2 ^ (Zpos (digits2_pos p) - 1))%Z
    by (apply Z.pow_le_mono_r; lia).
  lia.
Qed.

Lemma shr_1_bounds (mrs : shr_record) :
  (0 <= shr_m mrs -> 0 <= shr_m (shr_1 mrs) <= shr_m mrs)%Z.
Proof.
  destruct mrs as [m r s]. simpl.
  destruct m as [|[p|p|]|p]; simpl; lia.
Qed.

Lemma iter_shr_1_bounds (p : positive) (mrs : shr_record) :
  (0 <= shr_m mrs -> 0 <= shr_m (iter_pos shr_1 p mrs) <= shr_m mrs)%Z.
Proof.
  revert mrs. induction p as [p IH|p IH|]; intros mrs H; cbn [iter_pos].
  - pose proof (shr_1_bounds mrs H).
    pose proof (IH (shr_1 mrs)). pose proof (IH (iter_pos shr_1 p (shr_1 mrs))). lia.
  - pose proof (IH mrs). pose proof (IH (iter_pos shr_1 p mrs)). lia.
  - now apply shr_1_bounds.
Qed.

Lemma shr_record_of_loc_m (m : Z) (l : location) :
  shr_m (shr_record_of_loc m l) = m.
Proof. destruct l as [|[| |]]; reflexivity. Qed.

(** What [shr_fexp] returns: a mantissa no larger, an exponent bounded by
    the larger of the input exponent and [fexp]. *)
Lemma shr_fexp_bounds (m e : Z) (l : location) :
  (0 <= m)%Z ->
  let '(mrs, e') := shr_fexp prec emax m e l in
  (0 <= shr_m mrs <= m /\
   e' = Z.max e (fexp prec emax (Zdigits2 m + e)))%Z.
Proof.
  intro Hm. unfold shr_fexp, shr.
  destruct (fexp prec emax (Zdigits2 m + e) - e)%Z as [|n|n] eqn:En.
  - rewrite shr_record_of_loc_m. lia.
  - pose proof (iter_shr_1_bounds n (shr_record_of_loc m l)) as B.
    rewrite shr_record_of_loc_m in B. lia.
  - rewrite shr_record_of_loc_m. lia.
Qed.

Lemma round_nearest_even_bounds (m : Z) (l : location) :
  (m <= round_nearest_even m l <= m + 1)%Z.
Proof.
  destruct l as [|[| |]]; simpl; try lia. destruct (Z.even m); lia.
Qed.

(** Rounding a mantissa of at most [D] bits at an exponent of at most
    [E] neither overflows nor fails, when [D] and [E] are small. *)
Lemma round_aux_number (s : bool) (m e : Z) (l : location) (D E : Z) :
  (0 <= m -> Zdigits2 m <= D -> e <= E ->
   0 <= D <= 200 -> -1074 <= E <= 400 ->
   match binary_round_aux prec emax s m e l with
   | S754_zero _ => True
   | S754_finite _ _ e' => (e' <= Z.max E (D + E - 53) + D)%Z
   | _ => False
   end)%Z.
Proof.
  intros Hm Hd He HD HE. unfold binary_round_aux.
  pose proof (shr_fexp_bounds m e l Hm) as B1.
  destruct (shr_fexp prec emax m e l) as [mrs' e'].
  destruct B1 as [Bm' Be'].
  set (m1 := round_nearest_even (shr_m mrs') (loc_of_shr_record mrs')).
  pose proof (round_nearest_even_bounds (shr_m mrs') (loc_of_shr_record mrs')) as Bm1.
  fold m1 in Bm1.
  assert (Hm1 : (0 <= m1)%Z) by lia.
  pose proof (shr_fexp_bounds m1 e' loc_Exact Hm1) as B2.
  destruct (shr_fexp prec emax m1 e' loc_Exact) as [mrs'' e''].
  destruct B2 as [Bm'' Be''].
  assert (Hpow : (m < 2 ^ D)%Z).
  { pose proof (Zdigits2_lt_pow m Hm).
    assert (2 ^ Zdigits2 m <= 2 ^ D)%Z by (apply Z.pow_le_mono_r; lia). lia. }
  assert (Hd1 : (Zdigits2 m1 <= D + 1)%Z).
  { apply Zdigits2_le; try lia. rewrite Z.pow_add_r by lia. simpl (2 ^ 1)%Z. lia. }
  assert (Hd0 : (0 <= Zdigits2 m)%Z) by (destruct m; simpl; lia).
  assert (Hd10 : (0 <= Zdigits2 m1)%Z) by (destruct m1; simpl; lia).
  unfold fexp, SpecFloat.emin, emax, prec in *.
  destruct (shr_m mrs'') as [|q|q]; trivial; [|lia].
  destruct (Z.leb_spec e'' (1024 - 53)) as [_|Hover]; lia.
Qed.


Lemma valid_finite (x : float) (s : bool) (m : positive) (e : Z) :
  Prim2SF x = S754_finite s m e ->
  (Zpos (digits2_pos m) <= 53 /\ -1074 <= e <= 971)%Z.
Proof.
  intro E. pose proof (Prim2SF_valid x) as V. rewrite E in V.
  unfold SpecFloat.valid_binary, bounded, canonical_mantissa, fexp,
    SpecFloat.emin, emax, prec in V.
  apply andb_true_iff in V as [V1 V2].
  apply Z.eqb_eq in V1. apply Z.leb_le in V2. lia.
Qed.

Lemma pos_lt_pow53 (m : positive) :
  (Zpos (digits2_pos m) <= 53 -> Zpos m < 2 ^ 53)%Z.
Proof.
  intro H. destruct (digits2_pos_bounds m) as [_ Hlt].
  assert (2 ^ Zpos (digits2_pos m) <= 2 ^ 53)%Z
    by (apply Z.pow_le_mono_r; lia).
  lia.
Qed.

(** The product of two numbers whose exponents add up to little is a
    number. *)
Lemma mul_number (x y : float) (sx sy : bool) (mx my : positive)
    (ex ey E : Z) :
  Prim2SF x = S754_finite sx mx ex ->
  Prim2SF y = S754_finite sy my ey ->
  (ex + ey <= E -> -1074 <= E <= 400 ->
   match Prim2SF (x * y) with
   | S754_zero _ => True
   | S754_finite _ _ e => e <= E + 159
   | _ => False
   end)%Z.
Proof.
  intros Hx Hy He HE. rewrite mul_spec, Hx, Hy. simpl.
  destruct (valid_finite x sx mx ex Hx) as [Dx _].
  destruct (valid_finite y sy my ey Hy) as [Dy _].
  apply pos_lt_pow53 in Dx, Dy.
  pose proof (round_aux_number (xorb sx sy) (Zpos (mx * my)) (ex + ey)
                loc_Exact 106 E) as R.
  assert (Zdigits2 (Zpos (mx * my)) <= 106)%Z.
  { apply Zdigits2_le; try lia.
    rewrite Pos2Z.inj_mul.
    change (2 ^ 106)%Z with (2 ^ 53 * 2 ^ 53)%Z.
    apply Z.mul_lt_mono_nonneg; lia. }
  specialize (R ltac:(lia) ltac:(lia) ltac:(lia) ltac:(lia) ltac:(lia)).
  destruct (binary_round_aux _ _ _ _ _ _); trivial. lia.
Qed.

(** The quotient of a number by a number of full mantissa, when the
    difference of the exponents is small, is a number. *)
Lemma div_number (x y : float) (sx sy : bool) (mx my : positive)
    (ex ey E : Z) :
  Prim2SF x = S754_finite sx mx ex ->
  Prim2SF y = S754_finite sy my ey ->
  (ex - ey <= E -> -1074 <= E <= 400 ->
   match Prim2SF (x / y) with
   | S754_zero _ | S754_finite _ _ _ => True
   | _ => False
   end)%Z.
Proof.
  intros Hx Hy He HE. rewrite div_spec, Hx, Hy. simpl.
  destruct (valid_finite x sx mx ex Hx) as [Dx _].
  destruct (valid_finite y sy my ey Hy) as [Dy _].
  unfold SFdiv_core_binary.
  set (e' := Z.min (fexp prec emax (Zdigits2 (Zpos mx) + ex - (Zdigits2 (Zpos my) + ey))) (ex - ey)).
  set (m' := match (ex - ey - e')%Z with
             | Zpos _ => Z.shiftl (Zpos mx) (ex - ey - e')
             | Z0 => Zpos mx
             | Zneg _ => 0%Z
             end).
  assert (Hs : (0 <= ex - ey - e' <= 53 - Zpos (digits2_pos mx) + Zpos (digits2_pos my))%Z).
  { subst e'. unfold fexp, SpecFloat.emin, emax, prec. simpl Zdigits2. lia. }
  assert (Hm' : (0 <= m' < 2 ^ 106)%Z).
  { subst m'. pose proof (pos_lt_pow53 mx Dx) as Px.
    destruct (ex - ey - e')%Z as [|s|s] eqn:Es; try lia.
    rewrite Z.shiftl_mul_pow2 by lia.
    destruct (digits2_pos_bounds mx) as [_ Hlt].
    assert (2 ^ Zpos s <= 2 ^ (106 - Zpos (digits2_pos mx)))%Z
      by (apply Z.pow_le_mono_r; lia).
    assert (0 < 2 ^ Zpos s)%Z by (apply Z.pow_pos_nonneg; lia).
    assert (2 ^ Zpos (digits2_pos mx) * 2 ^ (106 - Zpos (digits2_pos mx)) = 2 ^ 106)%Z
      by (rewrite <- Z.pow_add_r by lia; f_equal; lia).
    split; [nia|].
    apply Z.lt_le_trans with (2 ^ Zpos (digits2_pos mx) * 2 ^ Zpos s)%Z.
    - apply Z.mul_lt_mono_pos_r; lia.
    - rewrite <- H1. apply Z.mul_le_mono_nonneg_l; lia. }
  pose proof (Z_div_mod m' (Zpos my) eq_refl) as Hdiv.
  destruct (Z.div_eucl m' (Zpos my)) as [q r].
  assert (Hq : (0 <= q <= m')%Z) by nia.
  pose proof (round_aux_number (xorb sx sy) q e' (new_location (Zpos my) r)
                106 E) as R.
  assert (Zdigits2 q <= 106)%Z by (apply Zdigits2_le; lia).
  assert (e' <= E)%Z by (subst e'; lia).
  specialize (R ltac:(lia) ltac:(lia) ltac:(lia) ltac:(lia) ltac:(lia)).
  destruct (binary_round_aux _ _ _ _ _ _); trivial.
Qed.

(** A float between a negative and a positive number is a number, and
    its exponent is at most the larger of theirs. *)
Lemma between_number (lo hi x : float) (ml mh : positive) (el eh : Z) :
  Prim2SF lo = S754_finite true ml el ->
  Prim2SF hi = S754_finite false mh eh ->
  (lo <=? x) = true -> (x <=? hi) = true ->
  match Prim2SF x with
  | S754_zero _ => True
  | S754_finite _ _ e => (e <= Z.max el eh)%Z
  | _ => False
  end.
Proof.
  intros Hlo Hhi. rewrite !leb_spec, Hlo, Hhi. unfold SFleb.
  destruct (Prim2SF x) as [s|s| |s m e]; simpl; trivial.
  - destruct s; simpl; congruence.
  - congruence.
  - destruct s; simpl.
    + destruct (Z.compare_spec el e); try discriminate; lia.
    + intros _. destruct (Z.compare_spec e eh); try discriminate; lia.
Qed.

Lemma number_is_finite (x : float) :
  SFnumber (Prim2SF x) -> is_finite x = true.
Proof.
  unfold is_finite, is_nan, is_infinity.
  rewrite !eqb_spec, abs_spec. change (Prim2SF infinity) with (S754_infinity false).
  unfold SFeqb.
  destruct (Prim2SF x) as [s|s| |s m e]; simpl; try tauto; intros _.
  destruct s; rewrite Z.compare_refl, Pos.compare_cont_refl; reflexivity.
Qed.

Lemma sub_self (x : float) : SFnumber (Prim2SF x) -> x - x = 0.
Proof.
  intro H. apply Prim2SF_inj. rewrite sub_spec.
  change (Prim2SF 0) with (S754_zero false).
  destruct (Prim2SF x) as [s|s| |s m e]; simpl in *; try tauto.
  - now destruct s.
  - now rewrite Z.sub_diag.
Qed.

Lemma zero_cases (x : float) (s : bool) :
  Prim2SF x = S754_zero s -> is_a_zero x.
Proof.
  intro H. rewrite <- (SF2Prim_Prim2SF x), H. destruct s; [right|left]; reflexivity.
Qed.

Lemma number_times_zeros (x z : float) :
  SFnumber (Prim2SF x) -> is_a_zero z -> 0 + x * z * z = 0.
Proof.
  intros H Hz. apply Prim2SF_inj. rewrite add_spec, !mul_spec.
  change (Prim2SF 0) with (S754_zero false).
  destruct Hz as [-> | ->];
    [change (Prim2SF 0) with (S754_zero false)
    |change (Prim2SF (-0)) with (S754_zero true)];
    destruct (Prim2SF x) as [s|s| |s m e]; simpl in *; try tauto;
    now destruct s.
Qed.

(** The difference of two equal numbers is a zero. *)
Lemma sub_equal (x y : float) :
  SFnumber (Prim2SF x) -> (x =? y) = true -> is_a_zero (y - x).
Proof.
  intros Hx. rewrite eqb_spec. unfold SFeqb. intro E.
  assert (Z : exists s, Prim2SF (y - x) = S754_zero s).
  { rewrite sub_spec.
    destruct (Prim2SF x) as [sx|sx| |sx mx ex], (Prim2SF y) as [sy|sy| |sy my ey];
      simpl in *; try tauto; try discriminate;
      try (destruct sx; discriminate); try (destruct sy; discriminate).
    - destruct sx, sy; eauto.
    - assert (sx = sy /\ ex = ey /\ mx = my) as (-> & -> & ->).
      { destruct sx, sy; try discriminate;
          destruct (Z.compare_spec ex ey); try discriminate;
          rewrite Pos.compare_cont_spec in E; simpl in E;
          destruct (Pos.compare_spec mx my); try discriminate; auto. }
      rewrite Z.sub_diag. simpl. eauto. }
  destruct Z as [s Hs]. exact (zero_cases _ s Hs).
Qed.

End IEEE.

(** ** Integers in binary64

    An integer below [2^53] is a double, and the difference of two of
    them is computed without rounding. *)

Section Exact.

Local Open Scope Z_scope.

Lemma iter_xO_value (m k : positive) :
  Zpos (Pos.iter xO m k) = Zpos m * 2 ^ Zpos k.
Proof.
  induction k as [|k IH] using Pos.peano_ind.
  - simpl. lia.
  - rewrite Pos.iter_succ, Pos2Z.inj_xO, IH, Pos2Z.inj_succ, Z.pow_succ_r by lia.
    lia.
Qed.

Lemma iter_xO_digits (m k : positive) :
  Zpos (digits2_pos (Pos.iter xO m k)) = Zpos (digits2_pos m) + Zpos k.
Proof.
  induction k as [|k IH] using Pos.peano_ind.
  - simpl. lia.
  - rewrite Pos.iter_succ. cbn [digits2_pos]. lia.
Qed.

Lemma iter_pos_iter {A : Type} (f : A -> A) (p : positive) (x : A) :
  iter_pos f p x = Pos.iter f x p.
Proof.
  revert x. induction p as [p IH|p IH|]; intro x; simpl.
  - rewrite !IH. now rewrite <- !Pos.iter_swap.
  - now rewrite !IH.
  - reflexivity.
Qed.

Lemma shr_exact (M n : positive) :
  iter_pos shr_1 n
    {| shr_m := Zpos (Pos.iter xO M n); shr_r := false; shr_s := false |} =
  {| shr_m := Zpos M; shr_r := false; shr_s := false |}.
Proof.
  rewrite iter_pos_iter. revert M.
  induction n as [|n IH] using Pos.peano_ind; intro M.
  - reflexivity.
  - rewrite Pos.iter_succ, <- Pos.iter_swap.
    rewrite (Pos.iter_succ n positive xO). simpl shr_1. apply IH.
Qed.

(** A canonical mantissa at its exponent is left as it is. *)
Lemma round_aux_canonical (s : bool) (m : positive) (f : Z) :
  fexp prec emax (Zpos (digits2_pos m) + f) = f -> f <= 971 ->
  binary_round_aux prec emax s (Zpos m) f loc_Exact = S754_finite s m f.
Proof.
  intros C B. unfold binary_round_aux, shr_fexp. simpl Zdigits2.
  rewrite C, Z.sub_diag.
  cbn [shr shr_record_of_loc shr_m loc_of_shr_record round_nearest_even Zdigits2].
  rewrite C, Z.sub_diag.
  cbn [shr shr_record_of_loc shr_m].
  destruct (Z.leb_spec f (emax - prec)); trivial. unfold emax, prec in *. lia.
Qed.

(** Trailing zero bits beyond the canonical exponent are shifted out. *)
Lemma round_aux_shift (s : bool) (M n : positive) (e : Z) :
  fexp prec emax (Zpos (digits2_pos M) + (e + Zpos n)) = e + Zpos n ->
  e + Zpos n <= 971 ->
  binary_round_aux prec emax s (Zpos (Pos.iter xO M n)) e loc_Exact =
  S754_finite s M (e + Zpos n).
Proof.
  intros C B. unfold binary_round_aux, shr_fexp. simpl Zdigits2.
  rewrite iter_xO_digits.
  replace (Zpos (digits2_pos M) + Zpos n + e) with
    (Zpos (digits2_pos M) + (e + Zpos n)) by lia.
  rewrite C. replace (e + Zpos n - e) with (Zpos n) by lia.
  cbn [shr shr_record_of_loc]. rewrite shr_exact.
  cbn [shr_m loc_of_shr_record round_nearest_even Zdigits2].
  rewrite C, Z.sub_diag.
  cbn [shr shr_record_of_loc shr_m].
  destruct (Z.leb_spec (e + Zpos n) (emax - prec)); trivial.
  unfold emax, prec in *. lia.
Qed.

(** Rounding a value that the format represents returns its canonical
    representation. *)
Lemma binary_round_exact (s : bool) (m M : positive) (e f : Z) :
  f = fexp prec emax (Zpos (digits2_pos m) + e) -> f <= 971 ->
  -1074 <= e ->
  Zpos m * 2 ^ (e + 1074) = Zpos M * 2 ^ (f + 1074) ->
  binary_round prec emax s m e = S754_finite s M f.
Proof.
  intros Hf B He V.
  assert (Hfmin : -1074 <= f).
  { subst f. unfold fexp, SpecFloat.emin, emax, prec. lia. }
  unfold binary_round, shl_align. rewrite <- Hf.
  destruct (f - e) as [|n|n] eqn:En.
  - assert (f = e) by lia. subst e.
    assert (M = m).
    { apply Z.mul_reg_r in V; [congruence|].
      apply Z.pow_nonzero; lia. }
    subst M. apply round_aux_canonical; [|lia]. now symmetry.
  - assert (E : f = e + Zpos n) by lia.
    assert (m = Pos.iter xO M n).
    { apply Pos2Z.inj. rewrite iter_xO_value.
      rewrite E in V.
      replace (e + Zpos n + 1074) with ((e + 1074) + Zpos n) in V by lia.
      rewrite (Z.pow_add_r 2 (e + 1074) (Zpos n)) in V by lia.
      apply Z.mul_reg_r with (2 ^ (e + 1074)); [apply Z.pow_nonzero; lia|].
      lia. }
    subst m. rewrite E. apply round_aux_shift; [|lia].
    rewrite iter_xO_digits in Hf.
    replace (Zpos (digits2_pos M) + (e + Zpos n))
      with (Zpos (digits2_pos M) + Zpos n + e) by lia.
    now rewrite <- Hf.
  - assert (E : e = f + Zpos n) by lia.
    assert (M = Pos.iter xO m n).
    { apply Pos2Z.inj. rewrite iter_xO_value.
      rewrite E in V.
      replace (f + Zpos n + 1074) with ((f + 1074) + Zpos n) in V by lia.
      rewrite (Z.pow_add_r 2 (f + 1074) (Zpos n)) in V by lia.
      apply Z.mul_reg_r with (2 ^ (f + 1074)); [apply Z.pow_nonzero; lia|].
      lia. }
    subst M. apply round_aux_canonical; [|lia].
    rewrite iter_xO_digits.
    replace (Zpos (digits2_pos m) + Zpos n + f)
      with (Zpos (digits2_pos m) + e) by lia.
    now symmetry.
Qed.

(** The number of bits of a positive integer is the [d] with
    [2^(d-1) <= z < 2^d]. *)
Lemma digits_unique (p : positive) (d : Z) :
  2 ^ (d - 1) <= Zpos p < 2 ^ d -> Zpos (digits2_pos p) = d.
Proof.
  intros [L U]. destruct (digits2_pos_bounds p) as [L0 U0].
  assert (0 < d).
  { destruct (Z_lt_le_dec 0 d); trivial.
    assert (2 ^ d <= 2 ^ 0) by (apply Z.pow_le_mono_r; lia).
    simpl in *. lia. }
  destruct (Z_lt_le_dec (Zpos (digits2_pos p)) d) as [Hlt|Hge].
  - assert (2 ^ Zpos (digits2_pos p) <= 2 ^ (d - 1))
      by (apply Z.pow_le_mono_r; lia). lia.
  - destruct (Z_lt_le_dec d (Zpos (digits2_pos p))) as [Hgt|]; [|lia].
    assert (2 ^ d <= 2 ^ (Zpos (digits2_pos p) - 1))
      by (apply Z.pow_le_mono_r; lia). lia.
Qed.

Lemma digits_shift (p q : positive) (k : Z) :
  0 <= k -> Zpos q = Zpos p * 2 ^ k ->
  Zpos (digits2_pos q) = Zpos (digits2_pos p) + k.
Proof.
  intros Hk E. apply digits_unique. rewrite E.
  destruct (digits2_pos_bounds p) as [L U].
  replace (Zpos (digits2_pos p) + k - 1) with ((Zpos (digits2_pos p) - 1) + k)
    by lia.
  rewrite !Z.pow_add_r by lia.
  assert (0 < 2 ^ k) by (apply Z.pow_pos_nonneg; lia).
  split.
  - apply Z.mul_le_mono_nonneg_r; lia.
  - apply Z.mul_lt_mono_pos_r; lia.
Qed.

(** The double of a positive integer below [2^53]: the integer itself,
    with a mantissa of 53 bits. *)
Lemma of_Z_positive (p : positive) :
  Zpos p < 2 ^ 53 ->
  exists M,
    Prim2SF (JS.of_Z (Zpos p)) =
    S754_finite false M (Zpos (digits2_pos p) - 53) /\
    Zpos M = Zpos p * 2 ^ (53 - Zpos (digits2_pos p)).
Proof.
  intro B.
  assert (D : Zpos (digits2_pos p) <= 53).
  { destruct (digits2_pos_bounds p) as [L _].
    destruct (Z_le_gt_dec (Zpos (digits2_pos p)) 53); trivial.
    assert (2 ^ 53 <= 2 ^ (Zpos (digits2_pos p) - 1))
      by (apply Z.pow_le_mono_r; lia). lia. }
  assert (P : 0 < Zpos p * 2 ^ (53 - Zpos (digits2_pos p))).
  { apply Z.mul_pos_pos; [lia|]. apply Z.pow_pos_nonneg; lia. }
  destruct (Zpos p * 2 ^ (53 - Zpos (digits2_pos p))) as [|M|M] eqn:EM;
    try lia.
  exists M. split; [|reflexivity].
  unfold JS.of_Z. cbn [binary_normalize].
  assert (R : binary_round prec emax false p 0 =
              S754_finite false M (Zpos (digits2_pos p) - 53)).
  { apply binary_round_exact.
    - unfold fexp, SpecFloat.emin, emax, prec. lia.
    - lia.
    - lia.
    - rewrite <- EM. rewrite <- Z.mul_assoc, <- Z.pow_add_r by lia.
      do 2 f_equal. lia. }
  rewrite R. apply Prim2SF_SF2Prim.
  unfold valid_binary, bounded, canonical_mantissa.
  rewrite (digits_shift p M (53 - Zpos (digits2_pos p))) by (auto; lia).
  apply andb_true_iff. split.
  - apply Z.eqb_eq. unfold fexp, SpecFloat.emin, emax, prec. lia.
  - apply Z.leb_le. unfold emax, prec. lia.
Qed.

Lemma shl_align_value (m : positive) (e e' : Z) :
  e' <= e -> Zpos (fst (shl_align m e e')) = Zpos m * 2 ^ (e - e').
Proof.
  intro H. unfold shl_align.
  destruct (e' - e) as [|d|d] eqn:E; try lia.
  - replace (e - e') with 0 by lia. cbn [fst]. change (2 ^ 0) with 1. lia.
  - cbn [fst]. rewrite iter_xO_value. f_equal. f_equal. lia.
Qed.

(** Subtraction of integers below [2^53] is exact. *)
Lemma sub_exact_positive (a b : positive) :
  Zpos b < Zpos a < 2 ^ 53 ->
  (JS.of_Z (Zpos a) - JS.of_Z (Zpos b))%float = JS.of_Z (Zpos a - Zpos b).
Proof.
  intros [Hba Ha].
  assert (Hb : Zpos b < 2 ^ 53) by lia.
  destruct (Zpos a - Zpos b) as [|c|c] eqn:Ec; try lia.
  assert (Hc : Zpos c < 2 ^ 53) by lia.
  destruct (of_Z_positive a Ha) as (Ma & Pa & Va).
  destruct (of_Z_positive b Hb) as (Mb & Pb & Vb).
  destruct (of_Z_positive c Hc) as (Mc & Pc & Vc).
  apply Prim2SF_inj. rewrite sub_spec, Pa, Pb, Pc.
  set (da := Zpos (digits2_pos a)) in *.
  set (db := Zpos (digits2_pos b)) in *.
  set (dc := Zpos (digits2_pos c)) in *.
  assert (Da : 1 <= da <= 53).
  { subst da. destruct (digits2_pos_bounds a) as [L _].
    split; [lia|].
    destruct (Z_le_gt_dec (Zpos (digits2_pos a)) 53); trivial.
    assert (2 ^ 53 <= 2 ^ (Zpos (digits2_pos a) - 1))
      by (apply Z.pow_le_mono_r; lia). lia. }
  assert (Db : 1 <= db <= 53).
  { subst db. destruct (digits2_pos_bounds b) as [L _].
    split; [lia|].
    destruct (Z_le_gt_dec (Zpos (digits2_pos b)) 53); trivial.
    assert (2 ^ 53 <= 2 ^ (Zpos (digits2_pos b) - 1))
      by (apply Z.pow_le_mono_r; lia). lia. }
  assert (Dc : 1 <= dc <= 53).
  { subst dc. destruct (digits2_pos_bounds c) as [L _].
    split; [lia|].
    destruct (Z_le_gt_dec (Zpos (digits2_pos c)) 53); trivial.
    assert (2 ^ 53 <= 2 ^ (Zpos (digits2_pos c) - 1))
      by (apply Z.pow_le_mono_r; lia). lia. }
  unfold SF64sub, SFsub. cbv zeta. cbn [cond_Zopp].
  set (ez := Z.min (da - 53) (db - 53)).
  rewrite (shl_align_value Ma (da - 53) ez) by (subst ez; lia).
  rewrite (shl_align_value Mb (db - 53) ez) by (subst ez; lia).
  rewrite Va, Vb.
  assert (Ez : ez <= 0) by (subst ez; lia).
  assert (V : Zpos a * 2 ^ (53 - da) * 2 ^ (da - 53 - ez)
              - Zpos b * 2 ^ (53 - db) * 2 ^ (db - 53 - ez)
              = Zpos c * 2 ^ (- ez)).
  { rewrite <- !Z.mul_assoc, <- !Z.pow_add_r by (subst ez; lia).
    replace (53 - da + (da - 53 - ez)) with (- ez) by lia.
    replace (53 - db + (db - 53 - ez)) with (- ez) by lia.
    rewrite <- Z.mul_sub_distr_r. now rewrite Ec. }
  rewrite V.
  assert (P : 0 < Zpos c * 2 ^ (- ez)).
  { apply Z.mul_pos_pos; [lia|]. apply Z.pow_pos_nonneg; lia. }
  destruct (Zpos c * 2 ^ (- ez)) as [|q|q] eqn:Eq; try lia.
  cbn [binary_normalize].
  assert (Dq : Zpos (digits2_pos q) = dc - ez).
  { rewrite (digits_shift c q (- ez)) by (auto; lia). subst dc. lia. }
  apply binary_round_exact.
  - rewrite Dq. unfold fexp, SpecFloat.emin, emax, prec. lia.
  - lia.
  - subst ez. lia.
  - rewrite <- Eq, Vc.
    rewrite <- !Z.mul_assoc, <- !Z.pow_add_r by (subst ez; lia).
    do 2 f_equal. lia.
Qed.

(** The elapsed time between two instants from 1970 on is exact. *)
Lemma elapsed_exact (t0 now : Z) :
  0 <= t0 <= now -> now < 2 ^ 53 ->
  (JS.of_Z now - JS.of_Z t0)%float = JS.of_Z (now - t0).
Proof.
  intros [H0 H1] H2.
  destruct t0 as [|b|b]; try lia.
  - rewrite Z.sub_0_r. change (JS.of_Z 0) with 0%float.
    destruct now as [|a|a]; try lia; [reflexivity|].
    destruct (of_Z_positive a H2) as (M & P & _).
    apply Prim2SF_inj. rewrite sub_spec, P. reflexivity.
  - destruct now as [|a|a]; try lia.
    destruct (Z.eq_dec (Zpos a) (Zpos b)) as [E|NE].
    + rewrite E, Z.sub_diag. change (JS.of_Z 0) with 0%float.
      destruct (of_Z_positive b ltac:(lia)) as (M & P & _).
      apply sub_self. now rewrite P.
    + apply sub_exact_positive. lia.
Qed.

End Exact.

(** ** The reference library satisfies the assumptions *)

Lemma RefMath_ecma : EcmaMath RefMath.lib.
Proof.
  split; simpl.
  - reflexivity.
  - reflexivity.
  - intros x Hx. unfold RefMath.cos.
    unfold is_finite in Hx. apply negb_true_iff in Hx. rewrite Hx.
    match goal with
    | |- context [ if ?b then _ else _ ] => destruct b eqn:E
    end.
    + now apply andb_true_iff in E.
    + destruct (_ <? 0)%float; split; reflexivity.
  - reflexivity.
  - intros y x Hy Hx Hz. unfold RefMath.atan2.
    destruct (is_nan y || is_nan x); [reflexivity|].
    unfold JS.is_neg_zero in Hz.
    destruct (is_zero y) eqn:Zy.
    + destruct (get_sign x) eqn:Sx; [|exact Hy].
      destruct (get_sign y) eqn:Sy; [|reflexivity].
      simpl in Hz. unfold get_sign in Sx.
      destruct (is_zero x); [discriminate|].
      change ((x <? 0)%float = true) in Sx. congruence.
    + destruct (is_zero x); [rewrite Hy; reflexivity|].
      rewrite Hx, Hy. unfold RefMath.atan_pos.
      match goal with
      | |- context [ if (?r <? 0)%float then _ else _ ] =>
          destruct (r <? 0)%float eqn:E; [reflexivity|exact E]
      end.
Qed.

(** ** C5: the distance *)

Section DistanceFacts.

Variable M : MathLib.
Hypothesis ecma : EcmaMath M.

Local Open Scope float_scope.

Lemma valid_coordinate_number (lat lon : float) :
  valid_coordinate lat lon = true ->
  match Prim2SF lat with
  | S754_zero _ => True
  | S754_finite _ _ e => (e <= -46)%Z
  | _ => False
  end /\
  SFnumber (Prim2SF lon).
Proof.
  unfold valid_coordinate. rewrite !andb_true_iff.
  intros (((H1 & H2) & H3) & H4). split.
  - exact (between_number (-90) 90 lat 6333186975989760 6333186975989760
             (-46) (-46) eq_refl eq_refl H1 H2).
  - pose proof (between_number (-180) 180 lon 6333186975989760
                  6333186975989760 (-45) (-45) eq_refl eq_refl H3 H4) as B.
    now destruct (Prim2SF lon).
Qed.

(** A latitude in range is a number once converted to radians. *)
Lemma radians_number (lat : float) :
  match Prim2SF lat with
  | S754_zero _ => True
  | S754_finite _ _ e => (e <= -46)%Z
  | _ => False
  end ->
  SFnumber (Prim2SF (lat * JS.PI / 180)).
Proof.
  intro H.
  assert (Hpi : Prim2SF JS.PI = S754_finite false 7074237752028440 (-51))
    by reflexivity.
  assert (H180 : Prim2SF 180 = S754_finite false 6333186975989760 (-45))
    by reflexivity.
  destruct (Prim2SF lat) as [s|s| |s m e] eqn:E; try tauto.
  - rewrite div_spec, mul_spec, E, Hpi, H180. simpl. trivial.
  - pose proof (mul_number lat JS.PI s false m 7074237752028440 e (-51) (-97)
                  E Hpi ltac:(lia) ltac:(lia)) as P.
    destruct (Prim2SF (lat * JS.PI)) as [s'|s'| |s' m' e'] eqn:E'; try tauto.
    + rewrite div_spec, E', H180. simpl. trivial.
    + pose proof (div_number (lat * JS.PI) 180 s' false m' 6333186975989760
                    e' (-45) 107 E' H180 ltac:(lia) ltac:(lia)) as Q.
      unfold SFnumber. exact Q.
Qed.

Lemma cos_product_number (x y : float) :
  SFnumber (Prim2SF x) -> SFnumber (Prim2SF y) ->
  SFnumber (Prim2SF (Math_cos M x * Math_cos M y)).
Proof.
  intros Hx Hy.
  assert (B : forall z, SFnumber (Prim2SF z) ->
              match Prim2SF (Math_cos M z) with
              | S754_zero _ => True
              | S754_finite _ _ e => (e <= -52)%Z
              | _ => False
              end).
  { intros z Hz. destruct (cos_range M ecma z (number_is_finite z Hz)) as [L U].
    exact (between_number (-1) 1 (Math_cos M z) 4503599627370496
             4503599627370496 (-52) (-52) eq_refl eq_refl L U). }
  pose proof (B x Hx) as Bx. pose proof (B y Hy) as By.
  destruct (Prim2SF (Math_cos M x)) as [sx|sx| |sx mx ex] eqn:Ex; try tauto;
    destruct (Prim2SF (Math_cos M y)) as [sy|sy| |sy my ey] eqn:Ey; try tauto;
    try (rewrite mul_spec, Ex, Ey; simpl; trivial; fail).
  pose proof (mul_number _ _ sx sy mx my ex ey (-104) Ex Ey
                ltac:(lia) ltac:(lia)) as P.
  unfold SFnumber. now destruct (Prim2SF (Math_cos M x * Math_cos M y)).
Qed.

Lemma sin_half_of_zero (z : float) :
  is_a_zero z ->
  Math_sin M (z * JS.PI / 180 / 2) * Math_sin M (z * JS.PI / 180 / 2) = 0 /\
  is_a_zero (Math_sin M (z * JS.PI / 180 / 2)).
Proof.
  intros [-> | ->].
  - change (0 * JS.PI / 180 / 2) with 0. rewrite (sin_zero M ecma).
    split; [reflexivity|now left].
  - change (-0 * JS.PI / 180 / 2) with (-0). rewrite (sin_neg_zero M ecma).
    split; [reflexivity|now right].
Qed.

(** Coordinates that are equal component by component are at distance
    zero. *)
Lemma distance_of_equal (lat1 lon1 lat2 lon2 : float) :
  valid_coordinate lat1 lon1 = true -> valid_coordinate lat2 lon2 = true ->
  (lat1 =? lat2) = true -> (lon1 =? lon2) = true ->
  calculateDistance M lat1 lon1 lat2 lon2 = 0.
Proof.
  intros V1 V2 Elat Elon.
  destruct (valid_coordinate_number lat1 lon1 V1) as [Nlat1 Nlon1].
  destruct (valid_coordinate_number lat2 lon2 V2) as [Nlat2 _].
  assert (Nl1 : SFnumber (Prim2SF lat1)) by now destruct (Prim2SF lat1).
  destruct (sin_half_of_zero _ (sub_equal lat1 lat2 Nl1 Elat)) as [S1 _].
  destruct (sin_half_of_zero _ (sub_equal lon1 lon2 Nlon1 Elon)) as [_ S2].
  pose proof (cos_product_number _ _ (radians_number lat1 Nlat1)
                (radians_number lat2 Nlat2)) as C.
  unfold calculateDistance. cbv zeta.
  rewrite S1, (number_times_zeros _ _ C S2).
  change (sqrt 0) with 0. change (sqrt (1 - 0)) with 1.
  rewrite (atan2_zero_one M ecma). reflexivity.
Qed.

(** The distance is never a negative number. *)
Lemma distance_not_negative (lat1 lon1 lat2 lon2 : float) :
  (calculateDistance M lat1 lon1 lat2 lon2 <? 0) = false.
Proof.
  unfold calculateDistance. cbv zeta.
  apply (mul_notneg 6371e3 _ 6840809160704000 (-30) eq_refl).
  apply (mul_notneg 2 _ 4503599627370496 (-51) eq_refl).
  apply (atan2_notneg M ecma).
  - apply sqrt_notneg.
  - apply sqrt_notneg.
  - apply sqrt_pair_not_both_neg_zero.
Qed.

(** Two coordinates that differ by the smallest positive longitude. *)
Lemma distance_of_next_to_null_island :
  calculateDistance M 0 0 0 0x1p-1074 = 0.
Proof.
  unfold calculateDistance. cbv zeta.
  change ((0 - 0) * JS.PI / 180 / 2) with 0.
  change ((0x1p-1074 - 0) * JS.PI / 180 / 2) with 0.
  change (0 * JS.PI / 180) with 0.
  rewrite (sin_zero M ecma).
  change (0 * 0) with 0.
  assert (N0 : SFnumber (Prim2SF 0)) by exact I.
  rewrite (number_times_zeros _ 0 (cos_product_number 0 0 N0 N0) (or_introl eq_refl)).
  change (sqrt 0) with 0. change (sqrt (1 - 0)) with 1.
  rewrite (atan2_zero_one M ecma). reflexivity.
Qed.

End DistanceFacts.

(** C5, as amended.  With a Math library as ECMAScript describes it, the
    distance between two coordinates in range that are equal component
    by component is zero, and the distance between any two coordinates
    is never a negative number: it is not below zero, and it is at least
    zero unless it is [NaN]. *)
Theorem distance_zero_when_equal_and_never_negative (M : MathLib) :
  EcmaMath M ->
  (forall lat1 lon1 lat2 lon2,
      valid_coordinate lat1 lon1 = true ->
      valid_coordinate lat2 lon2 = true ->
      (lat1 =? lat2)%float = true -> (lon1 =? lon2)%float = true ->
      calculateDistance M lat1 lon1 lat2 lon2 = 0%float) /\
  (forall lat1 lon1 lat2 lon2,
      (calculateDistance M lat1 lon1 lat2 lon2 <? 0)%float = false) /\
  (forall lat1 lon1 lat2 lon2,
      is_nan (calculateDistance M lat1 lon1 lat2 lon2) = false ->
      (0 <=? calculateDistance M lat1 lon1 lat2 lon2)%float = true).
Proof.
  intro ecma. split; [|split].
  - apply distance_of_equal, ecma.
  - apply distance_not_negative, ecma.
  - intros lat1 lon1 lat2 lon2 Hnan.
    apply not_gt_leb; trivial. apply distance_not_negative, ecma.
Qed.

Lemma distance_zero_when_equal_and_never_negative_witness :
  calculateDistance RefMath.lib 30.2672 (-97.7431) 30.2672 (-97.7431)
  = 0%float /\
  (calculateDistance RefMath.lib 30.2717 (-97.7431) 30.2672 (-97.7431) <? 0)%float
  = false.
Proof.
  destruct (distance_zero_when_equal_and_never_negative RefMath.lib
              RefMath_ecma) as (Z & N & _).
  split.
  - apply Z; reflexivity.
  - apply N.
Defined.

(** C5, as stated, fails: the origin and the point of the equator at the
    smallest positive longitude, [5e-324], are two coordinates in range
    that differ, and their distance is zero: [(5e-324 - 0) * Math.PI / 180]
    is already [0] in double precision.  This holds with the reference
    library as with any other ([distance_of_next_to_null_island]). *)
Lemma distinct_coordinates_at_distance_zero :
  valid_coordinate 0 0 = true /\
  valid_coordinate 0 0x1p-1074 = true /\
  (0 =? 0x1p-1074)%float = false /\
  calculateDistance RefMath.lib 0 0 0 0x1p-1074 = 0%float /\
  (0 <? calculateDistance RefMath.lib 0 0 0 0x1p-1074)%float = false.
Proof.
  rewrite (distance_of_next_to_null_island RefMath.lib RefMath_ecma).
  repeat split.
Qed.

(** ** C2: the geofence decision *)

Lemma parseFloat_truthy (x : float) :
  JS.truthy (JS.Number x) = true -> JS.parseFloat (JS.Number x) = x.
Proof.
  unfold JS.truthy, JS.number_truthy, JS.parseFloat, JS.parseFloat_number.
  intro H.
  apply andb_true_iff in H as [H _]. apply negb_true_iff in H. now rewrite H.
Qed.

(** C2, as amended.  For a check-in that passes the required-fields
    check, by a user with a worker profile, at a site with a registered
    coordinate: with [d] the distance computed from the reported to the
    registered coordinate and [R] the radius of the site (100 when the
    column is empty or zero), the request is refused exactly when
    [d > R], so a distance [d <= R] is admitted, the boundary included,
    and a distance that is admitted and is a number satisfies [d <= R];
    the refusal carries [Math.round(d)] and [R], and leaves the database
    as it was.  The reported coordinate is what [parseFloat] reads in
    the fields, which is the number itself for a field that is a
    Number. *)
Theorem geofence_decision M env db req gpsLat gpsLng w p plat plng :
  missing_id (ci_projectId req) = false ->
  ci_gpsLat req = Some gpsLat -> JS.truthy gpsLat = true ->
  ci_gpsLng req = Some gpsLng -> JS.truthy gpsLng = true ->
  worker_of db (ci_user_id req) = Some w ->
  site_of db req = Some p ->
  gps_latitude p = Some plat -> gps_longitude p = Some plng ->
  let d :=
    calculateDistance M (JS.parseFloat gpsLat) (JS.parseFloat gpsLng)
      plat plng in
  (forall r, geofence_radius_meters p = Some r -> r <> 0%Z ->
             maxDistance_of p = r) /\
  ((JS.of_Z (maxDistance_of p) <? d)%float = true ->
   checkin_handler M env db req =
   (Forbidden (JS.round d) (maxDistance_of p), db)) /\
  ((d <=? JS.of_Z (maxDistance_of p))%float = true ->
   geofence_violation M p gpsLat gpsLng = None /\
   forall distance maxDistance,
     fst (checkin_handler M env db req) <> Forbidden distance maxDistance) /\
  (forall distance maxDistance,
      fst (checkin_handler M env db req) = Forbidden distance maxDistance ->
      (JS.of_Z (maxDistance_of p) <? d)%float = true /\
      distance = JS.round d /\
      maxDistance = maxDistance_of p) /\
  (is_nan d = false ->
   (0 < maxDistance_of p < 2 ^ 53)%Z ->
   (forall distance maxDistance,
       fst (checkin_handler M env db req) <> Forbidden distance maxDistance) ->
   (d <=? JS.of_Z (maxDistance_of p))%float = true) /\
  (forall x, gpsLat = JS.Number x -> JS.parseFloat gpsLat = x) /\
  (forall x, gpsLng = JS.Number x -> JS.parseFloat gpsLng = x).
Proof.
  intros Hid Hlat Tlat Hlng Tlng Hw Hsite Hplat Hplng d.
  unfold worker_of in Hw. apply hd_error_cons in Hw as [ws Hws].
  unfold site_of in Hsite.
  assert (G : geofence_violation M p gpsLat gpsLng =
              if (JS.of_Z (maxDistance_of p) <? d)%float
              then Some (d, maxDistance_of p)
              else None).
  { unfold geofence_violation. now rewrite Hplat, Hplng. }
  clearbody d.
  assert (H : checkin_handler M env db req =
              match geofence_violation M p gpsLat gpsLng with
              | Some (distance, maxDistance) =>
                  (Forbidden (JS.round distance) maxDistance, db)
              | None =>
                  match select_open db w with
                  | [] =>
                      match
                        decimal_column env 10 gpsLat,
                        decimal_column env 11 gpsLng
                      with
                      | Some lat, Some lng =>
                          let (row, db') :=
                            insert_checkin db (db_now env) w
                              (match ci_projectId req with
                               | Some i => i
                               | None => 0%Z
                               end)
                              lat lng (or_null (ci_photoUrl req))
                              (compute_isLate (ci_scheduledTime req)
                                 (js_now env)) in
                          (Created row, db')
                      | _, _ => (ServerError "Check-in failed", db)
                      end
                  | active :: _ => (Conflict (id active), db)
                  end
              end).
  { unfold checkin_handler.
    destruct (ci_projectId req) as [pid|]; [|discriminate].
    apply hd_error_cons in Hsite as [ps Hps].
    rewrite Hlat, Hlng. unfold missing. rewrite Hid, Tlat, Tlng. simpl.
    now rewrite Hws, Hps. }
  assert (Other : forall distance maxDistance,
             fst match select_open db w with
                 | [] =>
                     match
                       decimal_column env 10 gpsLat,
                       decimal_column env 11 gpsLng
                     with
                     | Some lat, Some lng =>
                         let (row, db') :=
                           insert_checkin db (db_now env) w
                             (match ci_projectId req with
                              | Some i => i
                              | None => 0%Z
                              end)
                             lat lng (or_null (ci_photoUrl req))
                             (compute_isLate (ci_scheduledTime req)
                                (js_now env)) in
                         (Created row, db')
                     | _, _ => (ServerError "Check-in failed", db)
                     end
                 | active :: _ => (Conflict (id active), db)
                 end <> Forbidden distance maxDistance).
  { intros distance maxDistance.
    destruct (select_open db w); [|discriminate].
    destruct (decimal_column env 10 gpsLat), (decimal_column env 11 gpsLng);
      discriminate. }
  split; [|split; [|split; [|split; [|split; [|split]]]]].
  5:{ intros Hnan HR Hnot.
      assert (NR : forall R, (0 < R < 2 ^ 53)%Z -> is_nan (JS.of_Z R) = false).
      { intros [|R|R] HR'; try lia.
        destruct (of_Z_positive R ltac:(lia)) as (mR & PR & _).
        pose proof (number_is_finite (JS.of_Z (Zpos R))) as F.
        rewrite PR in F. specialize (F I). unfold is_finite in F.
        apply negb_true_iff, orb_false_iff in F. tauto. }
      apply not_gt_leb; auto.
      destruct (_ <? _)%float eqn:Far; trivial.
      elim (Hnot (JS.round d) (maxDistance_of p)).
      now rewrite H, G. }
  - intros r Hr Hnz. unfold maxDistance_of. rewrite Hr.
    destruct (Z.eqb_spec r 0); [contradiction|reflexivity].
  - intro Hfar. now rewrite H, G, Hfar.
  - intro Hnear. apply leb_not_gt in Hnear. rewrite G, Hnear.
    split; [reflexivity|].
    intros distance maxDistance. rewrite H, G, Hnear. apply Other.
  - intros distance maxDistance. rewrite H, G.
    destruct (_ <? _)%float.
    + simpl. intro E. injection E as <- <-. auto.
    + intro E. now elim (Other distance maxDistance).
  - intros x ->. now apply parseFloat_truthy.
  - intros x ->. now apply parseFloat_truthy.
Qed.

Lemma geofence_decision_witness :
  checkin_handler RefMath.lib (Sample.at_time Sample.T) Sample.empty
    Sample.off_site =
  (Forbidden
     (JS.round (calculateDistance RefMath.lib 30.2717 (-97.7431) 30.2672
                  (-97.7431)))
     100, Sample.empty).
Proof.
  destruct (geofence_decision RefMath.lib (Sample.at_time Sample.T)
              Sample.empty Sample.off_site (JS.Number 30.2717)
              (JS.Number (-97.7431)) 7
              Sample.riverside 30.2672 (-97.7431)
              eq_refl eq_refl eq_refl eq_refl eq_refl eq_refl eq_refl
              eq_refl eq_refl) as (_ & Far & _).
  apply Far. reflexivity.
Defined.

(** C2, as stated, fails: about 500.38 m from the site the refusal
    carries 500, the distance rounded, and not the distance computed. *)
Lemma violation_carries_rounded_distance :
  fst (checkin_handler RefMath.lib (Sample.at_time Sample.T) Sample.empty
         Sample.off_site) = Forbidden 500 100 /\
  calculateDistance RefMath.lib 30.2717 (-97.7431) 30.2672 (-97.7431)
  = 500.37716990053332%float /\
  (500.37716990053332 =? 500)%float = false.
Proof.
  repeat split; vm_compute; reflexivity.
Qed.

(** ** C4: hours worked *)

(** [toFixed(2)] rounds half up on the exact value of the double: for a
    finite [x] of mantissa [m] and exponent [e], the digits [n] it prints
    satisfy [n - 1/2 <= 100 * m * 2^e < n + 1/2]. *)
Lemma toFixed2_half_up (x : float) (s neg : bool) (m : positive) (e n : Z) :
  Prim2SF x = S754_finite s m e ->
  JS.toFixed2 x = JS.Fixed2 neg n ->
  neg = s /\
  ((0 <= e -> n = 100 * (Zpos m * 2 ^ e)) /\
   (e < 0 ->
    (2 * n - 1) * 2 ^ (- e) <= 200 * Zpos m < (2 * n + 1) * 2 ^ (- e)))%Z.
Proof.
  intros Hx. unfold JS.toFixed2. rewrite Hx.
  destruct (Z.leb_spec 0 e) as [He|He].
  - destruct (_ <=? _)%Z; [discriminate|].
    intro E. split; [congruence|]. split; [intros _; congruence|lia].
  - destruct (_ <=? _)%Z; [discriminate|].
    intro E. split; [congruence|]. split; [lia|].
    intros _.
    assert (Hn : n = ((200 * Zpos m + 2 ^ (- e)) / 2 ^ (1 - e))%Z)
      by congruence.
    rewrite Hn. clear E Hn.
    assert (P : (0 < 2 ^ (- e))%Z) by (apply Z.pow_pos_nonneg; lia).
    replace (1 - e)%Z with (Z.succ (- e)) by lia.
    rewrite Z.pow_succ_r by lia.
    pose proof (Z.div_mod (200 * Zpos m + 2 ^ (- e)) (2 * 2 ^ (- e))
                  ltac:(lia)) as D.
    pose proof (Z.mod_pos_bound (200 * Zpos m + 2 ^ (- e)) (2 * 2 ^ (- e))
                  ltac:(lia)) as B.
    revert D B.
    generalize ((200 * Z.pos m + 2 ^ (- e)) / (2 * 2 ^ (- e)))%Z.
    generalize ((200 * Z.pos m + 2 ^ (- e)) mod (2 * 2 ^ (- e)))%Z.
    generalize dependent (2 ^ (- e))%Z. intros; nia.
Qed.

(** What a successful check-out returns and records. *)
Lemma checkout_hours env db req row shown db' :
  checkout_handler env db req = (CheckedOut row shown, db') ->
  exists c r neg digits,
    In c (checkins db) /\ checkout_time c = None /\
    shown = JS.toFixed2 (hours_between (as_date env (checkin_time c)) (js_now env)) /\
    shown = JS.Fixed2 neg digits /\ (digits < 100000)%Z /\
    row = Some r /\ In r (checkins db') /\ id r = id c /\
    hours_worked r = Some (cond_Zopp neg digits).
Proof.
  intro H.
  destruct (checkout_effect env db req)
    as [[_ No]|(w & c & rest & hours & _ & Hc & Hdec & E)].
  { rewrite H in No. now elim (No row shown). }
  rewrite H in E. unfold update_checkout in E. cbn [fst snd] in E.
  injection E as Hrow Hshown Hdb.
  apply select_open_latest_In, select_open_In in Hc.
  destruct Hc as (Hin & _ & Hopen).
  unfold decimal_5_2 in Hdec. rewrite <- Hshown in Hdec.
  destruct shown as [neg digits|x]; [|discriminate].
  destruct (Z.ltb_spec digits 100000) as [Hlt|]; [|discriminate].
  injection Hdec as Hhours.
  set (upd := fun x : checkin =>
                if (id x =? id c)%Z
                then set_checkout (db_now env) (column env 10 (co_gpsLat req))
                       (column env 11 (co_gpsLng req))
                       (or_null (co_photoUrl req)) hours
                       (or_null (co_notes req)) x
                else x) in *.
  assert (F : forall l, In c l ->
              exists r, hd_error (filter (fun x => (id x =? id c)%Z) (map upd l))
                        = Some r /\
                        In r (map upd l) /\ id r = id c /\
                        hours_worked r = Some hours).
  { induction l as [|a l IH]; simpl; [tauto|]. intro Hl.
    destruct (Z.eqb_spec (id (upd a)) (id c)) as [Ea|Na].
    - exists (upd a). simpl. split; [reflexivity|]. split; [now left|].
      split; [exact Ea|]. unfold upd in *.
      destruct (Z.eqb_spec (id a) (id c)); [reflexivity|contradiction].
    - destruct Hl as [->|Hl].
      + elim Na. unfold upd. now rewrite Z.eqb_refl.
      + destruct (IH Hl) as (r & H1 & H2 & H3 & H4). exists r. auto. }
  destruct (F (checkins db) Hin) as (r & H1 & H2 & H3 & H4).
  exists c, r, neg, digits.
  rewrite Hdb, Hrow, Hhours. cbn [checkins]. auto 10.
Qed.

(** C4, as amended.  A successful check-out closes an open shift [c] of
    the ledger; the hours it returns are [toFixed(2)] of the double
    [(now - checkInTime) / 3600000], with [checkInTime] the check-in time
    of [c] as the driver hands it to the route, that is, that double
    rounded half up to two decimals on its exact value; they are below
    one thousand, and the row returned, which is in the table
    afterwards, records the same value.  Between instants from 1970 on the elapsed milliseconds are
    exact, so the double is the quotient of the elapsed time by 3600000
    rounded once; and a check-out 2 h 30 min after the check-in shows
    2.50. *)
Theorem hours_worked_as_computed :
  (forall env db req row shown db',
      checkout_handler env db req = (CheckedOut row shown, db') ->
      exists c r neg digits,
        In c (checkins db) /\ checkout_time c = None /\
        shown = JS.toFixed2 (hours_between (as_date env (checkin_time c)) (js_now env)) /\
        shown = JS.Fixed2 neg digits /\ (digits < 100000)%Z /\
        row = Some r /\ In r (checkins db') /\ id r = id c /\
        hours_worked r = Some (cond_Zopp neg digits)) /\
  (forall t0 now,
      (0 <= t0 <= now)%Z -> (now < 2 ^ 53)%Z ->
      hours_between t0 now = (JS.of_Z (now - t0) / 3600000)%float) /\
  (forall T,
      (0 <= T)%Z -> (T + 9000000 < 2 ^ 53)%Z ->
      JS.toFixed2 (hours_between T (T + 9000000)) = JS.Fixed2 false 250).
Proof.
  split; [exact checkout_hours|].
  assert (E : forall t0 now,
             (0 <= t0 <= now)%Z -> (now < 2 ^ 53)%Z ->
             hours_between t0 now = (JS.of_Z (now - t0) / 3600000)%float).
  { intros t0 now H1 H2. unfold hours_between.
    now rewrite (elapsed_exact t0 now H1 H2). }
  split; [exact E|].
  intros T H1 H2. rewrite E by lia.
  replace (T + 9000000 - T)%Z with 9000000%Z by lia. reflexivity.
Qed.

Lemma hours_worked_as_computed_witness :
  (exists c r,
      In c (checkins Sample.alice_in) /\
      fst (checkout_handler (Sample.at_time (Sample.T + 9000000))
             Sample.alice_in Sample.leaving)
      = CheckedOut (Some r) (JS.Fixed2 false 250) /\
      hours_worked r = Some 250%Z) /\
  JS.toFixed2 (hours_between Sample.T (Sample.T + 9000000))
  = JS.Fixed2 false 250.
Proof.
  destruct hours_worked_as_computed as (Core & _ & Scenario).
  split.
  - destruct (Core (Sample.at_time (Sample.T + 9000000))
                Sample.alice_in Sample.leaving
                (fst (fst (checkout_handler_parts
                             (Sample.at_time (Sample.T + 9000000))
                             Sample.alice_in Sample.leaving)))
                (JS.Fixed2 false 250)
                (snd (checkout_handler (Sample.at_time (Sample.T + 9000000))
                        Sample.alice_in Sample.leaving)))
      as (c & r & neg & digits & H1 & _ & _ & H4 & _ & H6 & _ & _ & H9).
    + vm_compute. reflexivity.
    + injection H4 as <- <-. exists c, r. split; [exact H1|].
      split; [|exact H9].
      vm_compute in H6. vm_compute. now rewrite <- H6.
  - apply Scenario; unfold Sample.T; lia.
Defined.

(** C4, as stated, fails: 54 seconds are 0.015 hour, which rounds half
    up to 0.02; the double nearest to 0.015 lies below it, and the
    check-out returns and records 0.01. *)
Lemma fifty_four_seconds_are_one_hundredth :
  exact_hours_half_up 54000 = 2%Z /\
  exists r,
    fst (checkout_handler (Sample.at_time (Sample.T + 54000)) Sample.alice_in
           Sample.leaving)
    = CheckedOut (Some r) (JS.Fixed2 false 1) /\
    checkin_time r = Sample.T /\
    hours_worked r = Some 1%Z.
Proof.
  split; [reflexivity|].
  eexists. split; [vm_compute; reflexivity|]. split; reflexivity.
Qed.

(** * Further properties of the check-in routes *)

(** ** What [GET /] lists *)

Lemma insert_desc_sorted (c : checkin) (l : list checkin) :
  most_recent_first l -> most_recent_first (insert_desc c l).
Proof.
  unfold most_recent_first.
  induction l as [|d l IH]; simpl; intro S.
  - repeat constructor.
  - destruct (Z.leb_spec (checkin_time d) (checkin_time c)) as [Le|Gt].
    + constructor; trivial.
      inversion S as [|? ? S' F]; subst. constructor; trivial.
      eapply Forall_impl; [|exact F]. simpl. intros. lia.
    + inversion S as [|? ? S' F]; subst. constructor; [auto|].
      rewrite Forall_forall in *. intros x Hx.
      apply insert_desc_In in Hx. destruct Hx as [->|Hx]; [lia|auto].
Qed.

Lemma order_by_sorted (l : list checkin) :
  most_recent_first (order_by_checkin_time_desc l).
Proof.
  unfold order_by_checkin_time_desc.
  induction l as [|c l IH]; simpl.
  - constructor.
  - now apply insert_desc_sorted.
Qed.

(** In a sorted list every row of a prefix is at least as recent as
    every row after it. *)
Lemma sorted_app_inv (l1 l2 : list checkin) :
  most_recent_first (l1 ++ l2) ->
  most_recent_first l1 /\
  forall a b, In a l1 -> In b l2 -> (checkin_time b <= checkin_time a)%Z.
Proof.
  unfold most_recent_first.
  induction l1 as [|x l1 IH]; simpl; intro S.
  - split; [constructor|]. tauto.
  - inversion S as [|? ? S' F]; subst.
    destruct (IH S') as [S1 Cross]. split.
    + constructor; trivial. rewrite Forall_forall in *.
      intros y Hy. apply F. apply in_or_app. now left.
    + intros a b [<-|Ha] Hb; [|auto].
      rewrite Forall_forall in F. apply F. apply in_or_app. now right.
Qed.

Lemma existsb_worker (db : database) (c : checkin) :
  has_worker db c = true <->
  exists w, In w (workers db) /\ worker_id w = checkin_worker_id c.
Proof.
  unfold has_worker. rewrite existsb_exists.
  split; intros (w & Hw & E); exists w; split; trivial; now apply Z.eqb_eq.
Qed.

Lemma existsb_project (db : database) (c : checkin) :
  has_project db c = true <->
  exists p, In p (projects db) /\ project_id p = checkin_project_id c.
Proof.
  unfold has_project. rewrite existsb_exists.
  split; intros (p & Hp & E); exists p; split; trivial; now apply Z.eqb_eq.
Qed.

Lemma filter_by_spec {A : Type} (param : option A) (test : A -> bool) :
  filter_by param test = true <-> forall a, param = Some a -> test a = true.
Proof.
  unfold filter_by. destruct param as [a|].
  - split; [now intros H b [= <-]|auto].
  - split; [discriminate|trivial].
Qed.

Lemma where_read_spec {A : Type} (param : option (reading A))
    (test : A -> bool) :
  where_read param test = true <->
  forall a, param = Some (Reads a) -> test a = true.
Proof.
  unfold where_read. destruct param as [[|a]|].
  - split; [discriminate|trivial].
  - split; [now intros H b [= <-]|auto].
  - split; [discriminate|trivial].
Qed.

(** The rows [GET /] selects before it sorts and truncates. *)
Lemma list_handler_rows (db : database) (req : list_request) :
  well_read req = true ->
  exists sel,
    (forall c, In c (filter sel (checkins db)) <-> listed db req c) /\
    list_handler db req =
    (Listing (firstn 100 (order_by_checkin_time_desc (filter sel (checkins db))))
       (List.length
          (firstn 100 (order_by_checkin_time_desc (filter sel (checkins db))))),
     db).
Proof.
  intro W. unfold list_handler. rewrite W.
  eexists. split; [|reflexivity].
  intro c. rewrite filter_In. unfold listed.
  rewrite !andb_true_iff, existsb_worker, existsb_project, !where_read_spec.
  setoid_rewrite Z.eqb_eq. setoid_rewrite Z.leb_le. tauto.
Qed.

(** X1.  [GET /] leaves the database as it was.  When PostgreSQL cannot
    read one of the parameters the query supplies (a project or worker
    that is no integer, a date that is no timestamp), it answers 500.
    Otherwise it answers with a list of shifts and its length, which is
    at most one hundred: every shift listed is a shift of the ledger
    whose worker and project exist and that passes each filter of the
    query (project, worker, earliest and latest check-in time); and when
    fewer than one hundred are listed, every such shift is. *)
Theorem listing_holds_the_matching_shifts (db : database) (req : list_request) :
  snd (list_handler db req) = db /\
  (well_read req = false ->
   list_handler db req = (ServerError "Failed to get check-ins", db)) /\
  (well_read req = true ->
   exists rows,
     list_handler db req = (Listing rows (List.length rows), db) /\
     (List.length rows <= 100)%nat /\
     (forall c, In c rows -> listed db req c) /\
     ((List.length rows < 100)%nat -> forall c, listed db req c -> In c rows)).
Proof.
  split; [apply list_keeps|]. split.
  { intro W. unfold list_handler. now rewrite W. }
  intro W.
  destruct (list_handler_rows db req W) as (sel & Sel & ->).
  set (all := order_by_checkin_time_desc (filter sel (checkins db))).
  exists (firstn 100 all). split; [reflexivity|].
  split; [apply firstn_le_length|].
  assert (All : forall c, In c all <-> listed db req c).
  { intro c. unfold all. now rewrite order_by_In. }
  split.
  - intros c Hc. apply All. rewrite <- (firstn_skipn 100 all).
    apply in_or_app. now left.
  - intros Short c Hc. apply All in Hc.
    rewrite firstn_all2; trivial.
    rewrite length_firstn in Short. lia.
Qed.

Lemma listing_holds_the_matching_shifts_witness :
  list_handler Scenario.bob_in Scenario.of_project_abc
  = (ServerError "Failed to get check-ins", Scenario.bob_in) /\
  exists rows,
    list_handler Scenario.bob_in Scenario.everything
    = (Listing rows (List.length rows), Scenario.bob_in) /\
    (forall c, In c rows -> listed Scenario.bob_in Scenario.everything c).
Proof.
  split.
  - apply (proj1 (proj2 (listing_holds_the_matching_shifts Scenario.bob_in
                           Scenario.of_project_abc))).
    reflexivity.
  - destruct (proj2 (proj2 (listing_holds_the_matching_shifts Scenario.bob_in
                              Scenario.everything)) eq_refl)
      as (rows & H & _ & Sound & _).
    exists rows. split; [exact H | exact Sound].
Defined.

(** X2.  The shifts [GET /] lists come most recent check-in first, and
    the limit of one hundred drops the oldest: a shift that matches the
    query and is not listed checked in no later than every shift that
    is. *)
Theorem listing_is_most_recent_first (db : database) (req : list_request)
    (rows : list checkin) (count : nat) :
  fst (list_handler db req) = Listing rows count ->
  most_recent_first rows /\
  forall c r, listed db req c -> ~ In c rows -> In r rows ->
    (checkin_time c <= checkin_time r)%Z.
Proof.
  intro H.
  assert (W : well_read req = true).
  { unfold list_handler in H. now destruct (well_read req). }
  revert H.
  destruct (list_handler_rows db req W) as (sel & Sel & ->).
  set (all := order_by_checkin_time_desc (filter sel (checkins db))).
  simpl. intros [= <- _].
  pose proof (order_by_sorted (filter sel (checkins db))) as S.
  fold all in S. rewrite <- (firstn_skipn 100 all) in S.
  apply sorted_app_inv in S. destruct S as [S Cross].
  split; [exact S|].
  intros c r Hc Hnot Hr. apply Cross; trivial.
  assert (In c all) as Hall.
  { unfold all. rewrite order_by_In. now apply Sel. }
  rewrite <- (firstn_skipn 100 all) in Hall.
  apply in_app_or in Hall. tauto.
Qed.

Lemma listing_is_most_recent_first_witness :
  exists rows count,
    fst (list_handler Scenario.bob_in Scenario.everything)
    = Listing rows count /\
    most_recent_first rows.
Proof.
  eexists. eexists. split.
  - vm_compute. reflexivity.
  - refine (proj1 (listing_is_most_recent_first Scenario.bob_in
                     Scenario.everything _ 2 _)).
    vm_compute. reflexivity.
Defined.

(** ** Referential integrity *)

(** What a check-in that answers 201 has gone through. *)
Lemma checkin_created M env db req row db' :
  checkin_handler M env db req = (Created row, db') ->
  exists w ws pid lat lng p ps,
    select_worker_ids db (ci_user_id req) = w :: ws /\
    ci_projectId req = Some pid /\
    column env 10 (ci_gpsLat req) = Some lat /\
    column env 11 (ci_gpsLng req) = Some lng /\
    missing_id (ci_projectId req) || missing (ci_gpsLat req)
      || missing (ci_gpsLng req) = false /\
    select_project db pid = p :: ps /\
    (exists gpsLat gpsLng,
        ci_gpsLat req = Some gpsLat /\ ci_gpsLng req = Some gpsLng /\
        geofence_violation M p gpsLat gpsLng = None) /\
    select_open db w = [] /\
    (row, db') =
    insert_checkin db (db_now env) w pid lat lng
      (or_null (ci_photoUrl req))
      (compute_isLate (ci_scheduledTime req) (js_now env)).
Proof.
  unfold checkin_handler, column.
  destruct (ci_projectId req) as [pid|]; [|discriminate].
  destruct (ci_gpsLat req) as [gpsLat|]; [|discriminate].
  destruct (ci_gpsLng req) as [gpsLng|]; [|discriminate].
  destruct (_ || _ || _) eqn:Hm; [discriminate|].
  destruct (select_worker_ids db (ci_user_id req)) as [|w ws]; [discriminate|].
  destruct (select_project db pid) as [|p ps] eqn:Hp; [discriminate|].
  destruct (geofence_violation M p gpsLat gpsLng) as [[d r]|] eqn:Hg;
    [discriminate|].
  destruct (select_open db w) as [|c cs] eqn:Hopen; [|discriminate].
  destruct (decimal_column env 10 gpsLat) as [lat|]; [|discriminate].
  destruct (decimal_column env 11 gpsLng) as [lng|]; [|discriminate].
  intro H. exists w, ws, pid, lat, lng, p, ps.
  repeat (split; trivial).
  - exists gpsLat, gpsLng. auto.
  - unfold insert_checkin in *. simpl in *. congruence.
Qed.

Lemma select_worker_ids_In (db : database) (u w : Z) :
  In w (select_worker_ids db u) ->
  exists r, In r (workers db) /\ worker_id r = w.
Proof.
  unfold select_worker_ids. rewrite in_map_iff.
  intros (r & E & Hr). apply filter_In in Hr. exists r. tauto.
Qed.

Lemma select_project_In (db : database) (pid : Z) (p : project) :
  In p (select_project db pid) -> In p (projects db) /\ project_id p = pid.
Proof.
  unfold select_project. rewrite filter_In, Z.eqb_eq. tauto.
Qed.

(** No operation writes [workers] or [projects]. *)
Lemma step_tables M db db' :
  step M db db' -> workers db' = workers db /\ projects db' = projects db.
Proof.
  intros [env d req|env d req|d req|d uid].
  - destruct (checkin_effect M env d req)
      as [[-> _]|(w & pid & lat & lng & _ & _ & _ & _ & _ & ->)]; auto.
  - destruct (checkout_effect env d req)
      as [[-> _]|(w & c & rest & hours & _ & _ & _ & ->)]; auto.
  - rewrite list_keeps. auto.
  - unfold active_handler.
    destruct (select_worker_ids d uid) as [|w ws]; auto.
    now destruct (firstn 1 _).
Qed.

Lemma references_same_tables (db db' : database) (c c' : checkin) :
  workers db' = workers db -> projects db' = projects db ->
  checkin_worker_id c' = checkin_worker_id c ->
  checkin_project_id c' = checkin_project_id c ->
  has_worker db c = true /\ has_project db c = true ->
  has_worker db' c' = true /\ has_project db' c' = true.
Proof.
  unfold has_worker, has_project. now intros -> -> -> ->.
Qed.

Lemma step_references M db db' :
  references_hold db -> step M db db' -> references_hold db'.
Proof.
  intros Ref Hstep. destruct Hstep as [env d req|env d req|d req|d uid].
  - destruct (checkin_effect M env d req)
      as [[-> _]|(w & pid & lat & lng & Hw & Hpid & _ & _ & _ & E)]; trivial.
    destruct (checkin_created M env d req _ _ E)
      as (w' & ws & pid' & lat' & lng' & p & ps & _ & Hpid' & _ & _ & _ & Hp & _).
    assert (pid' = pid) as -> by congruence.
    rewrite E. intros c Hc. simpl in Hc. apply in_app_or in Hc.
    destruct Hc as [Hc|[<-|[]]]; [now apply Ref|].
    unfold worker_of in Hw.
    destruct (select_worker_ids d (ci_user_id req)) as [|w1 ws1] eqn:Hsel;
      [discriminate|].
    injection Hw as ->.
    assert (In w (select_worker_ids d (ci_user_id req))) as Hin
      by (rewrite Hsel; now left).
    apply select_worker_ids_In in Hin. destruct Hin as (r & Hr & Er).
    assert (In p (select_project d pid)) as Hin by (rewrite Hp; now left).
    apply select_project_In in Hin. destruct Hin as [Hin Ep].
    unfold has_worker, has_project. simpl. rewrite !existsb_exists. split.
    + exists r. split; trivial. now apply Z.eqb_eq.
    + exists p. split; trivial. now apply Z.eqb_eq.
  - destruct (checkout_effect env d req)
      as [[-> _]|(w & c & rest & hours & _ & _ & _ & ->)]; trivial.
    intros x Hx. simpl in Hx. apply in_map_iff in Hx.
    destruct Hx as (y & <- & Hy).
    apply (references_same_tables d _ y); trivial.
    + now destruct (id y =? id c)%Z.
    + now destruct (id y =? id c)%Z.
    + now apply Ref.
  - now rewrite list_keeps.
  - unfold active_handler.
    destruct (select_worker_ids d uid) as [|w ws]; trivial.
    now destruct (firstn 1 _).
Qed.

Lemma reachable_references M db : reachable M db -> references_hold db.
Proof.
  intros (db0 & Hempty & Hsteps).
  induction Hsteps as [|db1 db2 _ IH Hstep].
  - intros c Hc. rewrite Hempty in Hc. destruct Hc.
  - eapply step_references; eauto.
Qed.

Lemma reachable_one_open M db : reachable M db -> one_open_shift_per_worker db.
Proof.
  intros (db0 & Hempty & Hsteps).
  induction Hsteps as [|db1 db2 _ IH Hstep].
  - intro w. unfold open_shifts, select_open. rewrite Hempty. simpl. lia.
  - eapply step_preserves_invariant; eauto.
Qed.

Lemma reachable_steps M db db' :
  reachable M db -> steps M db db' -> reachable M db'.
Proof.
  intros (db0 & Hempty & H0) H. exists db0. split; trivial.
  induction H as [|db1 db2 _ IH Hstep]; trivial.
  eapply steps_more; eauto.
Qed.

Lemma filter_all {A : Type} (f : A -> bool) (l : list A) :
  (forall x, In x l -> f x = true) -> filter f l = l.
Proof.
  induction l as [|a l IH]; simpl; intro H; trivial.
  rewrite (H a) by now left. f_equal. apply IH. auto.
Qed.

Lemma filter_none {A : Type} (f : A -> bool) (l : list A) :
  (forall x, In x l -> f x = false) -> filter f l = [].
Proof.
  induction l as [|a l IH]; simpl; intro H; trivial.
  rewrite (H a) by now left. apply IH. auto.
Qed.

(** The sample ledgers are reached by the operations. *)
Lemma alice_in_reachable : reachable RefMath.lib Sample.alice_in.
Proof.
  exists Sample.empty. split; [reflexivity|].
  eapply steps_more; [apply steps_refl|].
  apply (step_checkin RefMath.lib (Sample.at_time Sample.T) Sample.empty
           Sample.on_site).
Qed.

Lemma alice_in_to_bob_in :
  steps RefMath.lib Sample.alice_in Scenario.bob_in.
Proof.
  eapply steps_more; [eapply steps_more; [apply steps_refl|]|].
  - apply (step_checkout RefMath.lib (Sample.at_time (Sample.T + 9000000))
             Sample.alice_in Sample.leaving).
  - apply (step_checkin RefMath.lib (Sample.at_time (Sample.T + 10000000))
             Scenario.alice_out Scenario.bob_on_site).
Qed.

Lemma bob_in_reachable : reachable RefMath.lib Scenario.bob_in.
Proof.
  exact (reachable_steps _ _ _ alice_in_reachable alice_in_to_bob_in).
Qed.

Lemma open_shifts_have_projects (db : database) :
  references_hold db ->
  forall w, filter (has_project db) (select_open db w) = select_open db w.
Proof.
  intros Ref w. apply filter_all. intros c Hc.
  apply select_open_In in Hc. now apply Ref.
Qed.

(** X3.  In every ledger the operations reach, each shift references a
    worker and a project that exist: the check-in looked both up before
    it inserted, and nothing removes them.  So the [JOIN]s of the read
    queries drop no shift: the open shifts [GET /active] looks at are
    the open shifts of the worker, and [GET /] lists a shift as soon as
    it passes the filters. *)
Theorem shifts_reference_existing_rows M db :
  reachable M db ->
  references_hold db /\
  (forall w, filter (has_project db) (select_open db w) = select_open db w) /\
  (forall req c,
      listed db req c <->
      In c (checkins db) /\
      (forall p, ls_projectId req = Some (Reads p) ->
                 checkin_project_id c = p) /\
      (forall w, ls_workerId req = Some (Reads w) ->
                 checkin_worker_id c = w) /\
      (forall t, ls_startDate req = Some (Reads t) ->
                 (t <= checkin_time c)%Z) /\
      (forall t, ls_endDate req = Some (Reads t) ->
                 (checkin_time c <= t)%Z)).
Proof.
  intro R. pose proof (reachable_references M db R) as Ref.
  split; [exact Ref|]. split.
  - now apply open_shifts_have_projects.
  - intros req c. unfold listed. split; [tauto|].
    intros (Hc & Rest). split; trivial.
    destruct (Ref c Hc) as [Hw Hp].
    apply existsb_worker in Hw. apply existsb_project in Hp. tauto.
Qed.

Lemma shifts_reference_existing_rows_witness :
  references_hold Scenario.bob_in.
Proof.
  exact (proj1 (shifts_reference_existing_rows RefMath.lib Scenario.bob_in
                  bob_in_reachable)).
Defined.

(** ** The active shift *)

Lemma one_open_cases (db : database) (w : Z) :
  one_open_shift_per_worker db ->
  select_open db w = [] \/ exists c, select_open db w = [c].
Proof.
  intro Inv. specialize (Inv w). unfold open_shifts in Inv.
  destruct (select_open db w) as [|c [|d l]]; simpl in Inv;
    [now left|right; now exists c|lia].
Qed.

(** The first row of a sorted selection checked in last. *)
Lemma order_by_first (l : list checkin) (c : checkin) (rest : list checkin) :
  order_by_checkin_time_desc l = c :: rest ->
  forall c', In c' l -> (checkin_time c' <= checkin_time c)%Z.
Proof.
  intros E c' Hc'. apply order_by_In in Hc'.
  pose proof (order_by_sorted l) as S. rewrite E in S, Hc'.
  inversion S as [|? ? _ F]; subst.
  destruct Hc' as [->|Hc']; [lia|].
  rewrite Forall_forall in F. now apply F.
Qed.

(** X4.  In a ledger whose shifts reference existing projects, as the
    foreign key of the schema has it, [GET /active] tells whether the
    worker of the user has an open shift: it answers 404 when the user
    has no worker profile, [active: false] when the worker has no open
    shift, and otherwise [active: true] with the open shift of the
    worker that checked in last, which is the shift a check-out would
    close; it is the one open shift of the worker when the ledger has at
    most one for each. *)
Theorem active_reports_the_open_shift db user :
  references_hold db ->
  match worker_of db user with
  | None => active_handler db user = (NotFound "Worker profile not found", db)
  | Some w =>
      (select_open db w = [] /\
       active_handler db user = (Active false None, db)) \/
      (exists c,
          active_handler db user = (Active true (Some c), db) /\
          select_open_latest db w = [c] /\
          In c (checkins db) /\ checkin_worker_id c = w /\
          checkout_time c = None /\
          (forall c', In c' (select_open db w) ->
                      (checkin_time c' <= checkin_time c)%Z) /\
          (one_open_shift_per_worker db -> select_open db w = [c]))
  end.
Proof.
  intro Ref. unfold worker_of, active_handler.
  destruct (select_worker_ids db user) as [|w ws]; simpl; trivial.
  rewrite (open_shifts_have_projects db Ref).
  destruct (order_by_checkin_time_desc (select_open db w)) as [|c rest] eqn:E.
  - left. split; trivial.
    pose proof (order_by_length (select_open db w)) as L. rewrite E in L.
    now destruct (select_open db w).
  - right. exists c. simpl. split; [reflexivity|].
    assert (Hc : In c (select_open db w)).
    { apply order_by_In. rewrite E. now left. }
    split; [unfold select_open_latest; now rewrite E|].
    pose proof Hc as Hc'. apply select_open_In in Hc'.
    destruct Hc' as (H1 & H2 & H3).
    repeat (split; trivial).
    + now apply (order_by_first _ _ rest).
    + intro Inv. destruct (one_open_cases db w Inv) as [N|(c0 & N)];
        rewrite N in Hc; [destruct Hc|].
      destruct Hc as [->|[]]. exact N.
Qed.

Lemma active_reports_the_open_shift_witness :
  match worker_of Scenario.bob_in 80 with
  | None =>
      active_handler Scenario.bob_in 80
      = (NotFound "Worker profile not found", Scenario.bob_in)
  | Some w =>
      (select_open Scenario.bob_in w = [] /\
       active_handler Scenario.bob_in 80
       = (Active false None, Scenario.bob_in)) \/
      (exists c,
          active_handler Scenario.bob_in 80
          = (Active true (Some c), Scenario.bob_in) /\
          select_open_latest Scenario.bob_in w = [c] /\
          In c (checkins Scenario.bob_in) /\ checkin_worker_id c = w /\
          checkout_time c = None /\
          (forall c', In c' (select_open Scenario.bob_in w) ->
                      (checkin_time c' <= checkin_time c)%Z) /\
          (one_open_shift_per_worker Scenario.bob_in ->
           select_open Scenario.bob_in w = [c]))
  end.
Proof.
  exact (active_reports_the_open_shift Scenario.bob_in 80
           (reachable_references RefMath.lib Scenario.bob_in
              bob_in_reachable)).
Defined.

(** ** A check-in, then the reads and the check-out *)

Lemma select_worker_ids_tables (db db' : database) (u : Z) :
  workers db' = workers db -> select_worker_ids db' u = select_worker_ids db u.
Proof. unfold select_worker_ids. now intros ->. Qed.

(** The shift a check-in creates is the one open shift of its worker. *)
Lemma checkin_opens M env db req row db' :
  checkin_handler M env db req = (Created row, db') ->
  exists w ws,
    select_worker_ids db' (ci_user_id req) = w :: ws /\
    select_open db' w = [row] /\
    has_project db' row = true /\
    checkout_time row = None /\
    checkin_time row = db_now env /\
    id row = checkins_id_seq db /\
    checkins db' = checkins db ++ [row].
Proof.
  intro H.
  destruct (checkin_created M env db req row db' H)
    as (w & ws & pid & lat & lng & p & ps & Hw & _ & _ & _ & _ & Hp & _
        & Hopen & E).
  unfold insert_checkin in E. injection E as Hrow Hdb.
  exists w, ws. split; [|split; [|split]].
  - rewrite <- Hw. apply select_worker_ids_tables. now rewrite Hdb.
  - unfold select_open in *. rewrite Hdb. cbn [checkins].
    rewrite filter_app, Hopen, <- Hrow. simpl.
    rewrite Hrow at 1 2. simpl. now rewrite Z.eqb_refl.
  - apply existsb_project.
    assert (In p (select_project db pid)) as Hin by (rewrite Hp; now left).
    apply select_project_In in Hin. exists p.
    rewrite Hdb, Hrow. simpl. tauto.
  - rewrite Hdb, Hrow. simpl. auto.
Qed.

(** X5.  Requests being handled one at a time: after a check-in that
    answered 201, the shift it created is open and is the only open
    shift of the worker, and [GET /active] for the same user answers
    [active: true] with that shift. *)
Theorem active_after_checkin M env db req row db' :
  checkin_handler M env db req = (Created row, db') ->
  checkout_time row = None /\
  (exists w, worker_of db' (ci_user_id req) = Some w /\
             select_open db' w = [row]) /\
  active_handler db' (ci_user_id req) = (Active true (Some row), db').
Proof.
  intro H.
  destruct (checkin_opens M env db req row db' H)
    as (w & ws & Hw & Hopen & Hproj & Hout & _).
  split; [exact Hout|]. split.
  - exists w. unfold worker_of. now rewrite Hw.
  - unfold active_handler. rewrite Hw, Hopen. simpl. now rewrite Hproj.
Qed.

Lemma active_after_checkin_witness :
  exists row,
    checkin_handler RefMath.lib (Sample.at_time Sample.T) Sample.empty
      Sample.on_site = (Created row, Sample.alice_in) /\
    active_handler Sample.alice_in 70
    = (Active true (Some row), Sample.alice_in).
Proof.
  eexists. split.
  - vm_compute. reflexivity.
  - refine (proj2 (proj2 (active_after_checkin RefMath.lib
                            (Sample.at_time Sample.T) Sample.empty
                            Sample.on_site _ _ _))).
    vm_compute. reflexivity.
Defined.

(** X6.  With at most one open shift per worker, after a check-out that
    answered 200 the worker has no open shift: [GET /active] answers
    [active: false], a further check-out that passes the
    required-fields check answers 404 "No active check-in found" and
    writes nothing, and no check-in of the user is answered 409. *)
Theorem checkout_leaves_no_open_shift env db req row shown db' :
  one_open_shift_per_worker db ->
  checkout_handler env db req = (CheckedOut row shown, db') ->
  exists w,
    worker_of db' (co_user_id req) = Some w /\
    select_open db' w = [] /\
    active_handler db' (co_user_id req) = (Active false None, db') /\
    (forall env' req',
        co_user_id req' = co_user_id req ->
        missing (co_gpsLat req') || missing (co_gpsLng req') = false ->
        checkout_handler env' db' req' =
        (NotFound "No active check-in found", db')) /\
    (forall M env' req' cid,
        ci_user_id req' = co_user_id req ->
        fst (checkin_handler M env' db' req') <> Conflict cid).
Proof.
  intros Inv H.
  destruct (checkout_effect env db req)
    as [[_ No]|(w & c & rest & hours & Hw & Hc & _ & E)].
  { rewrite H in No. now elim (No row shown). }
  rewrite H in E. unfold update_checkout in E. cbn [fst snd] in E.
  injection E as _ _ Hdb.
  apply select_open_latest_In in Hc.
  destruct (one_open_cases db w Inv) as [E|(c0 & E)];
    rewrite E in Hc; [destruct Hc|].
  destruct Hc as [->|[]].
  assert (Hnone : select_open db' w = []).
  { unfold select_open. rewrite Hdb. cbn [checkins].
    apply filter_none. intros x Hx. apply in_map_iff in Hx.
    destruct Hx as (y & <- & Hy).
    destruct (Z.eqb_spec (id y) (id c)) as [Eid|Nid].
    - simpl. apply andb_false_r.
    - destruct (Z.eqb_spec (checkin_worker_id y) w) as [Ew|]; trivial.
      destruct (is_open y) eqn:Oy; [|apply andb_false_r].
      assert (In y (select_open db w)) as Hin.
      { apply select_open_In. unfold is_open in Oy.
        destruct (checkout_time y); [discriminate|tauto]. }
      rewrite E in Hin. destruct Hin as [->|[]]. now elim Nid. }
  assert (Hw' : select_worker_ids db' (co_user_id req) =
                select_worker_ids db (co_user_id req))
    by (apply select_worker_ids_tables; now rewrite Hdb).
  unfold worker_of in Hw.
  destruct (select_worker_ids db (co_user_id req)) as [|w1 ws] eqn:Hsel;
    [discriminate|].
  injection Hw as ->.
  exists w. split; [unfold worker_of; now rewrite Hw'|].
  split; [exact Hnone|]. split; [|split].
  - unfold active_handler. now rewrite Hw', Hnone.
  - intros env' req' Hu Hm. unfold checkout_handler.
    rewrite Hm, Hu, Hw'.
    now rewrite (proj2 (select_open_latest_nil db' w) Hnone).
  - intros M env' req' cid Hu. unfold checkin_handler.
    destruct (ci_projectId req') as [pid|]; [|discriminate].
    destruct (ci_gpsLat req') as [lat|]; [|discriminate].
    destruct (ci_gpsLng req') as [lng|]; [|discriminate].
    destruct (_ || _ || _); [discriminate|].
    rewrite Hu, Hw'.
    destruct (select_project db' pid) as [|p ps]; [discriminate|].
    destruct (geofence_violation M p lat lng) as [[d r]|]; [discriminate|].
    rewrite Hnone.
    destruct (decimal_column env' 10 lat), (decimal_column env' 11 lng);
      discriminate.
Qed.

Lemma checkout_leaves_no_open_shift_witness :
  active_handler Scenario.alice_out 70
  = (Active false None, Scenario.alice_out).
Proof.
  destruct (checkout_leaves_no_open_shift
              (Sample.at_time (Sample.T + 9000000)) Sample.alice_in
              Sample.leaving
              (fst (fst (checkout_handler_parts
                           (Sample.at_time (Sample.T + 9000000))
                           Sample.alice_in Sample.leaving)))
              (snd (fst (checkout_handler_parts
                           (Sample.at_time (Sample.T + 9000000))
                           Sample.alice_in Sample.leaving)))
              Scenario.alice_out)
    as (w & _ & _ & H & _).
  - exact (reachable_one_open _ _ alice_in_reachable).
  - vm_compute. reflexivity.
  - exact H.
Defined.

(** ** The life of a shift *)




(** ** Identifiers *)

Lemma StronglySorted_snoc {A : Type} (R : A -> A -> Prop) (l : list A) (x : A) :
  StronglySorted R l -> Forall (fun a => R a x) l -> StronglySorted R (l ++ [x]).
Proof.
  induction l as [|a l IH]; simpl; intros S F.
  - repeat constructor.
  - inversion S as [|? ? S' Fa]; subst. inversion F as [|? ? Ra F']; subst.
    constructor; [auto|]. apply Forall_app. split; trivial.
    repeat constructor. trivial.
Qed.

Lemma StronglySorted_map_same {A : Type} (R : A -> A -> Prop) (f : A -> A)
    (l : list A) :
  (forall a b, R a b -> R (f a) (f b)) ->
  StronglySorted R l -> StronglySorted R (map f l).
Proof.
  intros Hf. induction 1 as [|a l S IH F]; simpl; constructor; trivial.
  rewrite Forall_map. eapply Forall_impl; [|exact F]. auto.
Qed.

Lemma step_ids_in_order M db db' :
  ids_in_order db -> step M db db' -> ids_in_order db'.
Proof.
  intros [S Below] Hstep. unfold ids_in_order.
  destruct Hstep as [env d req|env d req|d req|d uid].
  - destruct (checkin_effect M env d req)
      as [[-> _]|(w & pid & lat & lng & _ & _ & _ & _ & _ & ->)]; auto.
    simpl. split.
    + apply StronglySorted_snoc; trivial.
    + apply Forall_app. split.
      * eapply Forall_impl; [|exact Below]. simpl. intros. lia.
      * repeat constructor. simpl. lia.
  - destruct (checkout_effect env d req)
      as [[-> _]|(w & c & rest & hours & _ & _ & _ & ->)]; auto.
    simpl. split.
    + apply StronglySorted_map_same; trivial.
      intros a b. now destruct (id a =? id c)%Z, (id b =? id c)%Z.
    + rewrite Forall_map. eapply Forall_impl; [|exact Below].
      intros x Hx. simpl. now destruct (id x =? id c)%Z.
  - rewrite list_keeps. auto.
  - unfold active_handler.
    destruct (select_worker_ids d uid) as [|w ws]; auto.
    now destruct (firstn 1 _).
Qed.

Lemma reachable_ids_in_order M db : reachable M db -> ids_in_order db.
Proof.
  intros (db0 & Hempty & Hsteps).
  induction Hsteps as [|db1 db2 _ IH Hstep].
  - unfold ids_in_order. rewrite Hempty. split; constructor.
  - eapply step_ids_in_order; eauto.
Qed.

(** X8.  In every ledger the operations reach, the identifiers grow
    along the table, so that no two shifts share one; and the shift a
    check-in creates takes an identifier above every identifier in the
    ledger: none is used twice. *)
Theorem identifiers_are_never_reused M db :
  reachable M db ->
  (forall i j a b,
      nth_error (checkins db) i = Some a ->
      nth_error (checkins db) j = Some b ->
      (i < j)%nat -> (id a < id b)%Z) /\
  (forall env req row db',
      checkin_handler M env db req = (Created row, db') ->
      forall c, In c (checkins db) -> (id c < id row)%Z).
Proof.
  intro R. destruct (reachable_ids_in_order M db R) as [S Below]. split.
  - clear Below. induction S as [|x l S IH F]; intros i j a b Hi Hj Lt.
    + now destruct i.
    + destruct j as [|j]; [lia|]. simpl in Hj. destruct i as [|i].
      * injection Hi as <-. rewrite Forall_forall in F. apply F.
        eapply nth_error_In; eauto.
      * simpl in Hi. apply (IH i j); trivial. lia.
  - intros env req row db' H c Hc.
    destruct (checkin_opens M env db req row db' H)
      as (w & ws & _ & _ & _ & _ & _ & Hid & _).
    rewrite Hid. rewrite Forall_forall in Below. auto.
Qed.

Lemma identifiers_are_never_reused_witness :
  exists a b,
    nth_error (checkins Scenario.bob_in) 0 = Some a /\
    nth_error (checkins Scenario.bob_in) 1 = Some b /\
    (id a < id b)%Z.
Proof.
  eexists. eexists.
  split; [vm_compute; reflexivity|]. split; [vm_compute; reflexivity|].
  refine (proj1 (identifiers_are_never_reused RefMath.lib Scenario.bob_in
                   bob_in_reachable) 0%nat 1%nat _ _ _ _ _).
  - vm_compute. reflexivity.
  - vm_compute. reflexivity.
  - lia.
Defined.

(** X9.  Requests being handled one at a time, in a ledger whose
    identifiers the sequence has handed out: a check-out that answers
    200 right after the check-in of the same user closes the shift that
    check-in created.  The row it returns keeps the check-in columns of
    that shift, takes the time of the statement as check-out time, and
    records the hours it shows, which are [toFixed(2)] of the time from
    the check-in time of that shift, as the driver hands it to the
    route, to the route's clock at check-out; every other row of the
    ledger is as before the check-in. *)
Theorem checkout_closes_the_shift_checked_in
    M env db req row db1 env' req' row' shown db2 :
  ids_in_order db ->
  checkin_handler M env db req = (Created row, db1) ->
  co_user_id req' = ci_user_id req ->
  checkout_handler env' db1 req' = (CheckedOut row' shown, db2) ->
  exists r hours,
    row' = Some r /\ same_checkin_columns row r /\
    checkout_time r = Some (db_now env') /\
    shown =
    JS.toFixed2 (hours_between (as_date env' (checkin_time row)) (js_now env'))
    /\
    decimal_5_2 shown = Some hours /\ hours_worked r = Some hours /\
    checkins db2 = checkins db ++ [r].
Proof.
  intros [_ Below] H Hu H'.
  destruct (checkin_opens M env db req row db1 H)
    as (w & ws & Hw & Hopen & _ & _ & _ & Hid & Rows).
  rewrite Forall_forall in Below.
  revert H'. unfold checkout_handler.
  destruct (_ || _); [discriminate|].
  rewrite Hu, Hw, (select_open_latest_single db1 w row Hopen).
  fold (hours_between (as_date env' (checkin_time row)) (js_now env')).
  destruct (decimal_5_2 _) as [hours|] eqn:Hh; [|discriminate].
  destruct (column env' 10 (co_gpsLat req')) as [lat|]; [|discriminate].
  destruct (column env' 11 (co_gpsLng req')) as [lng|]; [|discriminate].
  unfold update_checkout. rewrite Rows, map_app, filter_app.
  set (upd := fun c : checkin => if (id c =? id row)%Z then _ else c).
  assert (Old : map upd (checkins db) = checkins db).
  { rewrite <- (map_id (checkins db)) at 2. apply map_ext_in.
    intros c Hc. unfold upd.
    destruct (Z.eqb_spec (id c) (id row)) as [E|_]; trivial.
    specialize (Below c Hc). lia. }
  rewrite Old.
  rewrite (filter_none _ (checkins db)).
  2:{ intros c Hc. apply Z.eqb_neq. specialize (Below c Hc). lia. }
  cbn [map app filter]. unfold upd at 1 2 3. rewrite Z.eqb_refl.
  cbn [id set_checkout]. rewrite Z.eqb_refl. cbn [hd_error fst snd].
  intros [= <- <- <-].
  eexists. exists hours. split; [reflexivity|].
  split; [apply set_checkout_keeps|]. cbn [checkout_time hours_worked checkins].
  auto 10.
Qed.

Lemma checkout_closes_the_shift_checked_in_witness :
  exists r hours,
    fst (fst (checkout_handler_parts (Sample.at_time (Sample.T + 9000000))
                Sample.alice_in Sample.leaving)) = Some r /\
    same_checkin_columns Scenario.alice_shift r /\
    checkout_time r = Some (db_now (Sample.at_time (Sample.T + 9000000))) /\
    snd (fst (checkout_handler_parts (Sample.at_time (Sample.T + 9000000))
                Sample.alice_in Sample.leaving))
    = JS.toFixed2
        (hours_between
           (as_date (Sample.at_time (Sample.T + 9000000))
              (checkin_time Scenario.alice_shift))
           (js_now (Sample.at_time (Sample.T + 9000000)))) /\
    decimal_5_2
      (snd (fst (checkout_handler_parts (Sample.at_time (Sample.T + 9000000))
                   Sample.alice_in Sample.leaving))) = Some hours /\
    hours_worked r = Some hours /\
    checkins Scenario.alice_out = checkins Sample.empty ++ [r].
Proof.
  apply (checkout_closes_the_shift_checked_in RefMath.lib
           (Sample.at_time Sample.T) Sample.empty Sample.on_site
           Scenario.alice_shift Sample.alice_in
           (Sample.at_time (Sample.T + 9000000)) Sample.leaving).
  - split; constructor.
  - vm_compute. reflexivity.
  - reflexivity.
  - vm_compute. reflexivity.
Defined.

(** ** What is written *)

(** X10.  Only a check-in answered 201 and a check-out answered 200
    change the database: every other answer of the two routes, and the
    two [GET] routes always, leave it as it was.  No operation writes
    [workers] or [projects], and none removes a shift. *)
Theorem only_success_writes M env db :
  (forall req,
      (exists row, fst (checkin_handler M env db req) = Created row) \/
      snd (checkin_handler M env db req) = db) /\
  (forall req,
      (exists row shown,
          fst (checkout_handler env db req) = CheckedOut row shown) \/
      snd (checkout_handler env db req) = db) /\
  (forall req, snd (list_handler db req) = db) /\
  (forall user, snd (active_handler db user) = db) /\
  (forall db',
      step M db db' ->
      workers db' = workers db /\ projects db' = projects db /\
      (List.length (checkins db) <= List.length (checkins db'))%nat).
Proof.
  split; [|split; [|split; [|split]]].
  - intro req.
    destruct (checkin_effect M env db req)
      as [[-> _]|(w & pid & lat & lng & _ & _ & _ & _ & _ & ->)]; [now right|].
    left. eexists. reflexivity.
  - intro req.
    destruct (checkout_effect env db req)
      as [[-> _]|(w & c & rest & hours & _ & _ & _ & ->)]; [now right|].
    left. eexists. eexists. reflexivity.
  - intro req. apply list_keeps.
  - intro user. unfold active_handler.
    destruct (select_worker_ids db user) as [|w ws]; trivial.
    now destruct (firstn 1 _).
  - intros db' Hstep. destruct (step_tables M db db' Hstep) as [Hw Hp].
    split; trivial. split; trivial.
    destruct Hstep as [k d req|k d req|d req|d uid].
    + destruct (checkin_effect M k d req)
        as [[-> _]|(w & pid & lat & lng & _ & _ & _ & _ & _ & ->)]; trivial.
      simpl. rewrite length_app. lia.
    + destruct (checkout_effect k d req)
        as [[-> _]|(w & c & rest & hours & _ & _ & _ & ->)]; trivial.
      simpl. now rewrite length_map.
    + now rewrite list_keeps.
    + unfold active_handler.
      destruct (select_worker_ids d uid) as [|w ws]; trivial.
      now destruct (firstn 1 _).
Qed.

(** * Further properties of the computations *)

(** ** The distance either way round

    The opposite of a double is exact, and multiplication and division
    commute with it; the difference of two doubles taken the other way
    round is the opposite, or both differences are [+0]. *)

Section Symmetry.

Local Open Scope float_scope.

Lemma round_aux_opp (s : bool) (m e : Z) (l : location) :
  binary_round_aux prec emax (negb s) m e l =
  SFopp (binary_round_aux prec emax s m e l).
Proof.
  unfold binary_round_aux.
  destruct (shr_fexp prec emax m e l) as [mrs' e'].
  destruct (shr_fexp prec emax _ e' loc_Exact) as [mrs'' e''].
  destruct (shr_m mrs''); trivial. now destruct (e'' <=? emax - prec)%Z.
Qed.

Lemma SFmul_opp_l (X Y : spec_float) :
  SFmul prec emax (SFopp X) Y = SFopp (SFmul prec emax X Y).
Proof.
  destruct X as [sx|sx| |sx mx ex], Y as [sy|sy| |sy my ey]; simpl; trivial;
    try (now destruct sx, sy).
  rewrite <- round_aux_opp. now destruct sx, sy.
Qed.

Lemma SFmul_comm (X Y : spec_float) :
  SFmul prec emax X Y = SFmul prec emax Y X.
Proof.
  destruct X as [sx|sx| |sx mx ex], Y as [sy|sy| |sy my ey]; simpl; trivial;
    try (now destruct sx, sy).
  now rewrite (xorb_comm sx sy), (Pos.mul_comm mx my), (Z.add_comm ex ey).
Qed.

Lemma SFdiv_opp_l (X Y : spec_float) :
  SFdiv prec emax (SFopp X) Y = SFopp (SFdiv prec emax X Y).
Proof.
  destruct X as [sx|sx| |sx mx ex], Y as [sy|sy| |sy my ey]; simpl; trivial;
    try (now destruct sx, sy).
  destruct (SFdiv_core_binary prec emax (Zpos mx) ex (Zpos my) ey) as [[mz ez] lz].
  rewrite <- round_aux_opp. now destruct sx, sy.
Qed.

Lemma binary_normalize_opp (m e : Z) :
  m <> 0%Z ->
  binary_normalize prec emax (- m) e false =
  SFopp (binary_normalize prec emax m e false).
Proof.
  destruct m as [|p|p]; [tauto| |]; intros _; simpl; unfold binary_round;
    destruct (shl_align p e _) as [mz ez];
    [apply (round_aux_opp false)|apply (round_aux_opp true)].
Qed.

Lemma SFsub_swap (X Y : spec_float) :
  SFsub prec emax Y X = SFopp (SFsub prec emax X Y) \/
  (SFsub prec emax X Y = S754_zero false /\
   SFsub prec emax Y X = S754_zero false).
Proof.
  destruct X as [sx|sx| |sx mx ex], Y as [sy|sy| |sy my ey]; simpl;
    try (now left); try (destruct sx, sy; simpl; tauto);
    try (destruct sx; simpl; tauto); try (destruct sy; simpl; tauto).
  rewrite (Z.min_comm ey ex).
  set (a := cond_Zopp sx (Zpos (fst (shl_align mx ex (Z.min ex ey))))).
  set (b := cond_Zopp sy (Zpos (fst (shl_align my ey (Z.min ex ey))))).
  destruct (Z.eq_dec (a - b) 0) as [E|NE].
  - right. replace (b - a)%Z with 0%Z by lia. now rewrite E.
  - left. replace (b - a)%Z with (- (a - b))%Z by lia.
    now apply binary_normalize_opp.
Qed.

Lemma opp_mul_l (x y : float) : (- x) * y = - (x * y).
Proof.
  apply Prim2SF_inj. rewrite mul_spec, !opp_spec, mul_spec. apply SFmul_opp_l.
Qed.

Lemma float_mul_comm (x y : float) : x * y = y * x.
Proof. apply Prim2SF_inj. rewrite !mul_spec. apply SFmul_comm. Qed.

Lemma opp_mul_r (x y : float) : x * (- y) = - (x * y).
Proof. now rewrite (float_mul_comm x), opp_mul_l, (float_mul_comm y). Qed.

Lemma opp_involutive (x : float) : - (- x) = x.
Proof.
  apply Prim2SF_inj. rewrite !opp_spec.
  destruct (Prim2SF x) as [s|s| |s m e]; simpl; trivial; now destruct s.
Qed.

Lemma opp_div_l (x y : float) : (- x) / y = - (x / y).
Proof.
  apply Prim2SF_inj. rewrite div_spec, !opp_spec, div_spec. apply SFdiv_opp_l.
Qed.

Lemma sub_swap (x y : float) :
  y - x = - (x - y) \/ (x - y = 0 /\ y - x = 0).
Proof.
  destruct (SFsub_swap (Prim2SF x) (Prim2SF y)) as [E|[E1 E2]].
  - left. apply Prim2SF_inj. now rewrite opp_spec, !sub_spec.
  - right. split; apply Prim2SF_inj; now rewrite sub_spec.
Qed.

Variable M : MathLib.
Hypothesis sin_odd : forall x, Math_sin M (- x) = - Math_sin M x.

(** The square of the sine of half an angle, for a difference in degrees
    taken either way round. *)
Lemma half_angle_square (x y c : float) :
  c * Math_sin M (((y - x) * JS.PI) / 180 / 2)
    * Math_sin M (((y - x) * JS.PI) / 180 / 2) =
  c * Math_sin M (((x - y) * JS.PI) / 180 / 2)
    * Math_sin M (((x - y) * JS.PI) / 180 / 2).
Proof.
  destruct (sub_swap x y) as [E|[E1 E2]].
  - rewrite E, opp_mul_l, !opp_div_l, sin_odd, !opp_mul_r, opp_mul_l.
    now rewrite opp_involutive.
  - now rewrite E1, E2.
Qed.

Lemma half_angle_square_1 (x y : float) :
  Math_sin M (((y - x) * JS.PI) / 180 / 2)
    * Math_sin M (((y - x) * JS.PI) / 180 / 2) =
  Math_sin M (((x - y) * JS.PI) / 180 / 2)
    * Math_sin M (((x - y) * JS.PI) / 180 / 2).
Proof.
  destruct (sub_swap x y) as [E|[E1 E2]].
  - rewrite E, opp_mul_l, !opp_div_l, sin_odd, opp_mul_r, opp_mul_l.
    now rewrite opp_involutive.
  - now rewrite E1, E2.
Qed.

Lemma distance_swap (lat1 lon1 lat2 lon2 : float) :
  calculateDistance M lat2 lon2 lat1 lon1 =
  calculateDistance M lat1 lon1 lat2 lon2.
Proof.
  unfold calculateDistance. cbv zeta.
  rewrite (half_angle_square_1 lat2 lat1).
  rewrite (half_angle_square lon2 lon1).
  now rewrite (float_mul_comm (Math_cos M (lat2 * JS.PI / 180))).
Qed.

End Symmetry.

Lemma RefMath_sin_odd (x : float) : RefMath.sin (- x) = (- RefMath.sin x)%float.
Proof.
  unfold RefMath.sin.
  assert (N : is_nan (- x) = is_nan x).
  { unfold is_nan. rewrite !eqb_spec, opp_spec.
    destruct (Prim2SF x) as [s|s| |s m e]; trivial; destruct s; trivial;
      unfold SFeqb; simpl; rewrite Z.compare_refl, Pos.compare_cont_refl;
      reflexivity. }
  assert (I : is_infinity (- x) = is_infinity x).
  { unfold is_infinity. rewrite !eqb_spec, !abs_spec, opp_spec.
    now destruct (Prim2SF x) as [s|s| |s m e]. }
  assert (Z0 : ((- x) =? 0)%float = (x =? 0)%float).
  { rewrite !eqb_spec, opp_spec.
    destruct (Prim2SF x) as [s|s| |s m e]; trivial; now destruct s. }
  rewrite N, I, Z0.
  destruct (is_nan x || is_infinity x); [reflexivity|].
  destruct (x =? 0)%float; [reflexivity|].
  rewrite (opp_mul_l x (- x)), (opp_mul_r x x), opp_involutive.
  apply opp_mul_l.
Qed.

(** X11.  With a sine that is odd, as the engines' is, the distance
    from [a] to [b] is the distance from [b] to [a], bit for bit, for
    all doubles: the haversine formula only squares the sines of the
    differences. *)
Theorem distance_is_symmetric (M : MathLib) :
  (forall x, Math_sin M (- x) = (- Math_sin M x)%float) ->
  forall lat1 lon1 lat2 lon2,
    calculateDistance M lat2 lon2 lat1 lon1 =
    calculateDistance M lat1 lon1 lat2 lon2.
Proof. intros odd lat1 lon1 lat2 lon2. now apply distance_swap. Qed.

Lemma distance_is_symmetric_witness :
  calculateDistance RefMath.lib 30.2672 (-97.7431) 30.2717 (-97.7431) =
  calculateDistance RefMath.lib 30.2717 (-97.7431) 30.2672 (-97.7431).
Proof.
  apply (distance_is_symmetric RefMath.lib RefMath_sin_odd).
Defined.

(** ** The hours of a shift

    The division of two doubles with mantissas of 53 bits rounds the
    quotient to within half a unit in the last place.  Applied to an
    elapsed time and the [3600000] milliseconds of an hour, this places
    the hundredths that [toFixed(2)] shows. *)

Section Division.

Local Open Scope Z_scope.

Lemma new_location_located (d r : Z) :
  0 <= r < d -> located (new_location d r) r d.
Proof.
  intro H. split; trivial.
  unfold new_location, new_location_even, new_location_odd.
  destruct (Z.even d) eqn:Ev.
  - destruct (Z.eqb_spec r 0) as [E|NE]; trivial.
    destruct (Z.compare_spec (2 * r) d); lia.
  - destruct (Z.eqb_spec r 0) as [E|NE]; trivial.
    assert (Od : Z.odd d = true) by (now rewrite <- Z.negb_even, Ev).
    apply Z.odd_spec in Od. destruct Od as (k & ->).
    destruct (Z.compare_spec (2 * r + 1) (2 * k + 1)); lia.
Qed.

Lemma round_located (m num den : Z) (l : location) :
  located l num den ->
  (round_nearest_even m l = m \/ round_nearest_even m l = m + 1) /\
  - den <= 2 * (round_nearest_even m l * den) - 2 * (m * den + num) <= den.
Proof.
  intros [B L]. destruct l as [|[| |]]; cbn [round_nearest_even].
  - split; [now left|]. lia.
  - destruct (Z.even m); split; auto; lia.
  - split; [now left|]. lia.
  - split; [now right|]. lia.
Qed.

Lemma loc_of_record (m : Z) (l : location) :
  loc_of_shr_record (shr_record_of_loc m l) = l /\
  shr_m (shr_record_of_loc m l) = m.
Proof. now destruct l as [|[| |]]. Qed.

Lemma shr_1_located (q num den : Z) (l : location) :
  0 <= q -> located l num den ->
  exists b,
    (b = 0 \/ b = 1) /\
    q = 2 * shr_m (shr_1 (shr_record_of_loc q l)) + b /\
    located (loc_of_shr_record (shr_1 (shr_record_of_loc q l)))
      (b * den + num) (2 * den).
Proof.
  intros Hq [B L]. unfold located.
  destruct q as [|[p|p|]|p]; try lia;
    [exists 0|exists 1|exists 0|exists 1];
    destruct l as [|[| |]];
    cbn [shr_1 shr_record_of_loc loc_of_shr_record shr_m orb] in *;
    repeat split; lia.
Qed.

Lemma fexp_normal (x : Z) : -1074 <= x - 53 -> fexp prec emax x = x - 53.
Proof. unfold fexp, SpecFloat.emin, emax, prec. lia. Qed.

Lemma digits_53 (p : positive) :
  2 ^ 52 <= Zpos p < 2 ^ 53 -> Zpos (digits2_pos p) = 53.
Proof. intro H. now apply digits_unique. Qed.

(** The last step of rounding: a mantissa of 53 bits is kept, and [2^53]
    becomes [2^52] one exponent higher. *)
Lemma round_aux_finish (m1 e1 : Z) :
  2 ^ 52 <= m1 <= 2 ^ 53 -> -1074 <= e1 -> e1 + 1 <= 971 ->
  exists m k,
    (let '(mrs, e) := shr_fexp prec emax m1 e1 loc_Exact in
     match shr_m mrs with
     | 0 => S754_zero false
     | Zpos m => if e <=? emax - prec then S754_finite false m e
                 else S754_infinity false
     | Zneg _ => S754_nan
     end) = S754_finite false m (e1 + k) /\
    0 <= k <= 1 /\ 2 ^ 52 <= Zpos m < 2 ^ 53 /\ Zpos m * 2 ^ k = m1.
Proof.
  intros [L U] He Hmax.
  destruct (Z.eq_dec m1 (2 ^ 53)) as [->|NE].
  - exists (2 ^ 52)%positive, 1. unfold shr_fexp.
    change (Zdigits2 (2 ^ 53)) with 54.
    rewrite fexp_normal by lia.
    replace (54 + e1 - 53 - e1) with 1 by lia.
    cbn [shr shr_record_of_loc iter_pos]. simpl shr_1. cbn [shr_m].
    destruct (Z.leb_spec (e1 + 1) (emax - prec)) as [_|H];
      [|unfold emax, prec in H; lia].
    split; [reflexivity|]. split; [lia|]. split; [lia|reflexivity].
  - destruct m1 as [|p|p]; try lia.
    exists p, 0. unfold shr_fexp. simpl Zdigits2.
    rewrite (digits_53 p) by lia. rewrite fexp_normal by lia.
    replace (53 + e1 - 53 - e1) with 0 by lia.
    cbn [shr shr_record_of_loc shr_m].
    destruct (Z.leb_spec e1 (emax - prec)) as [_|H];
      [|unfold emax, prec in H; lia].
    rewrite Z.add_0_r. split; [reflexivity|]. split; [lia|]. split; lia.
Qed.

(** A quotient of between 53 and 54 bits and its remainder, rounded. *)
Lemma round_aux_quotient (q r d e' : Z) :
  2 ^ 52 <= q < 2 ^ 54 -> 0 <= r < d -> -1074 <= e' -> e' + 2 <= 971 ->
  exists m k,
    binary_round_aux prec emax false q e' (new_location d r) =
    S754_finite false m (e' + k) /\
    0 <= k <= 2 /\ 2 ^ 52 <= Zpos m < 2 ^ 53 /\
    - (2 ^ k * d) <= 2 * (Zpos m * 2 ^ k * d) - 2 * (q * d + r) <= 2 ^ k * d.
Proof.
  intros [Lq Uq] Hr He Hmax.
  pose proof (new_location_located d r Hr) as Loc.
  unfold binary_round_aux.
  destruct q as [|pq|pq]; try lia.
  destruct (Z_lt_le_dec (Zpos pq) (2 ^ 53)) as [Small|Big].
  - (* 53 bits: no shift *)
    unfold shr_fexp at 1. simpl Zdigits2.
    rewrite (digits_53 pq) by lia. rewrite fexp_normal by lia.
    replace (53 + e' - 53 - e') with 0 by lia. cbn [shr].
    destruct (loc_of_record (Zpos pq) (new_location d r)) as [-> ->].
    destruct (round_located (Zpos pq) r d _ Loc) as [Step Err].
    destruct (round_aux_finish (round_nearest_even (Zpos pq) (new_location d r)) e')
      as (m & k & E & Hk & Hm & V); try lia.
    exists m, k. rewrite E. split; [reflexivity|]. split; [lia|].
    split; [exact Hm|].
    rewrite V.
    assert (1 <= 2 ^ k) by (apply Z.pow_le_mono_r with (b := 0); lia).
    nia.
  - (* 54 bits: one shift *)
    unfold shr_fexp at 1. simpl Zdigits2.
    assert (D54 : Zpos (digits2_pos pq) = 54) by (apply digits_unique; lia).
    rewrite D54, fexp_normal by lia.
    replace (54 + e' - 53 - e') with 1 by lia. cbn [shr iter_pos].
    destruct (shr_1_located (Zpos pq) r d _ ltac:(lia) Loc)
      as (b & Hb & Hq & Loc1).
    set (mrs := shr_1 (shr_record_of_loc (Zpos pq) (new_location d r))) in *.
    destruct (round_located (shr_m mrs) (b * d + r) (2 * d) _ Loc1)
      as [Step Err].
    destruct (round_aux_finish
                (round_nearest_even (shr_m mrs) (loc_of_shr_record mrs))
                (e' + 1))
      as (m & k & E & Hk & Hm & V); try lia.
    exists m, (1 + k). rewrite E. split; [f_equal; lia|]. split; [lia|].
    split; [exact Hm|].
    rewrite Z.pow_add_r by lia. change (2 ^ 1) with 2.
    assert (1 <= 2 ^ k) by (apply Z.pow_le_mono_r with (b := 0); lia).
    revert Err. rewrite <- V. rewrite Hq.
    generalize (shr_m mrs). generalize (2 ^ k) H. intros; nia.
Qed.

Lemma div_normal (mx my : positive) (ex ey : Z) :
  2 ^ 52 <= Zpos mx < 2 ^ 53 -> 2 ^ 52 <= Zpos my < 2 ^ 53 ->
  -1074 <= ex - ey - 53 -> ex - ey - 51 <= 971 ->
  exists m k,
    SFdiv prec emax (S754_finite false mx ex) (S754_finite false my ey) =
    S754_finite false m (ex - ey - 53 + k) /\
    0 <= k <= 2 /\ 2 ^ 52 <= Zpos m < 2 ^ 53 /\
    - (2 ^ k * Zpos my)
    <= 2 * (Zpos m * 2 ^ k * Zpos my) - 2 * (Zpos mx * 2 ^ 53)
    <= 2 ^ k * Zpos my.
Proof.
  intros Hx Hy Lo Hi.
  cbn [SFdiv xorb]. unfold SFdiv_core_binary. cbn [Zdigits2].
  rewrite (digits_53 mx Hx), (digits_53 my Hy).
  replace (53 + ex - (53 + ey)) with (ex - ey) by lia.
  rewrite fexp_normal by lia. rewrite Z.min_l by lia.
  replace (ex - ey - (ex - ey - 53)) with 53 by lia.
  cbv beta iota zeta.
  rewrite Z.shiftl_mul_pow2 by lia.
  pose proof (Z_div_mod (Zpos mx * 2 ^ 53) (Zpos my) ltac:(lia)) as DM.
  destruct (Z.div_eucl (Zpos mx * 2 ^ 53) (Zpos my)) as [q r].
  destruct DM as [DM Hr].
  assert (Hq : 2 ^ 52 <= q < 2 ^ 54).
  { change (2 ^ 52) with 4503599627370496 in *.
    change (2 ^ 53) with 9007199254740992 in *.
    change (2 ^ 54) with 18014398509481984 in *. nia. }
  destruct (round_aux_quotient q r (Zpos my) (ex - ey - 53) Hq Hr Lo
              ltac:(lia)) as (m & k & E & Hk & Hm & Err).
  exists m, k. rewrite E. split; [reflexivity|]. split; [exact Hk|].
  split; [exact Hm|].
  rewrite DM. replace (Zpos my * q + r) with (q * Zpos my + r) by lia.
  exact Err.
Qed.

End Division.

Section Hours.

Local Open Scope Z_scope.

Lemma Prim2SF_hour : Prim2SF (1000 * 60 * 60)%float =
                     S754_finite false 7730941132800000 (-31).
Proof. reflexivity. Qed.

Lemma cancel_bounds (a d w : Z) :
  0 < w -> - (d * w) <= a * w <= d * w -> - d <= a <= d.
Proof. intros Hw [L U]. split; nia. Qed.

(** The double [ms / 3600000] for a positive number of milliseconds: it
    is within half a unit in the last place of the quotient. *)
Lemma hours_quotient (ms : Z) :
  1 <= ms < 2 ^ 53 ->
  exists m e,
    Prim2SF (JS.of_Z ms / (1000 * 60 * 60))%float = S754_finite false m e /\
    -74 <= e <= -20 /\ 2 ^ 52 <= Zpos m < 2 ^ 53 /\
    -3600000 <= 2 * (Zpos m * 3600000) - 2 * (ms * 2 ^ (- e)) <= 3600000 /\
    (ms < 2 ^ 51 -> 2 ^ 22 <= 2 ^ (- e)).
Proof.
  intros [L U]. destruct ms as [|p|p]; try lia.
  destruct (of_Z_positive p U) as (MX & PX & VX).
  destruct (digits2_pos_bounds p) as [DL DU].
  set (dg := Zpos (digits2_pos p)) in *.
  assert (Hdg : 1 <= dg <= 53).
  { split; [unfold dg; lia|]. apply (Zdigits2_le (Zpos p)); lia. }
  assert (HMX : 2 ^ 52 <= Zpos MX < 2 ^ 53).
  { rewrite VX.
    assert (H52 : 2 ^ 52 = 2 ^ (dg - 1) * 2 ^ (53 - dg))
      by (rewrite <- Z.pow_add_r by lia; f_equal; lia).
    assert (H53 : 2 ^ 53 = 2 ^ dg * 2 ^ (53 - dg))
      by (rewrite <- Z.pow_add_r by lia; f_equal; lia).
    assert (0 < 2 ^ (53 - dg)) by (apply Z.pow_pos_nonneg; lia).
    split.
    - rewrite H52. apply Z.mul_le_mono_nonneg_r; lia.
    - rewrite H53. apply Z.mul_lt_mono_pos_r; lia. }
  destruct (div_normal MX 7730941132800000 (dg - 53) (-31) HMX)
    as (m & k & E & Hk & Hm & Err); try lia.
  exists m, (dg - 53 - -31 - 53 + k).
  rewrite div_spec, PX, Prim2SF_hour. split; [exact E|].
  split; [lia|]. split; [exact Hm|].
  replace (- (dg - 53 - -31 - 53 + k)) with (75 - dg - k) by lia.
  split.
  - set (P := 2 ^ (75 - dg - k)).
    set (W := 2 ^ (k + 31)).
    assert (HW : 0 < W) by (apply Z.pow_pos_nonneg; lia).
    assert (EX : Zpos MX * 2 ^ 53 = Zpos p * P * W).
    { rewrite VX. unfold P, W.
      rewrite <- !Z.mul_assoc, <- !Z.pow_add_r by lia.
      do 2 f_equal. lia. }
    assert (EY : 2 ^ k * 7730941132800000 = 3600000 * W).
    { unfold W. rewrite Z.pow_add_r by lia.
      change (2 ^ 31) with 2147483648. lia. }
    apply (cancel_bounds _ 3600000 W HW).
    rewrite <- EY.
    replace ((2 * (Zpos m * 3600000) - 2 * (Zpos p * P)) * W)
      with (2 * (Zpos m * (3600000 * W)) - 2 * (Zpos p * P * W)) by ring.
    rewrite <- EY, <- EX.
    replace (Zpos m * (2 ^ k * 7730941132800000))
      with (Zpos m * 2 ^ k * 7730941132800000) by ring.
    exact Err.
  - intro Small.
    assert (dg <= 51) by (apply (Zdigits2_le (Zpos p)); lia).
    apply Z.pow_le_mono_r; lia.
Qed.

(** The hundredths shown for a positive elapsed time. *)
Lemma hours_hundredths (ms : Z) :
  1 <= ms < 2 ^ 51 ->
  exists n,
    JS.toFixed2 (JS.of_Z ms / (1000 * 60 * 60))%float = JS.Fixed2 false n /\
    36000 * n - 18000 <= ms <= 36000 * n + 18000.
Proof.
  intros [L U].
  assert (U' : ms < 2 ^ 53) by (change (2 ^ 51) with 2251799813685248 in U;
                                change (2 ^ 53) with 9007199254740992; lia).
  destruct (hours_quotient ms (conj L U')) as (m & e & E & He & Hm & Err & HP).
  specialize (HP U).
  assert (F : exists n, JS.toFixed2 (JS.of_Z ms / (1000 * 60 * 60))%float
                        = JS.Fixed2 false n).
  { unfold JS.toFixed2. rewrite E.
    destruct (Z.leb_spec 0 e); [lia|].
    destruct (Z.leb_spec (10 ^ 21 * 2 ^ (- e)) (Zpos m)) as [Big|_].
    - assert (1 <= 2 ^ (- e)) by (apply Z.pow_le_mono_r with (b := 0); lia).
      change (10 ^ 21) with 1000000000000000000000 in Big.
      change (2 ^ 53) with 9007199254740992 in Hm. nia.
    - eexists. reflexivity. }
  destruct F as (n & F). exists n. split; [exact F|].
  destruct (toFixed2_half_up _ _ _ _ _ _ E F) as (_ & _ & Half).
  specialize (Half ltac:(lia)).
  change (2 ^ 22) with 4194304 in HP.
  revert Err Half HP. generalize (2 ^ (- e)). intros P Err Half HP.
  split; nia.
Qed.

(** Beyond [2^51] milliseconds the hundredths no longer fit five digits. *)
Lemma hours_hundredths_large (ms : Z) :
  2 ^ 51 <= ms < 2 ^ 53 ->
  exists n,
    JS.toFixed2 (JS.of_Z ms / (1000 * 60 * 60))%float = JS.Fixed2 false n /\
    100000 <= n.
Proof.
  intros [L U].
  change (2 ^ 51) with 2251799813685248 in L.
  destruct (hours_quotient ms ltac:(lia)) as (m & e & E & He & Hm & Err & _).
  assert (P1 : 1 <= 2 ^ (- e)) by (apply Z.pow_le_mono_r with (b := 0); lia).
  assert (F : exists n, JS.toFixed2 (JS.of_Z ms / (1000 * 60 * 60))%float
                        = JS.Fixed2 false n).
  { unfold JS.toFixed2. rewrite E.
    destruct (Z.leb_spec 0 e); [lia|].
    destruct (Z.leb_spec (10 ^ 21 * 2 ^ (- e)) (Zpos m)) as [Big|_].
    - change (10 ^ 21) with 1000000000000000000000 in Big.
      change (2 ^ 53) with 9007199254740992 in Hm. nia.
    - eexists. reflexivity. }
  destruct F as (n & F). exists n. split; [exact F|].
  destruct (toFixed2_half_up _ _ _ _ _ _ E F) as (_ & _ & Half).
  specialize (Half ltac:(lia)).
  revert Err Half P1. generalize (2 ^ (- e)). intros P Err Half P1.
  nia.
Qed.

(** The hundredths shown for an elapsed time, whatever its sign. *)
Lemma hours_between_ahead (t0 now : Z) :
  0 <= t0 -> t0 <= now -> now < 2 ^ 53 ->
  exists n,
    JS.toFixed2 (hours_between t0 now) = JS.Fixed2 false n /\
    0 <= n /\
    (now - t0 < 2 ^ 51 ->
     36000 * n - 18000 <= now - t0 <= 36000 * n + 18000) /\
    (2 ^ 51 <= now - t0 -> 100000 <= n).
Proof.
  intros H0 H1 H2. unfold hours_between.
  rewrite (elapsed_exact t0 now (conj H0 H1) H2).
  destruct (Z.eq_dec (now - t0) 0) as [->|NZ].
  - exists 0. split; [reflexivity|]. split; [lia|]. split; [lia|].
    change (2 ^ 51) with 2251799813685248. lia.
  - destruct (Z_lt_le_dec (now - t0) (2 ^ 51)) as [Small|Large].
    + destruct (hours_hundredths (now - t0) ltac:(lia)) as (n & F & B).
      exists n. split; [exact F|]. split; [lia|]. split; [auto|lia].
    + destruct (hours_hundredths_large (now - t0) ltac:(lia)) as (n & F & B).
      exists n. split; [exact F|]. split; [lia|]. split; [lia|auto].
Qed.

Lemma toFixed2_opp (x : float) (m : positive) (e n : Z) :
  Prim2SF x = S754_finite false m e ->
  JS.toFixed2 x = JS.Fixed2 false n ->
  JS.toFixed2 (- x)%float = JS.Fixed2 true n.
Proof.
  intros E. unfold JS.toFixed2. rewrite opp_spec, E. cbn [SFopp negb].
  destruct (0 <=? e); destruct (_ <=? _); congruence.
Qed.

Lemma hours_between_behind (t0 now : Z) :
  0 <= now -> now < t0 -> t0 < 2 ^ 53 ->
  exists n,
    JS.toFixed2 (hours_between t0 now) = JS.Fixed2 true n /\
    0 <= n /\
    (t0 - now < 2 ^ 51 ->
     36000 * n - 18000 <= t0 - now <= 36000 * n + 18000) /\
    (2 ^ 51 <= t0 - now -> 100000 <= n).
Proof.
  intros H0 H1 H2.
  destruct (hours_between_ahead now t0 H0 ltac:(lia) H2) as (n & F & Rest).
  exists n. split; [|exact Rest].
  unfold hours_between in *.
  destruct (hours_quotient (t0 - now) ltac:(lia)) as (m & e & E & _).
  rewrite <- (elapsed_exact now t0 ltac:(lia) H2) in E.
  destruct (sub_swap (JS.of_Z now) (JS.of_Z t0)) as [Sw|[_ Z0]].
  - assert (Sw' : (JS.of_Z now - JS.of_Z t0 = - (JS.of_Z t0 - JS.of_Z now))%float).
    { rewrite Sw. now rewrite opp_involutive. }
    rewrite Sw', opp_div_l. now apply (toFixed2_opp _ m e).
  - rewrite Z0 in E. discriminate E.
Qed.

End Hours.

Lemma half_up_of_nearest (ms n : Z) :
  (0 <= ms -> 36000 * n - 18000 <= ms <= 36000 * n + 18000 ->
   ms mod 36000 <> 18000 -> n = exact_hours_half_up ms)%Z.
Proof.
  intros H0 B T. unfold exact_hours_half_up.
  pose proof (Z.div_mod ms 36000 ltac:(lia)) as D1.
  pose proof (Z.mod_pos_bound ms 36000 ltac:(lia)) as B1.
  pose proof (Z.div_mod (ms + 18000) 36000 ltac:(lia)) as D2.
  pose proof (Z.mod_pos_bound (ms + 18000) 36000 ltac:(lia)) as B2.
  lia.
Qed.

(** X12.  The hours a check-out answered 200 shows and records are a
    nearest hundredth of an hour to the elapsed time, counted from the
    check-in time as the driver hands it to the route: with the route's
    clock at or after the check-in time (instants from 1970 on), the
    hundredths [n] satisfy [|elapsed - 36000 n| <= 18000] milliseconds,
    and they are the elapsed time rounded half up unless it falls on a
    tie (a multiple of 36 s plus 18 s), where either neighbour may come
    out.  With the route's clock behind the check-in time, which the
    database's clock stamped, the same holds of the time by which it is
    behind, and the hours recorded are the opposite of [n]: they are
    negative as soon as the clocks differ by more than 18 s. *)
Theorem recorded_hours_are_a_nearest_hundredth env db req row shown db' :
  checkout_handler env db req = (CheckedOut row shown, db') ->
  exists c r n,
    In c (checkins db) /\ checkout_time c = None /\
    row = Some r /\ id r = id c /\ (n < 100000)%Z /\
    ((0 <= as_date env (checkin_time c) <= js_now env)%Z -> (js_now env < 2 ^ 53)%Z ->
     shown = JS.Fixed2 false n /\ hours_worked r = Some n /\
     (36000 * n - 18000 <= js_now env - as_date env (checkin_time c)
      <= 36000 * n + 18000)%Z /\
     (((js_now env - as_date env (checkin_time c)) mod 36000)%Z <> 18000%Z ->
      n = exact_hours_half_up (js_now env - as_date env (checkin_time c)))) /\
    ((0 <= js_now env < as_date env (checkin_time c))%Z -> (as_date env (checkin_time c) < 2 ^ 53)%Z ->
     shown = JS.Fixed2 true n /\ hours_worked r = Some (- n)%Z /\
     (36000 * n - 18000 <= as_date env (checkin_time c) - js_now env
      <= 36000 * n + 18000)%Z).
Proof.
  intro H.
  destruct (checkout_hours env db req row shown db' H)
    as (c & r & neg & n & Hc & Hopen & Shown & Fix & Lt & Hr & _ & Hid & Hh).
  exists c, r, n. do 5 (split; [assumption|]). split.
  - intros Ht Hn.
    destruct (hours_between_ahead (as_date env (checkin_time c)) (js_now env))
      as (n' & F & _ & Small & Large); try lia.
    assert (neg = false /\ n' = n) as [-> ->] by (split; congruence).
    assert (Near : (36000 * n - 18000 <= js_now env - as_date env (checkin_time c)
                    <= 36000 * n + 18000)%Z).
    { destruct (Z_lt_le_dec (js_now env - as_date env (checkin_time c)) (2 ^ 51)); [auto|].
      specialize (Large ltac:(lia)). lia. }
    split; [exact Fix|]. split; [exact Hh|]. split; [exact Near|].
    intro Tie. apply half_up_of_nearest; trivial. lia.
  - intros Ht Hn.
    destruct (hours_between_behind (as_date env (checkin_time c)) (js_now env))
      as (n' & F & _ & Small & Large); try lia.
    assert (neg = true /\ n' = n) as [-> ->] by (split; congruence).
    split; [exact Fix|]. split; [exact Hh|].
    destruct (Z_lt_le_dec (as_date env (checkin_time c) - js_now env) (2 ^ 51)); [auto|].
    specialize (Large ltac:(lia)). lia.
Qed.

Lemma recorded_hours_are_a_nearest_hundredth_witness :
  exists c r n,
    In c (checkins Sample.alice_in) /\ checkout_time c = None /\
    fst (fst (checkout_handler_parts (Sample.at_time (Sample.T + 54000))
                Sample.alice_in Sample.leaving)) = Some r /\
    id r = id c /\ (n < 100000)%Z /\
    ((0 <= as_date (Sample.at_time (Sample.T + 54000)) (checkin_time c) <= js_now (Sample.at_time (Sample.T + 54000)))%Z ->
     (js_now (Sample.at_time (Sample.T + 54000)) < 2 ^ 53)%Z ->
     snd (fst (checkout_handler_parts (Sample.at_time (Sample.T + 54000))
                 Sample.alice_in Sample.leaving)) = JS.Fixed2 false n /\
     hours_worked r = Some n /\
     (36000 * n - 18000
      <= js_now (Sample.at_time (Sample.T + 54000)) - as_date (Sample.at_time (Sample.T + 54000)) (checkin_time c)
      <= 36000 * n + 18000)%Z /\
     (((js_now (Sample.at_time (Sample.T + 54000)) - as_date (Sample.at_time (Sample.T + 54000)) (checkin_time c))
         mod 36000)%Z <> 18000%Z ->
      n = exact_hours_half_up
            (js_now (Sample.at_time (Sample.T + 54000)) - as_date (Sample.at_time (Sample.T + 54000)) (checkin_time c)))) /\
    ((0 <= js_now (Sample.at_time (Sample.T + 54000)) < as_date (Sample.at_time (Sample.T + 54000)) (checkin_time c))%Z ->
     (as_date (Sample.at_time (Sample.T + 54000)) (checkin_time c) < 2 ^ 53)%Z ->
     snd (fst (checkout_handler_parts (Sample.at_time (Sample.T + 54000))
                 Sample.alice_in Sample.leaving)) = JS.Fixed2 true n /\
     hours_worked r = Some (- n)%Z /\
     (36000 * n - 18000
      <= as_date (Sample.at_time (Sample.T + 54000)) (checkin_time c) - js_now (Sample.at_time (Sample.T + 54000))
      <= 36000 * n + 18000)%Z).
Proof.
  apply (recorded_hours_are_a_nearest_hundredth
           (Sample.at_time (Sample.T + 54000)) Sample.alice_in Sample.leaving
           _ _
           (snd (checkout_handler (Sample.at_time (Sample.T + 54000))
                   Sample.alice_in Sample.leaving))).
  vm_compute. reflexivity.
Defined.

(** X13.  A shift cannot be closed once it has lasted a thousand hours:
    when the route's clock is more than 999.995 hours after the check-in
    time of the open shift, as the driver hands it to the route
    (instants from 1970 on), the hours do not fit
    [hours_worked DECIMAL(5,2)], the check-out answers 500 "Check-out
    failed" and the shift stays open; below 999.995 hours the hours fit
    the column. *)
Theorem checkout_fails_from_a_thousand_hours env db req w c rest :
  missing (co_gpsLat req) || missing (co_gpsLng req) = false ->
  worker_of db (co_user_id req) = Some w ->
  select_open_latest db w = c :: rest ->
  (0 <= as_date env (checkin_time c) <= js_now env)%Z -> (js_now env < 2 ^ 53)%Z ->
  ((3599982000 < js_now env - as_date env (checkin_time c))%Z ->
   checkout_handler env db req = (ServerError "Check-out failed", db)) /\
  ((js_now env - as_date env (checkin_time c) < 3599982000)%Z ->
   exists hours,
     decimal_5_2 (JS.toFixed2 (hours_between (as_date env (checkin_time c)) (js_now env)))
     = Some hours /\ (0 <= hours <= 99999)%Z).
Proof.
  intros Hm Hw Hc Ht Hn.
  unfold checkout_handler. rewrite Hm.
  unfold worker_of in Hw.
  destruct (select_worker_ids db (co_user_id req)) as [|w1 ws]; [discriminate|].
  injection Hw as ->. rewrite Hc.
  fold (hours_between (as_date env (checkin_time c)) (js_now env)).
  destruct (hours_between_ahead (as_date env (checkin_time c)) (js_now env))
    as (n & F & Pos & Small & Large); try lia.
  rewrite F. unfold decimal_5_2.
  change (2 ^ 51)%Z with 2251799813685248%Z in *.
  split; intro B.
  - destruct (Z.ltb_spec n 100000) as [Lt|_]; trivial.
    destruct (Z_lt_le_dec (js_now env - as_date env (checkin_time c)) 2251799813685248); lia.
  - destruct (Z.ltb_spec n 100000) as [_|Ge].
    + exists n. cbn [cond_Zopp]. split; [reflexivity|lia].
    + specialize (Small ltac:(lia)). lia.
Qed.

Lemma checkout_fails_from_a_thousand_hours_witness :
  checkout_handler (Sample.at_time (Sample.T + 3600000000)) Sample.alice_in
    Sample.leaving = (ServerError "Check-out failed", Sample.alice_in).
Proof.
  refine (proj1 (checkout_fails_from_a_thousand_hours
                   (Sample.at_time (Sample.T + 3600000000)) Sample.alice_in
                   Sample.leaving 7 Scenario.alice_shift [] _ _ _ _ _) _).
  - vm_compute. reflexivity.
  - vm_compute. reflexivity.
  - vm_compute. reflexivity.
  - vm_compute. split; discriminate.
  - vm_compute. reflexivity.
  - vm_compute. reflexivity.
Defined.

(** ** The radius of a geofence *)

Section Radius.

Local Open Scope Z_scope.

(** The double of a negative integer above [-2^53]. *)
Lemma of_Z_negative (p : positive) :
  Zpos p < 2 ^ 53 ->
  exists M e, Prim2SF (JS.of_Z (Zneg p)) = S754_finite true M e.
Proof.
  intro B.
  assert (D : Zpos (digits2_pos p) <= 53)
    by (apply (Zdigits2_le (Zpos p)); lia).
  assert (P : 0 < Zpos p * 2 ^ (53 - Zpos (digits2_pos p))).
  { apply Z.mul_pos_pos; [lia|]. apply Z.pow_pos_nonneg; lia. }
  destruct (Zpos p * 2 ^ (53 - Zpos (digits2_pos p))) as [|M|M] eqn:EM;
    try lia.
  exists M, (Zpos (digits2_pos p) - 53).
  unfold JS.of_Z. cbn [binary_normalize].
  assert (R : binary_round prec emax true p 0 =
              S754_finite true M (Zpos (digits2_pos p) - 53)).
  { apply binary_round_exact.
    - unfold fexp, SpecFloat.emin, emax, prec. lia.
    - lia.
    - lia.
    - rewrite <- EM. rewrite <- Z.mul_assoc, <- Z.pow_add_r by lia.
      do 2 f_equal. lia. }
  rewrite R. apply Prim2SF_SF2Prim.
  unfold valid_binary, bounded, canonical_mantissa.
  rewrite (digits_shift p M (53 - Zpos (digits2_pos p))) by (auto; lia).
  apply andb_true_iff. split.
  - apply Z.eqb_eq. unfold fexp, SpecFloat.emin, emax, prec. lia.
  - apply Z.leb_le. unfold emax, prec. lia.
Qed.

Lemma negative_below_distance (r d : float) (m : positive) (e : Z) :
  Prim2SF r = S754_finite true m e ->
  is_nan d = false -> (d <? 0)%float = false -> (r <? d)%float = true.
Proof.
  intros Er Nan Neg. apply ltb_zero_notneg in Neg.
  unfold is_nan in Nan. rewrite eqb_spec in Nan.
  rewrite ltb_spec, Er. unfold SFltb, SFeqb in *.
  destruct (Prim2SF d) as [s|[|]| |[|] md ed]; cbn in *;
    try discriminate; try tauto.
Qed.

Lemma positive_not_below_zero (r : float) (m : positive) (e : Z) :
  Prim2SF r = S754_finite false m e -> (r <? 0)%float = false.
Proof. intro Er. rewrite ltb_spec, Er. reflexivity. Qed.

End Radius.

(** A check-in that passes the required-fields check, by a user with a
    worker profile, at an existing site: what the geofence block makes
    of it decides the answer. *)
Lemma checkin_at_site M env db req gpsLat gpsLng w p :
  missing_id (ci_projectId req) = false ->
  ci_gpsLat req = Some gpsLat -> JS.truthy gpsLat = true ->
  ci_gpsLng req = Some gpsLng -> JS.truthy gpsLng = true ->
  worker_of db (ci_user_id req) = Some w ->
  site_of db req = Some p ->
  (forall d r,
      geofence_violation M p gpsLat gpsLng = Some (d, r) ->
      checkin_handler M env db req = (Forbidden (JS.round d) r, db)) /\
  (geofence_violation M p gpsLat gpsLng = None ->
   (forall distance maxDistance,
       fst (checkin_handler M env db req) <> Forbidden distance maxDistance) /\
   (select_open db w = [] ->
    decimal_column env 10 gpsLat <> None ->
    decimal_column env 11 gpsLng <> None ->
    exists row db',
      checkin_handler M env db req = (Created row, db') /\
      checkins db' = checkins db ++ [row])).
Proof.
  intros Hid Hlat Tlat Hlng Tlng Hw Hsite.
  unfold worker_of in Hw. apply hd_error_cons in Hw as [ws Hws].
  unfold site_of in Hsite. unfold checkin_handler.
  destruct (ci_projectId req) as [pid|]; [|discriminate].
  apply hd_error_cons in Hsite as [ps Hps].
  rewrite Hlat, Hlng. unfold missing. rewrite Hid, Tlat, Tlng. simpl.
  rewrite Hws, Hps. split.
  - now intros d r ->.
  - intros ->. split.
    + intros distance maxDistance.
      destruct (select_open db w); [|discriminate].
      destruct (decimal_column env 10 gpsLat), (decimal_column env 11 gpsLng);
        discriminate.
    + intros -> Dlat Dlng.
      destruct (decimal_column env 10 gpsLat) as [lat|]; [|now elim Dlat].
      destruct (decimal_column env 11 gpsLng) as [lng|]; [|now elim Dlng].
      eexists. eexists. split; reflexivity.
Qed.

(** X19.  At a site with a registered coordinate, for a check-in that
    passes the required-fields check, by a user with a worker profile,
    with a Math library as ECMAScript describes it: the radius the
    geofence uses decides two extreme cases.  When it is positive (as
    the default of 100 is), a check-in that reports the registered
    coordinate itself is at distance zero: it is never answered with a
    geofence violation, and it is admitted when the worker has no open
    shift and the columns take the coordinate.  When the radius is
    negative, which neither the schema nor the route excludes, every
    check-in whose distance is a number is answered with a geofence
    violation that carries the distance rounded and the radius, and
    writes nothing: no distance is below a negative radius. *)
Theorem geofence_radius_edge_cases M env db req gpsLat gpsLng w p plat plng :
  EcmaMath M ->
  missing_id (ci_projectId req) = false ->
  ci_gpsLat req = Some gpsLat -> JS.truthy gpsLat = true ->
  ci_gpsLng req = Some gpsLng -> JS.truthy gpsLng = true ->
  worker_of db (ci_user_id req) = Some w ->
  site_of db req = Some p ->
  gps_latitude p = Some plat -> gps_longitude p = Some plng ->
  (- 2 ^ 53 < maxDistance_of p < 2 ^ 53)%Z ->
  let d :=
    calculateDistance M (JS.parseFloat gpsLat) (JS.parseFloat gpsLng)
      plat plng in
  ((0 < maxDistance_of p)%Z ->
   valid_coordinate (JS.parseFloat gpsLat) (JS.parseFloat gpsLng) = true ->
   valid_coordinate plat plng = true ->
   (JS.parseFloat gpsLat =? plat)%float = true ->
   (JS.parseFloat gpsLng =? plng)%float = true ->
   d = 0%float /\
   (forall distance maxDistance,
       fst (checkin_handler M env db req) <> Forbidden distance maxDistance) /\
   (select_open db w = [] ->
    decimal_column env 10 gpsLat <> None ->
    decimal_column env 11 gpsLng <> None ->
    exists row db',
      checkin_handler M env db req = (Created row, db') /\
      checkins db' = checkins db ++ [row])) /\
  ((maxDistance_of p < 0)%Z ->
   is_nan d = false ->
   checkin_handler M env db req =
   (Forbidden (JS.round d) (maxDistance_of p), db)).
Proof.
  intros ecma Hid Hlat Tlat Hlng Tlng Hw Hsite Hplat Hplng Range d.
  destruct (checkin_at_site M env db req gpsLat gpsLng w p
              Hid Hlat Tlat Hlng Tlng Hw Hsite) as [Refused Passed].
  assert (G : geofence_violation M p gpsLat gpsLng =
              if (JS.of_Z (maxDistance_of p) <? d)%float
              then Some (d, maxDistance_of p)
              else None).
  { unfold geofence_violation. now rewrite Hplat, Hplng. }
  split; intro Sign.
  - intros V1 V2 E1 E2.
    assert (Zero : d = 0%float)
      by (apply (distance_of_equal M ecma _ _ _ _ V1 V2 E1 E2)).
    split; [exact Zero|]. apply Passed. rewrite G, Zero.
    destruct (maxDistance_of p) as [|q|q]; try lia.
    destruct (of_Z_positive q ltac:(lia)) as (m & E & _).
    now rewrite (positive_not_below_zero _ _ _ E).
  - intro Nan. apply Refused. rewrite G.
    destruct (maxDistance_of p) as [|q|q]; try lia.
    destruct (of_Z_negative q ltac:(lia)) as (m & e & E).
    rewrite (negative_below_distance _ _ m e E Nan); [reflexivity|].
    apply (distance_not_negative M ecma).
Qed.

Lemma geofence_radius_edge_cases_witness :
  (exists row db',
      checkin_handler RefMath.lib (Sample.at_time Sample.T) Sample.empty
        Sample.on_site = (Created row, db') /\
      checkins db' = checkins Sample.empty ++ [row]) /\
  checkin_handler RefMath.lib (Sample.at_time Sample.T) Scenario.inverted_site
    Scenario.on_inverted_site =
  (Forbidden
     (JS.round (calculateDistance RefMath.lib 30.2672 (-97.7431) 30.2672
                  (-97.7431)))
     (-5), Scenario.inverted_site).
Proof.
  split.
  - destruct (geofence_radius_edge_cases RefMath.lib (Sample.at_time Sample.T)
                Sample.empty Sample.on_site (JS.Number 30.2672)
                (JS.Number (-97.7431)) 7 Sample.riverside 30.2672 (-97.7431)
                RefMath_ecma eq_refl eq_refl eq_refl eq_refl eq_refl eq_refl
                eq_refl eq_refl eq_refl) as [Positive _].
    { vm_compute. split; reflexivity. }
    destruct Positive as (_ & _ & Accepted);
      try (vm_compute; reflexivity).
    apply Accepted; [reflexivity | discriminate | discriminate].
  - destruct (geofence_radius_edge_cases RefMath.lib (Sample.at_time Sample.T)
                Scenario.inverted_site Scenario.on_inverted_site
                (JS.Number 30.2672) (JS.Number (-97.7431)) 7
                Scenario.inverted 30.2672 (-97.7431)
                RefMath_ecma eq_refl eq_refl eq_refl eq_refl eq_refl eq_refl
                eq_refl eq_refl eq_refl) as [_ Negative].
    { vm_compute. split; reflexivity. }
    apply Negative; vm_compute; reflexivity.
Defined.

(** * Properties of the photo routes *)

Section PhotoFacts.

Variable ai : string -> string -> string * list string.
Variable at_path : string -> string.

Local Open Scope string_scope.
Local Open Scope list_scope.

Lemma flags_or_null_not_empty (flags : list string) :
  flags_or_null flags <> Some [].
Proof. now destruct flags. Qed.

(** An upload either leaves the tables as they were, the sequence of
    [photos] at most advanced, or appends one photo of a valid type for
    an existing worker and task. *)
Lemma upload_effect env a req :
  (ledger (snd (upload_handler ai env a req)) = ledger a /\
   tasks (snd (upload_handler ai env a req)) = tasks a /\
   photos (snd (upload_handler ai env a req)) = photos a /\
   (photos_id_seq a <= photos_id_seq (snd (upload_handler ai env a req)))%Z /\
   forall row, fst (upload_handler ai env a req) <> PhotoCreated row) \/
  exists row,
    upload_handler ai env a req =
    (PhotoCreated row,
     {| ledger := ledger a; tasks := tasks a; photos := photos a ++ [row];
        photos_id_seq := (photos_id_seq a + 1)%Z |}) /\
    photo_id row = photos_id_seq a /\
    is_photo_type (photo_type row) = true /\
    ai_safety_flags row <> Some [] /\
    photo_has_worker a row = true /\
    photo_has_task a row = true.
Proof.
  assert (Same : forall r : photo_response,
             (forall row, r <> PhotoCreated row) ->
             ledger a = ledger a /\ tasks a = tasks a /\
             photos a = photos a /\ (photos_id_seq a <= photos_id_seq a)%Z /\
             forall row, r <> PhotoCreated row)
    by (intros r Hr; repeat split; trivial; lia).
  unfold upload_handler.
  destruct (up_file req) as [file|]; [|left; now apply Same].
  destruct (up_taskId req) as [taskId|]; [|left; now apply Same].
  destruct (up_photoType req) as [photoType|]; [|left; now apply Same].
  destruct (blank _); [left; now apply Same|].
  destruct (is_photo_type photoType) eqn:Ty; [|left; now apply Same].
  cbn [negb].
  destruct (select_worker_ids (ledger a) (up_user_id req)) as [|w ws] eqn:Hw;
    [left; now apply Same|].
  assert (Worker : exists r, In r (workers (ledger a)) /\ worker_id r = w).
  { apply (select_worker_ids_In (ledger a) (up_user_id req)).
    rewrite Hw. now left. }
  destruct (if up_analyzeWithAI req then _ else _) as [analysis flags].
  unfold insert_photo.
  destruct (existsb (Z.eqb taskId) (tasks a)) eqn:Task.
  2:{ left. cbn. repeat split; trivial; [lia|discriminate]. }
  right. eexists. split; [reflexivity|]. cbn.
  repeat split; trivial.
  - apply flags_or_null_not_empty.
  - destruct Worker as (r & Hr & Er). unfold photo_has_worker. cbn.
    apply existsb_exists. exists r. split; trivial. now apply Z.eqb_eq.
Qed.

Lemma well_formed_photo_tables (a a' : archive) (p : photo) :
  ledger a' = ledger a -> tasks a' = tasks a ->
  (photos_id_seq a <= photos_id_seq a')%Z ->
  well_formed_photo a p -> well_formed_photo a' p.
Proof.
  unfold well_formed_photo, photo_has_worker, photo_has_task.
  intros -> -> Hs (H1 & H2 & H3 & H4 & H5). repeat split; trivial. lia.
Qed.

Lemma photo_step_well_formed a a' :
  well_formed_photos a -> photo_step ai at_path a a' -> well_formed_photos a'.
Proof.
  intros [WF ND] Hstep. destruct Hstep as [env a req|a t|a pid|a pid|a pid].
  - destruct (upload_effect env a req)
      as [(Hl & Htk & Hph & Hseq & _)|(row & -> & Hid & Ty & Fl & Hw & Ht)].
    { unfold well_formed_photos. rewrite Hph. split; trivial.
      eapply Forall_impl; [|exact WF]. intros p.
      now apply well_formed_photo_tables. }
    split; cbn.
    + apply Forall_app. split.
      * eapply Forall_impl; [|exact WF]. intros p.
        apply well_formed_photo_tables; cbn; trivial. lia.
      * repeat constructor; trivial. cbn. lia.
    + rewrite map_app. cbn. apply NoDup_snoc; trivial.
      rewrite in_map_iff. intros (p & E & Hp).
      rewrite Forall_forall in WF. destruct (WF p Hp) as (_ & _ & _ & _ & Lt).
      lia.
  - now split.
  - unfold photo_handler. destruct (filter _ _); now split.
  - unfold analyze_handler.
    destruct (filter _ _) as [|p ps]; [now split|].
    destruct (ai _ _) as [analysis flags].
    unfold well_formed_photos, update_analysis. cbn [snd photos]. split.
    + rewrite Forall_map. eapply Forall_impl; [|exact WF].
      intros q (H1 & H2 & H3 & H4 & H5).
      destruct (photo_id q =? pid)%Z; [|repeat split; trivial].
      repeat split; trivial. cbn. apply flags_or_null_not_empty.
    + rewrite map_map. erewrite map_ext; [exact ND|].
      intro q. now destruct (photo_id q =? pid)%Z.
  - unfold delete_handler.
    destruct (filter (fun p => (photo_id p =? pid)%Z) (photos a)) as [|p ps];
      [now split|].
    cbn. split.
    + apply Forall_forall. intros q Hq. apply filter_In in Hq.
      rewrite Forall_forall in WF. now apply WF.
    + clear WF. induction (photos a) as [|q l IH]; cbn; [constructor|].
      inversion ND as [|? ? Hnot ND']; subst.
      destruct (photo_id q =? pid)%Z; cbn; [now apply IH|].
      constructor; [|now apply IH].
      rewrite in_map_iff. intros (x & E & Hx). apply filter_In in Hx.
      apply Hnot. rewrite <- E. now apply in_map.
Qed.

Lemma photo_reachable_well_formed a :
  photo_reachable ai at_path a -> well_formed_photos a.
Proof.
  intros (a0 & Hempty & Hsteps).
  induction Hsteps as [|a1 a2 _ IH Hstep].
  - unfold well_formed_photos. rewrite Hempty. split; constructor.
  - eapply photo_step_well_formed; eauto.
Qed.

(** X14.  In every archive the photo routes reach from one without
    photos, the photos have distinct identifiers, and every photo has
    one of the three types [before], [during], [after] (the upload
    refuses any other), never an empty array of safety flags (the
    column is [NULL] instead), a worker that exists and a task that
    exists. *)
Theorem stored_photos_are_well_formed a :
  photo_reachable ai at_path a ->
  NoDup (map photo_id (photos a)) /\
  forall p, In p (photos a) ->
    (photo_type p = "before" \/ photo_type p = "during" \/
     photo_type p = "after")%string /\
    ai_safety_flags p <> Some [] /\
    (exists w, In w (workers (ledger a)) /\ worker_id w = photo_worker_id p) /\
    In (photo_task_id p) (tasks a).
Proof.
  intro R. destruct (photo_reachable_well_formed a R) as [WF ND].
  split; trivial. intros p Hp. rewrite Forall_forall in WF.
  destruct (WF p Hp) as (Ty & Fl & Hw & Ht & _).
  split; [|split; [exact Fl|split]].
  - unfold is_photo_type in Ty. cbn [existsb] in Ty.
    rewrite !orb_true_iff, !String.eqb_eq in Ty. intuition discriminate.
  - unfold photo_has_worker in Hw. apply existsb_exists in Hw.
    destruct Hw as (w & Hin & E). exists w. split; trivial.
    now apply Z.eqb_eq.
  - unfold photo_has_task in Ht. apply existsb_exists in Ht.
    destruct Ht as (t & Hin & E). apply Z.eqb_eq in E. now subst.
Qed.









(** X16.  In every archive the photo routes reach, a photo just
    uploaded is the one [GET /:id] returns for its identifier; deleting
    it answers 200 and leaves the photos as they were before the upload;
    after that both [GET /:id] and a second [DELETE /:id] answer 404
    "Photo not found". *)
Theorem photo_upload_lookup_delete env a req row a' :
  photo_reachable ai at_path a ->
  upload_handler ai env a req = (PhotoCreated row, a') ->
  photo_handler a' (photo_id row) = (OnePhoto row, a') /\
  exists a'',
    delete_handler a' (photo_id row) = (PhotoDeleted, a'') /\
    photos a'' = photos a /\
    photo_handler a'' (photo_id row) = (PhotoNotFound "Photo not found", a'') /\
    delete_handler a'' (photo_id row) = (PhotoNotFound "Photo not found", a'').
Proof.
  intros R H. destruct (photo_reachable_well_formed a R) as [WF _].
  rewrite Forall_forall in WF.
  destruct (upload_effect env a req)
    as [(_ & _ & _ & _ & No)|(r & E & Hid & _ & _ & Hw & Ht)].
  { rewrite H in No. now elim (No row). }
  rewrite H in E. injection E as <- ->.
  assert (Old : forall p, In p (photos a) -> (photo_id p =? photo_id row)%Z = false).
  { intros p Hp. apply Z.eqb_neq. destruct (WF p Hp) as (_ & _ & _ & _ & Lt).
    lia. }
  assert (F0 : forall f g : photo -> bool,
             filter (fun p => (photo_id p =? photo_id row)%Z && f p && g p)
               (photos a) = []).
  { intros f g. apply filter_none. intros p Hp. now rewrite (Old p Hp). }
  assert (F1 : filter (fun p => (photo_id p =? photo_id row)%Z) (photos a) = []).
  { apply filter_none. exact Old. }
  assert (F2 : filter (fun p => negb (photo_id p =? photo_id row)%Z) (photos a)
               = photos a).
  { apply filter_all. intros p Hp. now rewrite (Old p Hp). }
  split.
  - unfold photo_handler. cbn [photos]. rewrite filter_app.
    rewrite (F0 (photo_has_worker _) (photo_has_task _)).
    cbn [filter app]. rewrite Z.eqb_refl.
    unfold photo_has_worker, photo_has_task in *. cbn [ledger tasks].
    now rewrite Hw, Ht.
  - eexists. split.
    + unfold delete_handler. cbn [photos]. rewrite !filter_app, F1, F2.
      cbn [filter app]. rewrite Z.eqb_refl. cbn [negb]. reflexivity.
    + rewrite app_nil_r. cbn [photos]. split; [reflexivity|].
      unfold photo_handler, delete_handler. cbn [photos].
      now rewrite (F0 (photo_has_worker _) (photo_has_task _)), F1.
Qed.

End PhotoFacts.

(** The sample archives are reached by the routes. *)
Lemma two_photos_reachable :
  photo_reachable Scenario.not_configured Scenario.under_root
    Scenario.two_photos.
Proof.
  exists Scenario.no_photo. split; [reflexivity|].
  eapply photo_steps_more; [eapply photo_steps_more; [apply photo_steps_refl|]|].
  - apply (step_upload Scenario.not_configured Scenario.under_root
             (Sample.at_time Sample.T) Scenario.no_photo
             (Scenario.a_photo "before")).
  - apply (step_upload Scenario.not_configured Scenario.under_root
             (Sample.at_time (Sample.T + 60000)) Scenario.one_photo
             (Scenario.a_photo "after")).
Qed.

Lemma one_photo_reachable :
  photo_reachable Scenario.not_configured Scenario.under_root
    Scenario.one_photo.
Proof.
  exists Scenario.no_photo. split; [reflexivity|].
  eapply photo_steps_more; [apply photo_steps_refl|].
  apply (step_upload Scenario.not_configured Scenario.under_root
           (Sample.at_time Sample.T) Scenario.no_photo
           (Scenario.a_photo "before")).
Qed.

Lemma stored_photos_are_well_formed_witness :
  NoDup (map photo_id (photos Scenario.two_photos)) /\
  forall p, In p (photos Scenario.two_photos) ->
    (photo_type p = "before" \/ photo_type p = "during" \/
     photo_type p = "after")%string /\
    ai_safety_flags p <> Some [] /\
    (exists w, In w (workers (ledger Scenario.two_photos)) /\
               worker_id w = photo_worker_id p) /\
    In (photo_task_id p) (tasks Scenario.two_photos).
Proof.
  exact (stored_photos_are_well_formed Scenario.not_configured
           Scenario.under_root Scenario.two_photos two_photos_reachable).
Defined.


Lemma photo_upload_lookup_delete_witness :
  exists row,
    upload_handler Scenario.not_configured
      (Sample.at_time (Sample.T + 60000)) Scenario.one_photo
      (Scenario.a_photo "after") = (PhotoCreated row, Scenario.two_photos) /\
    photo_handler Scenario.two_photos (photo_id row)
    = (OnePhoto row, Scenario.two_photos).
Proof.
  eexists. split.
  - vm_compute. reflexivity.
  - refine (proj1 (photo_upload_lookup_delete Scenario.not_configured
                     Scenario.under_root (Sample.at_time (Sample.T + 60000))
                     Scenario.one_photo (Scenario.a_photo "after") _ _
                     one_photo_reachable _)).
    vm_compute. reflexivity.
Defined.

(** * Properties of the dashboard's readings *)


Lemma filter_andb {A : Type} (f g : A -> bool) (l : list A) :
  filter (fun x => f x && g x) l = filter f (filter g l).
Proof.
  induction l as [|a l IH]; cbn; trivial.
  destruct (g a); cbn; rewrite ?andb_false_r, ?andb_true_r.
  - destruct (f a); cbn; now rewrite IH.
  - exact IH.
Qed.

Lemma NoDup_map_filter {A B : Type} (f : A -> B) (g : A -> bool) (l : list A) :
  NoDup (map f l) -> NoDup (map f (filter g l)).
Proof.
  induction l as [|a l IH]; cbn; intro ND; trivial.
  inversion ND as [|? ? Hnot ND']; subst.
  destruct (g a); cbn; [|auto].
  constructor; [|auto].
  rewrite in_map_iff. intros (x & E & Hx). apply filter_In in Hx.
  apply Hnot. rewrite <- E. now apply in_map.
Qed.

Lemma open_shifts_distinct_workers (l : list checkin) :
  (forall w,
      (List.length
         (filter (fun c => (checkin_worker_id c =? w)%Z && is_open c) l) <= 1)%nat) ->
  NoDup (map checkin_worker_id (filter is_open l)).
Proof.
  induction l as [|c l IH]; cbn; intro Inv; [constructor|].
  assert (Inv' : forall w,
             (List.length
                (filter (fun c => (checkin_worker_id c =? w)%Z && is_open c) l)
              <= 1)%nat).
  { intro w. specialize (Inv w).
    destruct ((checkin_worker_id c =? w)%Z && is_open c); cbn in Inv; lia. }
  destruct (is_open c) eqn:Oc; [|auto].
  cbn. constructor; [|auto].
  rewrite in_map_iff. intros (x & E & Hx). apply filter_In in Hx.
  destruct Hx as [Hx Ox].
  specialize (Inv (checkin_worker_id c)).
  rewrite Z.eqb_refl in Inv. cbn [andb List.length] in Inv.
  set (same := filter (fun c0 => (checkin_worker_id c0 =? checkin_worker_id c)%Z
                                 && is_open c0) l) in *.
  assert (In x same) as Hin.
  { apply filter_In. split; trivial. rewrite E, Z.eqb_refl. exact Ox. }
  destruct same; [destruct Hin|cbn [List.length] in Inv; lia].
Qed.

(** X17.  The dashboard's count of active workers, the number of
    distinct workers with an open shift, at a project when the query
    names one, is never more than the number of open shifts there; in a
    ledger with at most one open shift for each worker it is that
    number: no worker is counted for two. *)
Theorem active_workers_are_the_open_shifts db projectId :
  (active_workers db projectId <=
   List.length
     (filter
        (fun c =>
           filter_by projectId (fun p => (checkin_project_id c =? p)%Z)
           && is_open c)
        (checkins db)))%nat /\
  (one_open_shift_per_worker db ->
   active_workers db projectId =
   List.length
     (filter
        (fun c =>
           filter_by projectId (fun p => (checkin_project_id c =? p)%Z)
           && is_open c)
        (checkins db))).
Proof.
  unfold active_workers. split.
  - rewrite <- (length_map checkin_worker_id (filter _ (checkins db))).
    apply NoDup_incl_length; [apply NoDup_nodup|].
    intros w Hw. now apply nodup_In in Hw.
  - intro Inv.
    rewrite nodup_fixed_point; [apply length_map|].
    rewrite filter_andb. apply NoDup_map_filter.
    apply open_shifts_distinct_workers. exact Inv.
Qed.

Lemma active_workers_are_the_open_shifts_witness :
  active_workers Scenario.bob_in (Some 1%Z) =
  List.length
    (filter
       (fun c =>
          filter_by (Some 1%Z) (fun p => (checkin_project_id c =? p)%Z)
          && is_open c)
       (checkins Scenario.bob_in)).
Proof.
  apply (proj2 (active_workers_are_the_open_shifts Scenario.bob_in
                  (Some 1%Z))).
  exact (reachable_one_open RefMath.lib Scenario.bob_in bob_in_reachable).
Defined.

Section TimeTheft.

Local Open Scope Z_scope.

Lemma insert_by_late_In (r x : theft_row) (l : list theft_row) :
  In x (insert_by_late r l) <-> x = r \/ In x l.
Proof.
  induction l as [|q l IH]; cbn.
  - intuition.
  - destruct (late_checkins q <=? late_checkins r); cbn.
    + intuition.
    + rewrite IH. intuition.
Qed.

Lemma theft_rows_In (db : database) (req : theft_request) (r : theft_row) :
  In r (theft_rows db req) <->
  exists w c shifts,
    In w (workers db) /\ theft_shifts db req w = c :: shifts /\
    r = {| tt_worker_id := worker_id w;
           total_checkins := Z.of_nat (List.length (c :: shifts));
           late_checkins :=
             Z.of_nat (List.length (filter is_late (c :: shifts))) |}.
Proof.
  unfold theft_rows.
  set (group := fun w : worker => match theft_shifts db req w with
                                  | [] => []
                                  | _ :: _ => _
                                  end).
  assert (Sorted_In : forall l, In r (fold_right insert_by_late [] l) <-> In r l).
  { induction l as [|q l IH]; cbn; [tauto|].
    rewrite insert_by_late_In, IH. intuition. }
  rewrite Sorted_In, in_flat_map. unfold group.
  split.
  - intros (w & Hw & Hr).
    destruct (theft_shifts db req w) as [|c shifts] eqn:E; [destruct Hr|].
    destruct Hr as [<-|[]]. exists w, c, shifts. auto.
  - intros (w & c & shifts & Hw & E & ->). exists w. split; trivial.
    rewrite E. now left.
Qed.

Lemma theft_row_counts (db : database) (req : theft_request) (r : theft_row) :
  In r (theft_rows db req) ->
  1 <= total_checkins r /\ 0 <= late_checkins r <= total_checkins r /\
  total_checkins r <= Z.of_nat (List.length (checkins db)).
Proof.
  intro H. apply theft_rows_In in H.
  destruct H as (w & c & shifts & _ & E & ->). cbn [total_checkins late_checkins].
  pose proof (filter_length_le is_late (c :: shifts)) as L1.
  assert (L2 : (List.length (c :: shifts) <= List.length (checkins db))%nat).
  { rewrite <- E. apply filter_length_le. }
  cbn [List.length] in *. lia.
Qed.

Lemma SFpositive_not_nan (x : float) :
  SFpositive (Prim2SF x) -> is_nan x = false /\ (x <? 0)%float = false.
Proof.
  intro P. split.
  - unfold is_nan. rewrite eqb_spec. unfold SFeqb.
    destruct (Prim2SF x) as [[|]|[|]| |[|] m e]; cbn in *; try tauto.
    now rewrite Z.compare_refl, Pos.compare_cont_refl.
  - apply ltb_zero_notneg.
    destruct (Prim2SF x) as [[|]|[|]| |[|] m e]; cbn in *; tauto.
Qed.

Lemma SFpositive_round (m e : Z) (l : location) :
  0 <= m -> SFpositive (binary_round_aux prec emax false m e l).
Proof.
  intro Hm. unfold binary_round_aux.
  destruct (shr_fexp prec emax m e l) as [mrs' e'] eqn:E1.
  destruct (shr_fexp prec emax _ e' loc_Exact) as [mrs'' e''] eqn:E2.
  pose proof (shr_fexp_bounds m e l Hm) as B1. rewrite E1 in B1.
  pose proof (round_nearest_even_bounds (shr_m mrs') (loc_of_shr_record mrs'))
    as B2.
  assert (H1 : 0 <= round_nearest_even (shr_m mrs') (loc_of_shr_record mrs'))
    by lia.
  pose proof (shr_fexp_bounds _ e' loc_Exact H1) as B3.
  rewrite E2 in B3.
  destruct (shr_m mrs''); cbn [SFpositive]; trivial; [|lia].
  now destruct (e'' <=? emax - prec).
Qed.

Lemma SFpositive_div (X : spec_float) (m : positive) (e : Z) :
  SFpositive X -> SFpositive (SFdiv prec emax X (S754_finite false m e)).
Proof.
  destruct X as [[|]|[|]| |[|] mx ex]; cbn [SFpositive SFdiv xorb]; try tauto.
  intros _. unfold SFdiv_core_binary.
  set (s := ex - e - _).
  set (m' := match s with Zpos _ => _ | 0 => _ | Zneg _ => 0 end).
  assert (Hm' : 0 <= m').
  { unfold m'. destruct s; try lia. apply Z.shiftl_nonneg. lia. }
  pose proof (Z_div_mod m' (Zpos m) ltac:(lia)) as DM.
  destruct (Z.div_eucl m' (Zpos m)) as [q r].
  apply SFpositive_round. destruct DM as [DM Hr]. nia.
Qed.

Lemma SFpositive_add (X Y : spec_float) :
  SFpositive X -> SFpositive Y -> SFpositive (SFadd prec emax X Y).
Proof.
  destruct X as [[|]|[|]| |[|] mx ex], Y as [[|]|[|]| |[|] my ey];
    cbn [SFpositive SFadd cond_Zopp]; try tauto.
  intros _ _.
  set (a := Zpos (fst (shl_align mx ex (Z.min ex ey)))).
  set (b := Zpos (fst (shl_align my ey (Z.min ex ey)))).
  assert (0 < a + b) by (unfold a, b; lia).
  destruct (a + b) as [|p|p]; try lia.
  cbn [binary_normalize]. unfold binary_round.
  destruct (shl_align p _ _) as [mz ez]. apply SFpositive_round. lia.
Qed.

(** The double of a count. *)
Lemma SFpositive_of_Z (z : Z) :
  0 <= z < 2 ^ 53 ->
  SFpositive (Prim2SF (JS.of_Z z)) /\
  (1 <= z -> exists m e, Prim2SF (JS.of_Z z) = S754_finite false m e).
Proof.
  intros [L U]. destruct z as [|p|p]; try lia.
  - split; [exact I|lia].
  - destruct (of_Z_positive p U) as (m & E & _). rewrite E.
    split; [exact I|]. intros _. eauto.
Qed.

Lemma late_rate_positive (w : theft_row) :
  1 <= total_checkins w < 2 ^ 53 -> 0 <= late_checkins w <= total_checkins w ->
  SFpositive (Prim2SF (late_rate w)) /\
  (late_checkins w = 0 -> late_rate w = 0%float).
Proof.
  intros Ht Hl. unfold late_rate.
  destruct (SFpositive_of_Z (total_checkins w) ltac:(lia)) as [_ T].
  destruct (T ltac:(lia)) as (m & e & E).
  destruct (SFpositive_of_Z (late_checkins w) ltac:(lia)) as [P _].
  split.
  - rewrite div_spec, E. now apply SFpositive_div.
  - intros ->. apply Prim2SF_inj. rewrite div_spec, E. reflexivity.
Qed.

Lemma sum_positive (rows : list theft_row) (acc : float) :
  Forall (fun w => 1 <= total_checkins w < 2 ^ 53 /\
                   0 <= late_checkins w <= total_checkins w) rows ->
  SFpositive (Prim2SF acc) ->
  SFpositive
    (Prim2SF (fold_left (fun sum w => (sum + late_rate w)%float) rows acc)).
Proof.
  intro F. revert acc. induction F as [|w rows [Ht Hl] _ IH]; intros acc P.
  - exact P.
  - cbn [fold_left]. apply IH. rewrite add_spec.
    apply SFpositive_add; trivial. now apply late_rate_positive.
Qed.

Lemma sum_zero (rows : list theft_row) :
  Forall (fun w => 1 <= total_checkins w < 2 ^ 53 /\
                   0 <= late_checkins w <= total_checkins w) rows ->
  filter (fun w => 0 <? late_checkins w) rows = [] ->
  fold_left (fun sum w => (sum + late_rate w)%float) rows 0%float = 0%float.
Proof.
  induction 1 as [|w rows [Ht Hl] _ IH]; intro None; [reflexivity|].
  cbn [filter] in None.
  destruct (Z.ltb_spec 0 (late_checkins w)) as [|Z0]; [discriminate|].
  cbn [fold_left].
  rewrite (proj2 (late_rate_positive w Ht Hl)) by lia.
  change (0 + 0)%float with 0%float. auto.
Qed.


Lemma insert_by_late_length (r : theft_row) (l : list theft_row) :
  List.length (insert_by_late r l) = S (List.length l).
Proof.
  induction l as [|q l IH]; cbn; trivial.
  destruct (late_checkins q <=? late_checkins r); cbn; congruence.
Qed.

Lemma theft_rows_length (db : database) (req : theft_request) :
  (List.length (theft_rows db req) <= List.length (workers db))%nat.
Proof.
  unfold theft_rows.
  set (group := fun w : worker => match theft_shifts db req w with
                                  | [] => []
                                  | _ :: _ => _
                                  end).
  assert (Sorted_len : forall l,
             List.length (fold_right insert_by_late [] l) = List.length l).
  { induction l as [|q l IH]; cbn; trivial.
    now rewrite insert_by_late_length, IH. }
  rewrite Sorted_len.
  induction (workers db) as [|w ws IH]; cbn [flat_map List.length]; [lia|].
  rewrite length_app. unfold group at 1.
  destruct (theft_shifts db req w); cbn [List.length]; lia.
Qed.

(** X18.  The time-theft report, for a database of fewer than [2^53]
    rows.  Every row counts at least one check-in and no more late
    check-ins than check-ins; the workers with late check-ins are among
    the workers reported; there is no row exactly when no worker has a
    shift the query keeps, and then, and only then, the average late
    rate is [NaN] (zero divided by zero rows); otherwise it is a number
    that is not negative, and it is zero when no worker was late. *)
Theorem time_theft_summary (db : database) (req : theft_request) :
  Z.of_nat (List.length (checkins db)) < 2 ^ 53 ->
  Z.of_nat (List.length (workers db)) < 2 ^ 53 ->
  exists rows summary,
    time_theft_handler db req = (rows, summary) /\
    (forall r, In r rows ->
       1 <= total_checkins r /\ 0 <= late_checkins r <= total_checkins r) /\
    (workersWithLateCheckins summary <= totalWorkers summary)%nat /\
    (rows = [] <-> forall w, In w (workers db) -> theft_shifts db req w = []) /\
    (is_nan (averageLateRate summary) = true <-> rows = []) /\
    (averageLateRate summary <? 0)%float = false /\
    (rows <> [] -> workersWithLateCheckins summary = 0%nat ->
     averageLateRate summary = 0%float).
Proof.
  intros Size Staff. unfold time_theft_handler.
  pose proof (theft_rows_In db req) as Rows_In.
  pose proof (theft_row_counts db req) as Row_counts.
  pose proof (theft_rows_length db req) as Len.
  remember (theft_rows db req) as rows eqn:Er. clear Er.
  exists rows, (summarize rows). split; [reflexivity|].
  assert (Counts : Forall (fun w => 1 <= total_checkins w < 2 ^ 53 /\
                                    0 <= late_checkins w <= total_checkins w)
                     rows).
  { apply Forall_forall. intros r Hr.
    destruct (Row_counts r Hr) as (H1 & H2 & H3). lia. }
  assert (Sum := sum_positive rows 0%float Counts I).
  assert (Avg : averageLateRate (summarize rows) =
                (fold_left (fun sum w => (sum + late_rate w)%float) rows 0
                 / JS.of_Z (Z.of_nat (List.length rows)))%float)
    by reflexivity.
  assert (NotNan : rows <> [] ->
                   SFpositive (Prim2SF (averageLateRate (summarize rows)))).
  { intro NE. rewrite Avg.
    destruct (SFpositive_of_Z (Z.of_nat (List.length rows)) ltac:(lia))
      as [_ T].
    destruct T as (m & e & E).
    { destruct rows; [now elim NE|cbn [List.length]; lia]. }
    rewrite div_spec, E. now apply SFpositive_div. }
  split; [|split; [|split; [|split; [|split]]]].
  - intros r Hr. destruct (Row_counts r Hr) as (H1 & H2 & _).
    split; trivial.
  - cbn [workersWithLateCheckins totalWorkers summarize].
    apply filter_length_le.
  - split.
    + intros E w Hw.
      destruct (theft_shifts db req w) as [|c shifts] eqn:Es; trivial.
      assert (In {| tt_worker_id := worker_id w;
                    total_checkins := Z.of_nat (List.length (c :: shifts));
                    late_checkins :=
                      Z.of_nat (List.length (filter is_late (c :: shifts))) |}
                rows) as Hin.
      { apply Rows_In. exists w, c, shifts. auto. }
      rewrite E in Hin. destruct Hin.
    + intro None. destruct rows as [|r rs]; trivial.
      assert (In r (r :: rs)) as Hin by now left.
      apply Rows_In in Hin.
      destruct Hin as (w & c & shifts & Hw & E & _).
      rewrite (None w Hw) in E. discriminate.
  - split.
    + intro Nan. destruct rows as [|r rs]; trivial.
      apply SFpositive_not_nan in NotNan; [|discriminate].
      destruct NotNan as [N _]. congruence.
    + intros ->. reflexivity.
  - destruct rows as [|r rs]; [reflexivity|].
    apply SFpositive_not_nan in NotNan; [|discriminate]. tauto.
  - intros NE None. rewrite Avg.
    rewrite sum_zero; trivial.
    + destruct (SFpositive_of_Z (Z.of_nat (List.length rows)) ltac:(lia))
        as [_ T].
      destruct T as (m & e & E).
      { destruct rows; [now elim NE|cbn [List.length]; lia]. }
      apply Prim2SF_inj. rewrite div_spec, E. reflexivity.
    + cbn [workersWithLateCheckins summarize] in None.
      now apply length_zero_iff_nil.
Qed.

End TimeTheft.

Lemma time_theft_summary_witness :
  exists rows summary,
    time_theft_handler Scenario.bob_in Scenario.every_shift = (rows, summary) /\
    (forall r, In r rows ->
       1 <= total_checkins r /\ 0 <= late_checkins r <= total_checkins r)%Z /\
    (workersWithLateCheckins summary <= totalWorkers summary)%nat /\
    (rows = [] <->
     forall w, In w (workers Scenario.bob_in) ->
               theft_shifts Scenario.bob_in Scenario.every_shift w = []) /\
    (is_nan (averageLateRate summary) = true <-> rows = []) /\
    (averageLateRate summary <? 0)%float = false /\
    (rows <> [] -> workersWithLateCheckins summary = 0%nat ->
     averageLateRate summary = 0%float).
Proof.
  apply (time_theft_summary Scenario.bob_in Scenario.every_shift).
  - vm_compute. reflexivity.
  - vm_compute. reflexivity.
Defined.
